(** * Hashing Concepts Lab: the text-rendering and diff layer

    A shallow embedding of [demos/ui.py] (width measurement, boxes, bucket
    tables, the progress bar, [toy_hash]) and of the three diff views of
    [demos/avalanche.py], followed by the properties proved about them.

    Python values are modelled as follows.
    - [str] is a list of Unicode code points ([pystr := list Z]); [len]
      counts code points, as Python does.
    - [int] is [Z]; [s * n] on a string is [str_mul], empty for [n <= 0].
    - A raised exception is the [Raise] case of [result].
    - [print] appends one line to the list of lines a function returns.
    - [float] is an IEEE 754 binary64 value ([spec_float] with 53 bits of
      precision), with the correctly rounded operations of the Standard
      Library's [SpecFloat]. *)

From Stdlib Require Import Ascii String DecimalString.
From Stdlib Require Import ZArith List Bool Lia QArith Qround Qminmax.
From Stdlib Require Import Permutation.
From Stdlib Require Import SpecFloat.
From Stdlib Require DecimalNat DecimalFacts.
From Equations Require Import Equations.
Import ListNotations.

Open Scope Z_scope.

(* ===================================================================== *)
(** ** Python prelude *)
(* ===================================================================== *)

Module Py.

Definition pystr : Type := list Z.

(** An ASCII literal, as code points. *)
Definition lit (s : string) : pystr :=
  map (fun c => Z.of_N (N_of_ascii c)) (list_ascii_of_string s).

Definition len {A : Type} (l : list A) : Z := Z.of_nat (length l).

(** [s * n]: [n] copies of [s]; the empty string when [n <= 0]. *)
Definition str_mul (s : pystr) (n : Z) : pystr :=
  concat (repeat s (Z.to_nat n)).

(** [sep.join(items)]. *)
Fixpoint join (sep : pystr) (items : list pystr) : pystr :=
  match items with
  | [] => []
  | [x] => x
  | x :: rest => x ++ sep ++ join sep rest
  end.

(** [str(n)] for a non-negative integer. *)
Definition str_of_nat (n : nat) : pystr :=
  lit (NilZero.string_of_uint (Nat.to_uint n)).

(** [s.ljust(n)]: pad with spaces on the right up to [n] characters. *)
Definition ljust (s : pystr) (n : Z) : pystr :=
  s ++ str_mul [32] (n - len s).

(** [format(s, "^w")]: centre in [w] columns, the odd space on the right. *)
Definition center (s : pystr) (w : Z) : pystr :=
  let pad := Z.max (w - len s) 0 in
  let left := pad / 2 in
  str_mul [32] left ++ s ++ str_mul [32] (pad - left).

Inductive pyexc : Type :=
| ValueError
| ZeroDivisionError
| IndexError
| OverflowError.

Inductive result (A : Type) : Type :=
| Ok (a : A)
| Raise (e : pyexc).

Arguments Ok {A} a.
Arguments Raise {A} e.

Definition bind {A B : Type} (r : result A) (k : A -> result B) : result B :=
  match r with
  | Ok a => k a
  | Raise e => Raise e
  end.

(** [max(xs)] of an iterable: [ValueError] on an empty one. *)
Definition py_max (xs : list Z) : result Z :=
  match xs with
  | [] => Raise ValueError
  | x :: rest => Ok (fold_left Z.max rest x)
  end.

(** [sum(xs)]. *)
Definition py_sum (xs : list Z) : Z := fold_left Z.add xs 0.

(** [s[i]] for [i >= 0]: [IndexError] out of range. *)
Definition index (s : pystr) (i : nat) : result Z :=
  match nth_error s i with
  | Some c => Ok c
  | None => Raise IndexError
  end.

(** [{x:.0f}] on a float whose value is the exact rational [x]: the nearest
    integer, ties to even, with the sign in front. *)
Definition round_half_even (x : Q) : Z :=
  let fl := Qfloor x in
  match Qcompare (2 * (x - inject_Z fl)) 1 with
  | Lt => fl
  | Gt => fl + 1
  | Eq => if Z.even fl then fl else fl + 1
  end.

Definition fmt_0f (x : Q) : pystr :=
  if Qle_bool 0 x then str_of_nat (Z.to_nat (round_half_even x))
  else lit "-" ++ str_of_nat (Z.to_nat (round_half_even (- x))).

(** *** float

    A [float] is a binary64 value: a signed zero, a signed infinity, NaN, or
    [(-1)^s * m * 2^e].  Arithmetic rounds to nearest, ties to even. *)

Definition float : Type := spec_float.

Definition prec : Z := 53.
Definition emax : Z := 1024.

Definition float_sub : float -> float -> float := SFsub prec emax.
Definition float_mul : float -> float -> float := SFmul prec emax.
Definition float_div : float -> float -> float := SFdiv prec emax.

(** [float(n)] for an [int] below the overflow threshold: the nearest
    binary64 value.  The literals [30], [100] and [0] mixed into float
    arithmetic are converted this way, exactly. *)
Definition float_of_int (n : Z) : float := binary_normalize prec emax n 0 false.

(** The literals [1.0] and [0.05]. *)
Definition F_1_0 : float := S754_finite false 4503599627370496 (-52).
Definition F_0_05 : float := S754_finite false 7205759403792794 (-57).

Definition is_zero (x : float) : bool :=
  match x with
  | S754_zero _ => true
  | _ => false
  end.

(** [a / b]: ZeroDivisionError when [b] is [0.0] or [-0.0], whatever [a]. *)
Definition truediv (a b : float) : result float :=
  if is_zero b then Raise ZeroDivisionError else Ok (float_div a b).

(** [a < b] and [a >= b]: both false when a side is NaN. *)
Definition float_lt (a b : float) : bool := SFltb a b.
Definition float_ge (a b : float) : bool := SFleb b a.

(** [min(a, b)]: the builtin keeps [a] unless [b < a]. *)
Definition py_min (a b : float) : float := if float_lt b a then b else a.

(** [int(x)]: truncation towards zero; OverflowError on an infinity,
    ValueError on NaN. *)
Definition py_int (x : float) : result Z :=
  match x with
  | S754_nan => Raise ValueError
  | S754_infinity _ => Raise OverflowError
  | S754_zero _ => Ok 0
  | S754_finite s m e =>
      let t := if 0 <=? e then Zpos m * 2 ^ e else Zpos m / 2 ^ (- e) in
      Ok (if s then - t else t)
  end.

(** [s * n] for a count that can be any [int]: the count has to fit the
    index type of a 64-bit build, otherwise OverflowError.  (Running out
    of memory for a long result is not modelled.) *)
Definition PY_SSIZE_T_MAX : Z := 2 ^ 63 - 1.

Definition str_repeat (s : pystr) (n : Z) : result pystr :=
  if (n <? - PY_SSIZE_T_MAX - 1) || (PY_SSIZE_T_MAX <? n)
  then Raise OverflowError
  else Ok (str_mul s n).

(** The exact value of [m * 2^e]. *)
Definition float_abs_Q (m : positive) (e : Z) : Q :=
  if 0 <=? e then inject_Z (Zpos m * 2 ^ e)
  else Zpos m # Z.to_pos (2 ^ (- e)).

Definition str_of_N (n : N) : pystr :=
  lit (NilZero.string_of_uint (N.to_uint n)).

(** [{x:.0f}] on a float: the exact value rounded to the nearest integer,
    ties to even; the sign is that of [x], also in front of a zero. *)
Definition float_fmt_0f (x : float) : pystr :=
  let sign (s : bool) : pystr := if s then lit "-" else [] in
  match x with
  | S754_nan => lit "nan"
  | S754_infinity s => sign s ++ lit "inf"
  | S754_zero s => sign s ++ lit "0"
  | S754_finite s m e =>
      sign s ++ str_of_N (Z.to_N (round_half_even (float_abs_Q m e)))
  end.

(** [{x:3.0f}]: the same, right-aligned in at least 3 columns. *)
Definition fmt_3_0f (x : float) : pystr :=
  str_mul [32] (3 - len (float_fmt_0f x)) ++ float_fmt_0f x.

End Py.

Import Py.

Notation "x <- c1 ;; c2" := (bind c1 (fun x => c2))
  (at level 61, c1 at next level, right associativity).

(* ===================================================================== *)
(** ** demos/ui.py *)
(* ===================================================================== *)

Module Ui.

(** *** ANSI colour codes *)

Definition ESC : Z := 27.

Definition sgr (params : string) : pystr := ESC :: lit "[" ++ lit params ++ lit "m".

Definition C_PURPLE : pystr := sgr "95".
Definition C_BLUE   : pystr := sgr "94".
Definition C_CYAN   : pystr := sgr "96".
Definition C_GREEN  : pystr := sgr "92".
Definition C_YELLOW : pystr := sgr "93".
Definition C_RED    : pystr := sgr "91".
Definition C_BOLD   : pystr := sgr "1".
Definition C_DIM    : pystr := sgr "2".
Definition C_RESET  : pystr := sgr "0".

(** *** Box-drawing characters *)

Definition BOX_H  : pystr := [9472].  (* U+2500 *)
Definition BOX_V  : pystr := [9474].  (* U+2502 *)
Definition BOX_TL : pystr := [9484].  (* U+250C *)
Definition BOX_TR : pystr := [9488].  (* U+2510 *)
Definition BOX_BL : pystr := [9492].  (* U+2514 *)
Definition BOX_BR : pystr := [9496].  (* U+2518 *)
Definition BOX_LT : pystr := [9500].  (* U+251C *)
Definition BOX_RT : pystr := [9508].  (* U+2524 *)
Definition BOX_TEE_DOWN : pystr := [9516].  (* U+252C, written inline in the source *)
Definition BOX_CROSS    : pystr := [9532].  (* U+253C *)
Definition BOX_TEE_UP   : pystr := [9524].  (* U+2534 *)

(** *** strip_ansi

    [re.sub(r"\033\[[0-9;]*m", "", text)]: scanning from the left, each
    position where the pattern matches is skipped up to the end of the
    match; any other character is copied and the scan moves one step. *)

(** The class [[0-9;]]. *)
Definition is_param (c : Z) : bool :=
  ((48 <=? c) && (c <=? 57)) || (c =? 59).

(** [[0-9;]*m] at the head of [s]; returns what follows the match.  The
    star is greedy, and since ['m'] is not in the class no shorter run can
    succeed where the longest one fails. *)
Fixpoint match_params (s : pystr) : option pystr :=
  match s with
  | [] => None
  | c :: t =>
      if is_param c then match_params t
      else if c =? 109 then Some t
      else None
  end.

(** The whole pattern at the head of [s]. *)
Definition match_sgr (s : pystr) : option pystr :=
  match s with
  | c0 :: c1 :: t => if (c0 =? ESC) && (c1 =? 91) then match_params t else None
  | _ => None
  end.

Lemma match_params_shorter s rest :
  match_params s = Some rest -> (length rest < length s)%nat.
Proof.
  revert rest; induction s as [|c t IH]; intros rest; simpl; [discriminate|].
  destruct (is_param c).
  - intros H. apply IH in H. lia.
  - destruct (c =? 109); [|discriminate].
    intros H. injection H as <-. lia.
Qed.

Lemma match_sgr_shorter s rest :
  match_sgr s = Some rest -> (length rest < length s)%nat.
Proof.
  destruct s as [|c0 [|c1 t]]; simpl; try discriminate.
  destruct ((c0 =? ESC) && (c1 =? 91)); [|discriminate].
  intros H. apply match_params_shorter in H. simpl. lia.
Qed.

Definition inspect {A : Type} (x : A) : {y : A | x = y} := exist _ x eq_refl.

Equations? strip_ansi (text : pystr) : pystr by wf (length text) lt :=
  strip_ansi [] := [];
  strip_ansi (c :: t) with inspect (match_sgr (c :: t)) => {
    | exist _ (Some rest) _ := strip_ansi rest;
    | exist _ None _ := c :: strip_ansi t }.
Proof.
  exact (match_sgr_shorter (c :: t) rest e).
Qed.

(** The visible width the callers compute: [len(strip_ansi(text))]. *)
Definition visible_len (text : pystr) : Z := len (strip_ansi text).

(** *** draw_box *)

Definition box_top (width : Z) (color : pystr) : pystr :=
  lit "    " ++ color ++ BOX_TL ++ str_mul BOX_H width ++ BOX_TR ++ C_RESET.

Definition box_bottom (width : Z) (color : pystr) : pystr :=
  lit "    " ++ color ++ BOX_BL ++ str_mul BOX_H width ++ BOX_BR ++ C_RESET.

(** The body of the [for line in content_lines] loop: one printed row. *)
Definition box_row (width : Z) (color line : pystr) : pystr :=
  let visible_len := len (strip_ansi line) in
  let padding := width - visible_len in
  lit "    " ++ color ++ BOX_V ++ C_RESET
    ++ line ++ str_mul (lit " ") padding
    ++ color ++ BOX_V ++ C_RESET.

(** [if width is None: width = max(len(strip_ansi(line)) for ...) + 2]. *)
Definition resolve_width (content_lines : list pystr) (width : option Z)
  : result Z :=
  match width with
  | None =>
      m <- py_max (map (fun line => len (strip_ansi line)) content_lines) ;;
      Ok (m + 2)
  | Some w => Ok w
  end.

(** Returns the printed lines, in order. *)
Definition draw_box (content_lines : list pystr) (width : option Z)
    (color : pystr) : result (list pystr) :=
  width <- resolve_width content_lines width ;;
  Ok ([box_top width color]
        ++ map (box_row width color) content_lines
        ++ [box_bottom width color]).

(** *** draw_buckets *)

Definition idx_w : Z := 5.
Definition content_w : Z := 44.

(** [i == highlight_idx], where [highlight_idx] may be [None]. *)
Definition is_highlight (i : nat) (highlight_idx : option Z) : bool :=
  match highlight_idx with
  | Some h => Z.of_nat i =? h
  | None => false
  end.

(** Truthiness of a list: non-empty. *)
Definition truthy {A : Type} (l : list A) : bool :=
  match l with
  | [] => false
  | _ :: _ => true
  end.

Definition idx_color (i : nat) (bucket : list pystr)
    (highlight_idx : option Z) : pystr :=
  if is_highlight i highlight_idx && truthy bucket then C_RED
  else if is_highlight i highlight_idx then C_GREEN
  else C_CYAN.

Definition idx_str (i : nat) (bucket : list pystr)
    (highlight_idx : option Z) : pystr :=
  idx_color i bucket highlight_idx ++ C_BOLD
    ++ center (str_of_nat i) idx_w ++ C_RESET.

Definition items_str (bucket : list pystr) : pystr :=
  if truthy bucket then join (lit ", ") bucket
  else C_DIM ++ lit "empty" ++ C_RESET.

Definition content_cell (bucket : list pystr) : pystr :=
  let visible_len := len (strip_ansi (items_str bucket)) in
  let pad := content_w - visible_len - 1 in
  lit " " ++ items_str bucket ++ str_mul (lit " ") (Z.max pad 0).

Definition bucket_row (i : nat) (bucket : list pystr)
    (highlight_idx : option Z) : pystr :=
  lit "    " ++ C_CYAN ++ BOX_V ++ C_RESET
    ++ idx_str i bucket highlight_idx
    ++ C_CYAN ++ BOX_V ++ C_RESET
    ++ content_cell bucket
    ++ C_CYAN ++ BOX_V ++ C_RESET.

Definition buckets_border (l m r : pystr) : pystr :=
  lit "    " ++ C_CYAN ++ l ++ str_mul BOX_H idx_w ++ m
    ++ str_mul BOX_H content_w ++ r ++ C_RESET.

(** What iteration [i] of [for i in range(num)] prints. *)
Definition bucket_iteration (buckets : list (list pystr))
    (highlight_idx : option Z) (i : nat) : list pystr :=
  let num := len buckets in
  bucket_row i (nth i buckets []) highlight_idx
    :: (if Z.of_nat i <? num - 1
        then [buckets_border BOX_LT BOX_CROSS BOX_RT]
        else []).

Definition draw_buckets (buckets : list (list pystr))
    (highlight_idx : option Z) : list pystr :=
  [buckets_border BOX_TL BOX_TEE_DOWN BOX_TR]
    ++ flat_map (bucket_iteration buckets highlight_idx)
         (seq 0 (length buckets))
    ++ [buckets_border BOX_BL BOX_TEE_UP BOX_BR].

(** *** progress_bar

    The wall clock is the sequence of values [time.time()] returns, one per
    call; [time.sleep] and [sys.stdout.write] are recorded in the world.
    The [while True] loop runs on fuel: [Running] means the loop was still
    going when the fuel ran out.  [seconds] is a float; an [int] argument
    is converted to one by the division. *)

Record world : Type := {
  reads : nat;            (* calls to time.time() so far *)
  written : list pystr;   (* what sys.stdout.write and print wrote *)
  sleeps : list float     (* arguments of time.sleep *)
}.

Definition world0 : world := {| reads := 0; written := []; sleeps := [] |}.

Inductive outcome : Type :=
| Returned
| Raised (e : pyexc)
| Running.

Definition stdout_write (s : pystr) (w : world) : world :=
  {| reads := reads w; written := written w ++ [s]; sleeps := sleeps w |}.

Definition time_sleep (d : float) (w : world) : world :=
  {| reads := reads w; written := written w; sleeps := sleeps w ++ [d] |}.

Definition FULL_BLOCK  : pystr := [9608].  (* U+2588 *)
Definition LIGHT_SHADE : pystr := [9617].  (* U+2591 *)

Section ProgressBar.

(** [clock k] is what the [k]-th call of [time.time()] returns. *)
Variable clock : nat -> float.

Definition time_time (w : world) : float * world :=
  (clock (reads w),
   {| reads := S (reads w); written := written w; sleeps := sleeps w |}).

Definition frame (label_text : pystr) (color bar : pystr) (pct : float) : pystr :=
  [13] ++ lit "    " ++ color ++ label_text ++ lit " [" ++ bar ++ lit "] "
    ++ fmt_3_0f (float_mul pct (float_of_int 100)) ++ lit "%" ++ C_RESET.

Fixpoint progress_loop (fuel : nat) (label_text : pystr) (seconds : float)
    (color : pystr) (start : float) (w : world) : outcome * world :=
  match fuel with
  | O => (Running, w)
  | S fuel' =>
      let width := 30 in
      let (now, w) := time_time w in
      let elapsed := float_sub now start in
      match truediv elapsed seconds with
      | Raise e => (Raised e, w)
      | Ok quotient =>
          let pct := py_min quotient F_1_0 in
          match py_int (float_mul (float_of_int width) pct) with
          | Raise e => (Raised e, w)
          | Ok filled =>
              match
                full <- str_repeat FULL_BLOCK filled ;;
                light <- str_repeat LIGHT_SHADE (width - filled) ;;
                Ok (full ++ light)
              with
              | Raise e => (Raised e, w)
              | Ok bar =>
                  let w := stdout_write (frame label_text color bar pct) w in
                  if float_ge pct F_1_0 then (Returned, w)
                  else progress_loop fuel' label_text seconds color start
                         (time_sleep F_0_05 w)
              end
          end
      end
  end.

Definition progress_bar (fuel : nat) (label_text : pystr) (seconds : float)
    (color : pystr) (w : world) : outcome * world :=
  let (start, w) := time_time w in
  match progress_loop fuel label_text seconds color start w with
  | (Returned, w) => (Returned, stdout_write [10] w)   (* print() *)
  | other => other
  end.

End ProgressBar.

(** *** toy_hash *)

(** [ord(c)]: a character is its code point. *)
Definition ord (c : Z) : Z := c.

Definition toy_hash (text : pystr) (num_buckets : Z) : result Z :=
  if num_buckets =? 0 then Raise ZeroDivisionError
  else Ok (py_sum (map ord text) mod num_buckets).

End Ui.

Import Ui.

(* ===================================================================== *)
(** ** demos/avalanche.py: the three diff views of [run] *)
(* ===================================================================== *)

Module Avalanche.

Definition MIDDLE_DOT : pystr := [183].  (* U+00B7 *)

(** [sum(1 for a, b in zip(xs, ys) if a != b)]. *)
Definition count_diffs (xs ys : pystr) : Z :=
  py_sum (map (fun _ => 1)
            (filter (fun p => negb (fst p =? snd p)) (combine xs ys))).

(** *** Part 1: input comparison (characters) *)

Definition padded_a (in_a in_b : pystr) : pystr :=
  ljust in_a (Z.max (len in_a) (len in_b)).

Definition padded_b (in_a in_b : pystr) : pystr :=
  ljust in_b (Z.max (len in_a) (len in_b)).

Definition diff_markers (in_a in_b : pystr) : pystr :=
  fold_left
    (fun diff_markers p =>
       if fst p =? snd p
       then diff_markers ++ C_DIM ++ MIDDLE_DOT ++ C_RESET
       else diff_markers ++ C_RED ++ C_BOLD ++ lit "^" ++ C_RESET)
    (combine (padded_a in_a in_b) (padded_b in_a in_b)) [].

Definition char_diffs (in_a in_b : pystr) : Z :=
  count_diffs (padded_a in_a in_b) (padded_b in_a in_b)
    + Z.abs (len in_a - len in_b).

(** *** Part 2: hex comparison *)

(** The loop over [zip(h_a, h_b)]; returns [(hex_diff, hex_diffs)]. *)
Definition hex_loop (h_a h_b : pystr) : pystr * Z :=
  fold_left
    (fun st p =>
       let '(hex_diff, hex_diffs) := st in
       if fst p =? snd p
       then (hex_diff ++ C_DIM ++ MIDDLE_DOT ++ C_RESET, hex_diffs)
       else (hex_diff ++ C_RED ++ lit "^" ++ C_RESET, hex_diffs + 1))
    (combine h_a h_b) ([], 0).

Definition hex_diff (h_a h_b : pystr) : pystr := fst (hex_loop h_a h_b).
Definition hex_diffs (h_a h_b : pystr) : Z := snd (hex_loop h_a h_b).

(** *** Part 3: binary comparison *)

Definition SHOW_BITS : nat := 64.

Definition bit_diffs_total (b_a b_b : pystr) : Z := count_diffs b_a b_b.

Record bit_lines : Type := {
  colored_a : pystr;
  colored_b : pystr;
  bit_diff_line : pystr
}.

(** One iteration of [for i in range(SHOW_BITS)]. *)
Definition bit_iteration (show_bits : nat) (b_a b_b : pystr)
    (st : bit_lines) (i : nat) : result bit_lines :=
  ai <- index b_a i ;;
  bi <- index b_b i ;;
  let st1 :=
    if ai =? bi
    then {| colored_a := colored_a st ++ C_DIM ++ [ai] ++ C_RESET;
            colored_b := colored_b st ++ C_DIM ++ [bi] ++ C_RESET;
            bit_diff_line := bit_diff_line st ++ C_DIM ++ MIDDLE_DOT ++ C_RESET |}
    else {| colored_a := colored_a st ++ C_CYAN ++ C_BOLD ++ [ai] ++ C_RESET;
            colored_b := colored_b st ++ C_RED ++ C_BOLD ++ [bi] ++ C_RESET;
            bit_diff_line := bit_diff_line st ++ C_RED ++ lit "^" ++ C_RESET |} in
  Ok (if ((Z.of_nat i + 1) mod 8 =? 0) && (Z.of_nat i <? Z.of_nat show_bits - 1)
      then {| colored_a := colored_a st1 ++ lit " ";
              colored_b := colored_b st1 ++ lit " ";
              bit_diff_line := bit_diff_line st1 ++ lit " " |}
      else st1).

Fixpoint bit_loop (show_bits : nat) (b_a b_b : pystr) (indices : list nat)
    (st : bit_lines) : result bit_lines :=
  match indices with
  | [] => Ok st
  | i :: rest =>
      st' <- bit_iteration show_bits b_a b_b st i ;;
      bit_loop show_bits b_a b_b rest st'
  end.

(** [info(text)] prints one dim line. *)
Definition info (text : pystr) : pystr :=
  lit "    " ++ C_DIM ++ text ++ C_RESET.

Definition pct (bit_diffs_total : Z) : Q :=
  (inject_Z bit_diffs_total / 256 * 100)%Q.

Definition bit_summary (bit_diffs_total : Z) : pystr :=
  info (str_of_nat (Z.to_nat bit_diffs_total)
          ++ lit " of 256 total bits flipped ("
          ++ fmt_0f (pct bit_diffs_total) ++ lit "%)." ).

(** Part 3 as a whole: the three printed lines and the summary line.  The
    count is taken before the display loop, as in the source. *)
Definition binary_view (show_bits : nat) (b_a b_b : pystr)
  : result (bit_lines * pystr) :=
  let bit_diffs_total := bit_diffs_total b_a b_b in
  st <- bit_loop show_bits b_a b_b (seq 0 show_bits)
          {| colored_a := []; colored_b := []; bit_diff_line := [] |} ;;
  Ok (st, bit_summary bit_diffs_total).

End Avalanche.

Import Avalanche.

(* ===================================================================== *)
(** ** The StyledText model of the specification *)
(* ===================================================================== *)

Module Styled.

(** A styled text is a sequence of segments: a visible span, or a style
    marker (an SGR sequence, given by its parameter characters). *)
Inductive segment : Type :=
| Visible (span : pystr)
| Marker (params : pystr).

Definition styled_text : Type := list segment.

Definition render_segment (g : segment) : pystr :=
  match g with
  | Visible span => span
  | Marker params => ESC :: 91 :: params ++ [109]
  end.

(** The raw Python string that carries a styled text. *)
Definition render (s : styled_text) : pystr := concat (map render_segment s).

(** The plain content: the visible spans, in order. *)
Definition plain (s : styled_text) : pystr :=
  concat (map (fun g => match g with Visible span => span | Marker _ => [] end) s).

(** Display characters exclude the escape character; a marker carries only
    digits and semicolons. *)
Definition wf_segment (g : segment) : bool :=
  match g with
  | Visible span => forallb (fun c => negb (c =? ESC)) span
  | Marker params => forallb is_param params
  end.

Definition wf (s : styled_text) : bool := forallb wf_segment s.

(** [visibleWidth] of the specification, on the string the code sees. *)
Definition visibleWidth (s : styled_text) : Z := visible_len (render s).

End Styled.

Import Styled.

(** A string is an SGR colour sequence: ESC, '[', digits or semicolons, 'm'. *)
Definition is_sgr (m : pystr) : Prop :=
  exists params, forallb is_param params = true /\ m = ESC :: 91 :: params ++ [109].

(** What "removing exactly the SGR sequences" means, read left to right:
    an SGR sequence at the head is dropped, a character that starts none is
    kept. *)
Inductive removes_sgr : pystr -> pystr -> Prop :=
| removes_nil : removes_sgr [] []
| removes_skip m rest out :
    is_sgr m -> removes_sgr rest out -> removes_sgr (m ++ rest) out
| removes_keep c t out :
    (forall m rest, is_sgr m -> c :: t <> m ++ rest) ->
    removes_sgr t out -> removes_sgr (c :: t) (c :: out).

(** [b] is empty or starts with a character that is neither '[', a digit,
    ';' nor 'm': it cannot continue an SGR sequence begun before it. *)
Definition safe_head (b : pystr) : bool :=
  match b with
  | [] => true
  | c :: _ => negb (is_param c) && negb (c =? 109) && negb (c =? 91)
  end.

(** The sum of the code points of a text, written as a recursion on it. *)
Definition sum_code_points (text : pystr) : Z := fold_right Z.add 0 text.

(** The positions [i < length a] at which [a] and [b] differ. *)
Definition mismatch_positions (a b : pystr) : list nat :=
  filter (fun i => negb (nth i a 0 =? nth i b 0)) (seq 0 (length a)).

(** The marker of one compared pair in the hex view. *)
Definition hex_marker (p : Z * Z) : pystr :=
  if fst p =? snd p then C_DIM ++ MIDDLE_DOT ++ C_RESET
  else C_RED ++ lit "^" ++ C_RESET.

(** The display loop starts from three empty lines. *)
Definition no_lines : bit_lines :=
  {| colored_a := []; colored_b := []; bit_diff_line := [] |}.

(** The count the specification describes: the positions below the shorter
    length at which the two inputs differ, plus the difference of the
    lengths. *)
Definition prefix_mismatches (a b : pystr) : Z :=
  len (filter (fun i => negb (nth i a 0 =? nth i b 0))
         (seq 0 (Nat.min (length a) (length b)))).

Definition spec_char_mismatch (a b : pystr) : Z :=
  prefix_mismatches a b + Z.abs (len a - len b).

(** The number of carets in a marker line. *)
Definition carets (line : pystr) : Z := len (filter (fun c => c =? 94) line).

(** A comma-joined item list: the first item, then every further item
    preceded by a comma and a space. *)
Definition comma_joined (items : list pystr) : pystr :=
  match items with
  | [] => []
  | first :: rest => first ++ flat_map (fun item => lit ", " ++ item) rest
  end.

(** A clock that advances by 3 seconds between readings: 0.0, 3.0, 6.0, ... *)
Definition clock_3s (k : nat) : float := float_of_int (3 * Z.of_nat k).

(* ===================================================================== *)
(** ** Properties of strip_ansi *)
(* ===================================================================== *)

Lemma strip_ansi_unfold text :
  strip_ansi text =
  match text with
  | [] => []
  | c :: t =>
      match match_sgr text with
      | Some rest => strip_ansi rest
      | None => c :: strip_ansi t
      end
  end.
Proof.
  destruct text as [|c t]; [reflexivity|].
  simp strip_ansi.
  generalize (inspect (match_sgr (c :: t))).
  intros [[rest|] e];
    match goal with
    | |- _ = ?R =>
        match type of e with
        | _ = Some ?r => replace R with (strip_ansi r) by (rewrite e; reflexivity)
        | _ = None => replace R with (c :: strip_ansi t) by (rewrite e; reflexivity)
        end
    end; reflexivity.
Qed.

Lemma is_param_not_esc c : is_param c = true -> (c =? ESC) = false.
Proof. unfold is_param, ESC. lia. Qed.

Lemma is_param_not_m c : is_param c = true -> (c =? 109) = false.
Proof. unfold is_param. lia. Qed.

Lemma match_params_app params rest :
  forallb is_param params = true ->
  match_params (params ++ 109 :: rest) = Some rest.
Proof.
  induction params as [|c ps IH]; simpl; [reflexivity|].
  intros H. apply andb_true_iff in H as [Hc Hps].
  rewrite Hc. auto.
Qed.

Lemma match_params_sound s rest :
  match_params s = Some rest ->
  exists params, forallb is_param params = true /\ s = params ++ 109 :: rest.
Proof.
  revert rest. induction s as [|c t IH]; intros rest; simpl; [discriminate|].
  destruct (is_param c) eqn:Hc.
  - intros H. destruct (IH _ H) as (ps & Hps & ->).
    exists (c :: ps). simpl. rewrite Hc, Hps. split; reflexivity.
  - destruct (c =? 109) eqn:Hm; [|discriminate].
    intros H. injection H as <-. apply Z.eqb_eq in Hm as ->.
    exists []. split; reflexivity.
Qed.

Lemma match_sgr_complete m rest :
  is_sgr m -> match_sgr (m ++ rest) = Some rest.
Proof.
  intros (ps & Hps & ->). simpl. rewrite <- app_assoc. simpl.
  apply match_params_app, Hps.
Qed.

Lemma match_sgr_sound s rest :
  match_sgr s = Some rest -> exists m, is_sgr m /\ s = m ++ rest.
Proof.
  destruct s as [|c0 [|c1 t]]; simpl; try discriminate.
  destruct (c0 =? ESC) eqn:H0; [|discriminate].
  destruct (c1 =? 91) eqn:H1; [|discriminate]. simpl.
  apply Z.eqb_eq in H0 as ->. apply Z.eqb_eq in H1 as ->.
  intros H. destruct (match_params_sound _ _ H) as (ps & Hps & ->).
  exists (ESC :: 91 :: ps ++ [109]). split.
  - exists ps. split; [exact Hps | reflexivity].
  - simpl. rewrite <- app_assoc. reflexivity.
Qed.

Lemma strip_ansi_skip text rest :
  match_sgr text = Some rest -> strip_ansi text = strip_ansi rest.
Proof.
  intros H. rewrite (strip_ansi_unfold text).
  destruct text as [|c t]; [discriminate|]. rewrite H. reflexivity.
Qed.

Lemma strip_ansi_keep c t :
  match_sgr (c :: t) = None -> strip_ansi (c :: t) = c :: strip_ansi t.
Proof.
  intros H. rewrite (strip_ansi_unfold (c :: t)), H. reflexivity.
Qed.

Lemma strip_ansi_sgr m rest :
  is_sgr m -> strip_ansi (m ++ rest) = strip_ansi rest.
Proof.
  intros H. apply strip_ansi_skip, match_sgr_complete, H.
Qed.

Lemma strip_ansi_marker params rest :
  forallb is_param params = true ->
  strip_ansi (ESC :: 91 :: params ++ 109 :: rest) = strip_ansi rest.
Proof.
  intros H. apply strip_ansi_skip. simpl. apply match_params_app, H.
Qed.

Lemma match_sgr_not_esc c t : (c =? ESC) = false -> match_sgr (c :: t) = None.
Proof.
  intros H. destruct t as [|c1 t]; simpl; [reflexivity|]. rewrite H. reflexivity.
Qed.

Lemma strip_ansi_not_esc c t :
  (c =? ESC) = false -> strip_ansi (c :: t) = c :: strip_ansi t.
Proof.
  intros H. apply strip_ansi_keep, match_sgr_not_esc, H.
Qed.

(** A run of characters without ESC is copied as it is. *)
Lemma strip_ansi_span span rest :
  forallb (fun c => negb (c =? ESC)) span = true ->
  strip_ansi (span ++ rest) = span ++ strip_ansi rest.
Proof.
  induction span as [|c cs IH]; simpl; [reflexivity|].
  intros H. apply andb_true_iff in H as [Hc Hcs].
  apply negb_true_iff in Hc.
  rewrite strip_ansi_not_esc by exact Hc. rewrite IH by exact Hcs. reflexivity.
Qed.

Lemma strip_ansi_nil : strip_ansi [] = [].
Proof. reflexivity. Qed.

Lemma strip_ansi_plain span :
  forallb (fun c => negb (c =? ESC)) span = true -> strip_ansi span = span.
Proof.
  intros H. rewrite <- (app_nil_r span) at 1.
  rewrite strip_ansi_span by exact H. rewrite strip_ansi_nil. apply app_nil_r.
Qed.

(** *** Appending text that cannot complete a pending sequence *)

Lemma match_params_app_some t b rest :
  match_params t = Some rest -> match_params (t ++ b) = Some (rest ++ b).
Proof.
  revert rest. induction t as [|c t IH]; intros rest; simpl; [discriminate|].
  destruct (is_param c); [apply IH|].
  destruct (c =? 109); [|discriminate].
  intros H. injection H as <-. reflexivity.
Qed.

Lemma match_params_app_none t b :
  safe_head b = true -> match_params t = None -> match_params (t ++ b) = None.
Proof.
  intros Hb. induction t as [|c t IH]; simpl.
  - intros _. destruct b as [|c b]; [reflexivity|]. simpl in *.
    apply andb_true_iff in Hb as [Hb _]. apply andb_true_iff in Hb as [Hp Hm].
    apply negb_true_iff in Hp, Hm. rewrite Hp, Hm. reflexivity.
  - destruct (is_param c); [exact IH|].
    destruct (c =? 109); [discriminate | reflexivity].
Qed.

Lemma match_sgr_app_some a b rest :
  match_sgr a = Some rest -> match_sgr (a ++ b) = Some (rest ++ b).
Proof.
  destruct a as [|c0 [|c1 t]]; simpl; try discriminate.
  destruct ((c0 =? ESC) && (c1 =? 91)); [|discriminate].
  apply match_params_app_some.
Qed.

Lemma match_sgr_app_none c t b :
  safe_head b = true ->
  match_sgr (c :: t) = None -> match_sgr ((c :: t) ++ b) = None.
Proof.
  intros Hb. destruct t as [|c1 t]; simpl.
  - intros _. destruct b as [|c1 b]; [reflexivity|]. simpl in Hb.
    apply andb_true_iff in Hb as [_ Hb]. apply negb_true_iff in Hb.
    rewrite Hb, andb_false_r. reflexivity.
  - destruct ((c =? ESC) && (c1 =? 91)); [|reflexivity].
    apply match_params_app_none, Hb.
Qed.

Lemma strip_ansi_app_safe a b :
  safe_head b = true -> strip_ansi (a ++ b) = strip_ansi a ++ strip_ansi b.
Proof.
  intros Hb.
  remember (length a) as n eqn:Hn.
  revert a Hn. induction n as [n IH] using lt_wf_ind. intros a Hn.
  destruct a as [|c t]; [reflexivity|].
  destruct (match_sgr (c :: t)) as [rest|] eqn:Hm.
  - rewrite (strip_ansi_skip _ _ (match_sgr_app_some _ b _ Hm)).
    rewrite (strip_ansi_skip _ _ Hm).
    apply (IH (length rest)); [|reflexivity].
    subst n. apply match_sgr_shorter, Hm.
  - pose proof (match_sgr_app_none c t b Hb Hm) as Hm'.
    simpl app in *. rewrite (strip_ansi_keep _ _ Hm'), (strip_ansi_keep _ _ Hm).
    simpl. f_equal.
    apply (IH (length t)); [subst n; simpl; lia | reflexivity].
Qed.

(** Spaces appended to a line are counted one by one. *)
Lemma strip_ansi_spaces n : strip_ansi (str_mul (lit " ") n) = str_mul (lit " ") n.
Proof.
  apply strip_ansi_plain. unfold str_mul.
  induction (Z.to_nat n) as [|k IH]; simpl; [reflexivity | exact IH].
Qed.

Lemma safe_head_spaces n rest :
  safe_head rest = true -> safe_head (str_mul (lit " ") n ++ rest) = true.
Proof.
  intros H. unfold str_mul. destruct (Z.to_nat n); simpl; [exact H | reflexivity].
Qed.

Lemma len_app {A : Type} (l1 l2 : list A) : len (l1 ++ l2) = len l1 + len l2.
Proof. unfold len. rewrite length_app. lia. Qed.

Lemma len_spaces n : len (str_mul (lit " ") n) = Z.max n 0.
Proof.
  unfold len, str_mul. rewrite length_concat, map_repeat. simpl.
  induction (Z.to_nat n) as [|k IH] eqn:E in n |- *.
  - simpl. lia.
  - simpl. specialize (IH (Z.of_nat k)). rewrite Nat2Z.id in IH.
    specialize (IH eq_refl). lia.
Qed.

(** *** The styled-text reading of a raw string *)

Lemma strip_ansi_render s : wf s = true -> strip_ansi (render s) = plain s.
Proof.
  unfold wf, render, plain.
  induction s as [|g s IH]; simpl; [reflexivity|].
  intros H. apply andb_true_iff in H as [Hg Hs].
  destruct g as [span|params]; simpl in *.
  - rewrite strip_ansi_span by exact Hg. rewrite IH by exact Hs. reflexivity.
  - rewrite <- app_assoc. simpl.
    rewrite strip_ansi_marker by exact Hg. apply IH, Hs.
Qed.

(** *** What strip_ansi removes and what it keeps *)

Lemma removes_sgr_strip_ansi text : removes_sgr text (strip_ansi text).
Proof.
  remember (length text) as n eqn:Hn.
  revert text Hn. induction n as [n IH] using lt_wf_ind. intros text Hn.
  destruct text as [|c t]; [rewrite strip_ansi_nil; constructor|].
  destruct (match_sgr (c :: t)) as [rest|] eqn:Hm.
  - rewrite (strip_ansi_skip _ _ Hm).
    destruct (match_sgr_sound _ _ Hm) as (m & Hsgr & E). rewrite E.
    apply removes_skip; [exact Hsgr|].
    apply (IH (length rest)); [|reflexivity].
    subst n. apply match_sgr_shorter, Hm.
  - rewrite (strip_ansi_keep _ _ Hm). apply removes_keep.
    + intros m rest Hsgr E. rewrite E in Hm.
      rewrite (match_sgr_complete _ rest Hsgr) in Hm. discriminate.
    + apply (IH (length t)); [subst n; simpl; lia | reflexivity].
Qed.

Lemma removes_sgr_unique text out : removes_sgr text out -> out = strip_ansi text.
Proof.
  induction 1 as [|m rest out Hsgr _ IH|c t out Hno _ IH].
  - reflexivity.
  - rewrite strip_ansi_sgr by exact Hsgr. exact IH.
  - rewrite strip_ansi_keep; [rewrite IH; reflexivity|].
    destruct (match_sgr (c :: t)) as [rest|] eqn:Hm; [|reflexivity].
    destruct (match_sgr_sound _ _ Hm) as (m & Hsgr & E).
    exfalso. exact (Hno m rest Hsgr E).
Qed.

Lemma params_no_esc params :
  forallb is_param params = true ->
  forallb (fun c => negb (c =? ESC)) params = true.
Proof.
  induction params as [|c ps IH]; simpl; [reflexivity|].
  intros H. apply andb_true_iff in H as [Hc Hps].
  rewrite (is_param_not_esc _ Hc). simpl. apply IH, Hps.
Qed.

Lemma match_params_other params f rest :
  forallb is_param params = true -> is_param f = false -> f <> 109 ->
  match_params (params ++ f :: rest) = None.
Proof.
  intros Hps Hf Hm. induction params as [|c ps IH]; simpl.
  - rewrite Hf. apply Z.eqb_neq in Hm. rewrite Hm. reflexivity.
  - simpl in Hps. apply andb_true_iff in Hps as [Hc Hps]. rewrite Hc. apply IH, Hps.
Qed.

(** A control sequence that ends in another final character stays. *)
Lemma strip_ansi_other_csi params f rest :
  forallb is_param params = true -> is_param f = false -> f <> 109 ->
  strip_ansi (ESC :: 91 :: params ++ f :: rest)
  = ESC :: 91 :: params ++ strip_ansi (f :: rest).
Proof.
  intros Hps Hf Hm.
  rewrite strip_ansi_keep
    by (simpl; apply match_params_other; assumption).
  rewrite strip_ansi_not_esc by reflexivity.
  rewrite strip_ansi_span by (apply params_no_esc, Hps). reflexivity.
Qed.

(** C10: strip_ansi removes exactly the substrings matching
    ESC '[' (digits or semicolons) 'm', read from the left: its result is
    the one output related to the input by [removes_sgr].  Everything else
    is kept and so counts towards the visible width: a control sequence
    with another final character (cursor movement, erase) is kept whole,
    and so is an ESC that is not followed by '['. *)
Theorem strip_ansi_removes_exactly_sgr (text params : pystr) (f : Z) (rest : pystr) :
  forallb is_param params = true -> is_param f = false -> f <> 109 ->
  (removes_sgr text (strip_ansi text)
   /\ forall out, removes_sgr text out -> out = strip_ansi text)
  /\ strip_ansi (ESC :: 91 :: params ++ 109 :: rest) = strip_ansi rest
  /\ strip_ansi (ESC :: 91 :: params ++ f :: rest)
     = ESC :: 91 :: params ++ strip_ansi (f :: rest)
  /\ visible_len (ESC :: 91 :: params ++ [f]) = len params + 3
  /\ (f <> 91 -> strip_ansi (ESC :: f :: rest) = ESC :: strip_ansi (f :: rest))
  /\ strip_ansi [ESC] = [ESC].
Proof.
  intros Hps Hf Hm. repeat split.
  - apply removes_sgr_strip_ansi.
  - apply removes_sgr_unique.
  - apply strip_ansi_marker, Hps.
  - apply strip_ansi_other_csi; assumption.
  - unfold visible_len. rewrite strip_ansi_other_csi by assumption.
    rewrite (strip_ansi_keep f []) by reflexivity. rewrite strip_ansi_nil.
    unfold len. simpl. rewrite length_app. simpl. lia.
  - intros H91. apply strip_ansi_keep. simpl.
    apply Z.eqb_neq in H91. rewrite H91. reflexivity.
Qed.

(** The cursor-movement sequence ESC "[10;5H" inside "ab...cd": all six
    characters of the sequence stay, the SGR reset after it goes. *)
Lemma strip_ansi_removes_exactly_sgr_witness :
  forallb is_param (lit "10;5") = true /\ is_param 72 = false /\ 72 <> 109
  /\ strip_ansi (ESC :: 91 :: lit "10;5" ++ 72 :: C_RESET ++ lit "cd")
     = ESC :: 91 :: lit "10;5" ++ 72 :: lit "cd"
  /\ visible_len (ESC :: 91 :: lit "10;5" ++ [72]) = 7.
Proof.
  assert (Hps : forallb is_param (lit "10;5") = true) by reflexivity.
  assert (Hf : is_param 72 = false) by reflexivity.
  assert (Hm : 72 <> 109) by discriminate.
  split; [exact Hps|]. split; [exact Hf|]. split; [exact Hm|]. split.
  - destruct (strip_ansi_removes_exactly_sgr (lit "ab") (lit "10;5") 72
                (C_RESET ++ lit "cd") Hps Hf Hm) as (_ & _ & H & _).
    rewrite H. reflexivity.
  - destruct (strip_ansi_removes_exactly_sgr (lit "ab") (lit "10;5") 72
                [] Hps Hf Hm) as (_ & _ & _ & H & _).
    exact H.
Defined.

(** C6: visibleWidth depends on the visible content only.  Two styled
    texts with the same visible spans, whatever markers are inserted or
    removed between them, have the same width; that width is the number of
    visible characters, it is never negative, and it is 0 for the empty
    text.  The function is pure: the same input gives the same output and
    the input is not changed. *)
Theorem visibleWidth_marker_invariant (s s' : styled_text) :
  wf s = true -> wf s' = true -> plain s = plain s' ->
  visibleWidth s = visibleWidth s'
  /\ visibleWidth s = len (plain s)
  /\ 0 <= visibleWidth s
  /\ visibleWidth [] = 0.
Proof.
  intros Hs Hs' Hp. unfold visibleWidth, visible_len.
  rewrite !strip_ansi_render by assumption. rewrite Hp.
  repeat split. unfold len. lia.
Qed.

Lemma visibleWidth_marker_invariant_witness :
  let s := [Visible (lit "ab"); Marker (lit "0")] in
  let s' := [Marker (lit "1;91"); Visible (lit "a"); Marker [];
             Visible (lit "b"); Marker (lit "0")] in
  wf s = true /\ wf s' = true /\ plain s = plain s'
  /\ visibleWidth s = visibleWidth s' /\ visibleWidth s = 2.
Proof.
  intros s s'.
  assert (Hs : wf s = true) by reflexivity.
  assert (Hs' : wf s' = true) by reflexivity.
  assert (Hp : plain s = plain s') by reflexivity.
  destruct (visibleWidth_marker_invariant s s' Hs Hs' Hp) as (H1 & H2 & _).
  split; [exact Hs|]. split; [exact Hs'|]. split; [exact Hp|].
  split; [exact H1 | exact H2].
Defined.

(** Why visible spans must not hold ESC: the scan is a single pass.  A
    marker placed inside the characters ESC "[0m" is removed and leaves
    those characters behind, and what is left is not stripped again. *)
Remark strip_ansi_single_pass :
  strip_ansi (ESC :: lit "[" ++ C_RESET ++ lit "0m") = C_RESET
  /\ visible_len (ESC :: lit "[" ++ C_RESET ++ lit "0m") = 4
  /\ visible_len (ESC :: lit "[0m") = 0.
Proof. repeat split. Qed.

(* ===================================================================== *)
(** ** draw_box *)
(* ===================================================================== *)

Lemma fold_left_max_spec rest x :
  (forall y, In y (x :: rest) -> y <= fold_left Z.max rest x)
  /\ In (fold_left Z.max rest x) (x :: rest).
Proof.
  revert x. induction rest as [|z rest IH]; intros x; simpl.
  - split; [intros y [<-|[]]; lia | left; reflexivity].
  - destruct (IH (Z.max x z)) as [Hle Hin]. split.
    + pose proof (Hle (Z.max x z) (or_introl eq_refl)) as Hxz.
      intros y [E|[E|Hy]]; [lia | lia |].
      apply Hle. right. exact Hy.
    + destruct Hin as [E|Hin]; [|right; right; exact Hin].
      rewrite <- E. destruct (Z.max_spec x z) as [[_ ->]|[_ ->]]; auto.
Qed.

Lemma py_max_spec xs :
  xs <> [] ->
  exists m, py_max xs = Ok m /\ (forall y, In y xs -> y <= m) /\ In m xs.
Proof.
  destruct xs as [|x rest]; [congruence|]. intros _.
  exists (fold_left Z.max rest x). split; [reflexivity|].
  apply fold_left_max_spec.
Qed.

Lemma is_sgr_head m : is_sgr m -> exists t, m = ESC :: t.
Proof. intros (ps & _ & ->). eexists. reflexivity. Qed.

Lemma is_sgr_C_RESET : is_sgr C_RESET.
Proof. exists (lit "0"). split; reflexivity. Qed.

(** The right end of a box row: padding, the coloured border, reset. *)
Lemma strip_ansi_row_tail n color :
  is_sgr color ->
  strip_ansi (str_mul (lit " ") n ++ color ++ BOX_V ++ C_RESET)
  = str_mul (lit " ") n ++ BOX_V
  /\ safe_head (str_mul (lit " ") n ++ color ++ BOX_V ++ C_RESET) = true.
Proof.
  intros Hc. split.
  - rewrite strip_ansi_app_safe.
    + rewrite strip_ansi_spaces. f_equal.
      rewrite strip_ansi_sgr by exact Hc. reflexivity.
    + destruct (is_sgr_head _ Hc) as (t & ->). reflexivity.
  - apply safe_head_spaces.
    destruct (is_sgr_head _ Hc) as (t & ->). reflexivity.
Qed.

Lemma visible_len_box_row width color line :
  is_sgr color ->
  visible_len (box_row width color line)
  = visible_len line + Z.max (width - visible_len line) 0 + 6.
Proof.
  intros Hc. unfold visible_len, box_row.
  destruct (strip_ansi_row_tail (width - len (strip_ansi line)) color Hc)
    as [Htail Hsafe].
  rewrite (strip_ansi_span (lit "    ")) by reflexivity.
  rewrite strip_ansi_sgr by exact Hc.
  rewrite (strip_ansi_span BOX_V) by reflexivity.
  rewrite strip_ansi_sgr by exact is_sgr_C_RESET.
  rewrite strip_ansi_app_safe by exact Hsafe.
  rewrite Htail.
  rewrite !len_app, len_spaces.
  change (len (lit "    ")) with 4. change (len BOX_V) with 1. lia.
Qed.

Lemma visible_len_padded line n :
  visible_len (line ++ str_mul (lit " ") n) = visible_len line + Z.max n 0.
Proof.
  unfold visible_len.
  rewrite strip_ansi_app_safe.
  - rewrite strip_ansi_spaces, len_app, len_spaces. reflexivity.
  - rewrite <- (app_nil_r (str_mul _ _)). apply safe_head_spaces. reflexivity.
Qed.

Lemma str_mul_nonpos s n : n <= 0 -> str_mul s n = [].
Proof.
  intros H. unfold str_mul. replace (Z.to_nat n) with 0%nat by lia. reflexivity.
Qed.

(** C2, as the code has it: draw_box succeeds whenever the list of lines
    is not empty or a width is given.  With the width omitted the resolved
    width is the largest visible line width plus 2; with an explicit width
    an empty list gives just the two borders.  With the width omitted and
    no lines, [max] of the empty sequence raises ValueError. *)
Theorem draw_box_succeeds_unless_empty_auto
    (content_lines : list pystr) (width : option Z) (color : pystr) :
  (content_lines <> [] \/ width <> None ->
   exists w,
     resolve_width content_lines width = Ok w
     /\ draw_box content_lines width color
        = Ok ([box_top w color] ++ map (box_row w color) content_lines
                ++ [box_bottom w color])
     /\ (width = None ->
         (forall line, In line content_lines -> visible_len line + 2 <= w)
         /\ exists line, In line content_lines /\ w = visible_len line + 2)
     /\ (forall w0, width = Some w0 -> w = w0))
  /\ (forall w0, draw_box [] (Some w0) color
                 = Ok [box_top w0 color; box_bottom w0 color])
  /\ draw_box [] None color = Raise ValueError.
Proof.
  split; [|split; reflexivity].
  intros H. destruct width as [w0|].
  - exists w0. repeat split; try discriminate. intros w1 E. congruence.
  - destruct H as [H|H]; [|congruence].
    destruct (py_max_spec (map (fun line => len (strip_ansi line)) content_lines))
      as (m & Hm & Hle & Hin).
    { destruct content_lines; [congruence | discriminate]. }
    exists (m + 2). unfold draw_box, resolve_width. rewrite Hm. simpl.
    repeat split; try discriminate.
    + intros line Hl. unfold visible_len.
      specialize (Hle (len (strip_ansi line))
                    (in_map (fun line => len (strip_ansi line)) _ _ Hl)). lia.
    + apply in_map_iff in Hin as (line & E & Hl).
      exists line. split; [exact Hl|]. unfold visible_len. lia.
Qed.

Lemma draw_box_succeeds_unless_empty_auto_witness :
  ([lit "ab"; C_RED ++ lit "abcd" ++ C_RESET] <> [] \/ @None Z <> None)
  /\ exists w,
       draw_box [lit "ab"; C_RED ++ lit "abcd" ++ C_RESET] None C_CYAN
       = Ok ([box_top w C_CYAN]
               ++ map (box_row w C_CYAN) [lit "ab"; C_RED ++ lit "abcd" ++ C_RESET]
               ++ [box_bottom w C_CYAN]).
Proof.
  assert (H : [lit "ab"; C_RED ++ lit "abcd" ++ C_RESET] <> [] \/ @None Z <> None)
    by (left; discriminate).
  split; [exact H|].
  destruct (draw_box_succeeds_unless_empty_auto
              [lit "ab"; C_RED ++ lit "abcd" ++ C_RESET] None C_CYAN)
    as [Hok _].
  destruct (Hok H) as (w & _ & Hdraw & _).
  exists w. exact Hdraw.
Defined.

(** C2 as stated fails: with no lines and the width omitted the call
    raises instead of drawing a box of width 2. *)
Lemma draw_box_empty_auto_raises :
  draw_box [] None C_CYAN = Raise ValueError
  /\ draw_box [] None C_CYAN <> Ok [box_top 2 C_CYAN; box_bottom 2 C_CYAN]
  /\ ~ exists out, draw_box [] None C_CYAN = Ok out.
Proof.
  split; [reflexivity|]. split; [discriminate|].
  intros [out H]. discriminate H.
Qed.

(** C7: when no line is wider than the resolved width, every content row
    is the line followed by [width - visible] plain spaces between the two
    borders, the padding is not negative, and the padded line measures
    exactly the box width; with an SGR sequence as border colour every
    printed row measures the box width plus the indent and the two border
    glyphs.  A line wider than the box gets no padding and is printed
    whole. *)
Theorem draw_box_rows_fill_width
    (content_lines : list pystr) (width : option Z) (color : pystr) (w : Z) :
  resolve_width content_lines width = Ok w ->
  (forall line, In line content_lines -> visible_len line <= w) ->
  draw_box content_lines width color
  = Ok ([box_top w color] ++ map (box_row w color) content_lines
          ++ [box_bottom w color])
  /\ (forall line, In line content_lines ->
        let padding := w - visible_len line in
        0 <= padding
        /\ box_row w color line
           = lit "    " ++ color ++ BOX_V ++ C_RESET
               ++ (line ++ repeat 32 (Z.to_nat padding))
               ++ color ++ BOX_V ++ C_RESET
        /\ visible_len (line ++ repeat 32 (Z.to_nat padding)) = w
        /\ (is_sgr color -> visible_len (box_row w color line) = w + 6))
  /\ (forall line, w < visible_len line ->
        box_row w color line
        = lit "    " ++ color ++ BOX_V ++ C_RESET ++ line
            ++ color ++ BOX_V ++ C_RESET).
Proof.
  intros Hw Hfit. split; [|split].
  - unfold draw_box. rewrite Hw. reflexivity.
  - intros line Hl padding. specialize (Hfit line Hl).
    assert (Hsp : forall n, repeat 32 (Z.to_nat n) = str_mul (lit " ") n).
    { intros n. unfold str_mul. induction (Z.to_nat n) as [|k IH]; simpl;
        [reflexivity | rewrite IH; reflexivity]. }
    split; [unfold padding; lia|]. split; [|split].
    + unfold box_row. rewrite Hsp, <- app_assoc. reflexivity.
    + rewrite Hsp, visible_len_padded. unfold padding. lia.
    + intros Hc. rewrite visible_len_box_row by exact Hc. lia.
  - intros line Hwide. unfold box_row.
    rewrite str_mul_nonpos by (unfold visible_len in Hwide; lia). reflexivity.
Qed.

Lemma draw_box_rows_fill_width_witness :
  let content_lines := [lit "ab"; C_RED ++ lit "abcd" ++ C_RESET] in
  resolve_width content_lines None = Ok 6
  /\ is_sgr C_CYAN
  /\ (forall line, In line content_lines -> visible_len line <= 6)
  /\ (forall line, In line content_lines ->
        visible_len (line ++ repeat 32 (Z.to_nat (6 - visible_len line))) = 6
        /\ visible_len (box_row 6 C_CYAN line) = 12).
Proof.
  intros content_lines.
  assert (Hw : resolve_width content_lines None = Ok 6) by reflexivity.
  assert (Hc : is_sgr C_CYAN) by (exists (lit "96"); split; reflexivity).
  assert (Hfit : forall line, In line content_lines -> visible_len line <= 6).
  { intros line [<-|[<-|[]]]; vm_compute; discriminate. }
  destruct (draw_box_rows_fill_width content_lines None C_CYAN 6 Hw Hfit)
    as (_ & Hrows & _).
  split; [exact Hw|]. split; [exact Hc|]. split; [exact Hfit|].
  intros line Hl. destruct (Hrows line Hl) as (_ & _ & H1 & H2).
  split; [exact H1 | exact (H2 Hc)].
Defined.

(* ===================================================================== *)
(** ** draw_buckets *)
(* ===================================================================== *)

Lemma repeat_space n : repeat 32 (Z.to_nat n) = str_mul (lit " ") n.
Proof.
  unfold str_mul. induction (Z.to_nat n) as [|k IH]; simpl;
    [reflexivity | rewrite IH; reflexivity].
Qed.

(** Where the row of bucket [start + i] lands among the printed lines of
    the loop: every iteration but the last prints a row and a separator. *)
Lemma nth_bucket_iterations buckets highlight_idx tl :
  forall count start i,
    (start + count = length buckets)%nat -> (i < count)%nat ->
    nth (2 * i)
      (flat_map (bucket_iteration buckets highlight_idx) (seq start count) ++ tl) []
    = bucket_row (start + i) (nth (start + i) buckets []) highlight_idx.
Proof.
  induction count as [|count IH]; intros start i Hlen Hi; [lia|].
  simpl seq. simpl flat_map. unfold bucket_iteration at 1.
  destruct i as [|i].
  - simpl. rewrite Nat.add_0_r. reflexivity.
  - replace (Z.of_nat start <? len buckets - 1) with true
      by (symmetry; apply Z.ltb_lt; unfold len; lia).
    replace (2 * S i)%nat with (S (S (2 * i))) by lia.
    cbn [app nth].
    replace (start + S i)%nat with (S start + i)%nat by lia.
    apply (IH (S start) i); lia.
Qed.

Lemma visible_len_content_cell bucket :
  visible_len (items_str bucket) <= content_w - 1 ->
  visible_len (content_cell bucket) = content_w.
Proof.
  intros H. unfold content_cell.
  change (lit " " ++ ?x) with (32 :: x).
  unfold visible_len in *. rewrite strip_ansi_not_esc by reflexivity.
  change (len (32 :: ?x)) with (len (lit " " ++ x)).
  pose proof (visible_len_padded (items_str bucket)
                (Z.max (content_w - len (strip_ansi (items_str bucket)) - 1) 0)) as E.
  unfold visible_len in E.
  rewrite len_app, E. change (len (lit " ")) with 1. lia.
Qed.

(** [", ".join(items)] is the comma-joined item list. *)
Lemma join_comma_joined (items : list pystr) :
  join (lit ", ") items = comma_joined items.
Proof.
  destruct items as [|first rest]; [reflexivity|]. cbn [comma_joined].
  revert first. induction rest as [|item rest IH]; intros first.
  - cbn [join flat_map]. rewrite app_nil_r. reflexivity.
  - change (join (lit ", ") (first :: item :: rest))
      with (first ++ lit ", " ++ join (lit ", ") (item :: rest)).
    rewrite IH. cbn [flat_map]. rewrite <- app_assoc. reflexivity.
Qed.

(** C8: in the table [draw_buckets] prints, the row of bucket [i] is line
    [1 + 2 * i].  When the bucket is empty its content cell is a space, the
    dimmed word "empty" and 38 spaces, 44 visible columns in all (the
    content column width).  When the bucket is not empty the cell is a
    space, the comma-joined item list (the first item, then each further
    item after a comma and a space) and the padding, 44 visible columns in
    all whenever the list fits. *)
Theorem draw_buckets_content_cell
    (buckets : list (list pystr)) (highlight_idx : option Z) (i : nat) :
  (i < length buckets)%nat ->
  let bucket := nth i buckets [] in
  nth (1 + 2 * i) (draw_buckets buckets highlight_idx) []
  = lit "    " ++ C_CYAN ++ BOX_V ++ C_RESET
      ++ idx_str i bucket highlight_idx
      ++ C_CYAN ++ BOX_V ++ C_RESET
      ++ content_cell bucket
      ++ C_CYAN ++ BOX_V ++ C_RESET
  /\ (bucket = [] ->
      content_cell bucket
      = lit " " ++ C_DIM ++ lit "empty" ++ C_RESET ++ repeat 32 38
      /\ visible_len (content_cell bucket) = content_w)
  /\ (bucket <> [] ->
      content_cell bucket
      = lit " " ++ comma_joined bucket
          ++ repeat 32
               (Z.to_nat (content_w - 1 - visible_len (comma_joined bucket)))
      /\ (visible_len (comma_joined bucket) <= content_w - 1 ->
          visible_len (content_cell bucket) = content_w)).
Proof.
  intros Hi bucket. split; [|split].
  - unfold draw_buckets. cbn [app nth Nat.add].
    rewrite (nth_bucket_iterations buckets highlight_idx _ (length buckets) 0%nat i)
      by lia.
    reflexivity.
  - intros E. rewrite E. split; reflexivity.
  - intros Hne.
    assert (Hitems : items_str bucket = comma_joined bucket).
    { unfold items_str. rewrite <- join_comma_joined.
      destruct bucket; [congruence | reflexivity]. }
    split.
    + unfold content_cell. rewrite Hitems, repeat_space.
      do 2 f_equal. unfold str_mul, visible_len. f_equal. f_equal. lia.
    + intros Hfit. apply visible_len_content_cell. rewrite Hitems. exact Hfit.
Qed.

(** A table of four buckets: row 3 is empty, row 0 holds "cat" and "act". *)
Lemma draw_buckets_content_cell_witness :
  let buckets : list (list pystr) := [[lit "cat"; lit "act"]; []; []; []] in
  (3 < length buckets)%nat
  /\ nth 7 (draw_buckets buckets None) []
     = lit "    " ++ C_CYAN ++ BOX_V ++ C_RESET
         ++ (C_CYAN ++ C_BOLD ++ lit "  3  " ++ C_RESET)
         ++ C_CYAN ++ BOX_V ++ C_RESET
         ++ (lit " " ++ C_DIM ++ lit "empty" ++ C_RESET ++ repeat 32 38)
         ++ C_CYAN ++ BOX_V ++ C_RESET
  /\ visible_len (content_cell (nth 3 buckets [])) = 44
  /\ (0 < length buckets)%nat
  /\ nth 0 buckets [] <> []
  /\ visible_len (comma_joined (nth 0 buckets [])) <= content_w - 1
  /\ nth 1 (draw_buckets buckets None) []
     = lit "    " ++ C_CYAN ++ BOX_V ++ C_RESET
         ++ (C_CYAN ++ C_BOLD ++ lit "  0  " ++ C_RESET)
         ++ C_CYAN ++ BOX_V ++ C_RESET
         ++ (lit " cat, act" ++ repeat 32 35)
         ++ C_CYAN ++ BOX_V ++ C_RESET
  /\ visible_len (content_cell (nth 0 buckets [])) = 44.
Proof.
  intros buckets.
  assert (Hi : (3 < length buckets)%nat) by (simpl; lia).
  assert (H0 : (0 < length buckets)%nat) by (simpl; lia).
  assert (Hne : nth 0 buckets [] <> []) by discriminate.
  assert (Hfit : visible_len (comma_joined (nth 0 buckets [])) <= content_w - 1)
    by (vm_compute; discriminate).
  destruct (draw_buckets_content_cell buckets None 3 Hi) as (Hrow & Hempty & _).
  destruct (draw_buckets_content_cell buckets None 0 H0) as (Hrow0 & _ & Hitems).
  destruct (Hempty eq_refl) as [_ Hw].
  destruct (Hitems Hne) as [Hcell Hw0].
  split; [exact Hi|]. split; [exact Hrow|]. split; [exact Hw|].
  split; [exact H0|]. split; [exact Hne|]. split; [exact Hfit|].
  split; [|exact (Hw0 Hfit)].
  etransitivity; [exact Hrow0|]. rewrite Hcell. reflexivity.
Defined.

(* ===================================================================== *)
(** ** toy_hash *)
(* ===================================================================== *)

Lemma fold_left_add_acc xs acc : fold_left Z.add xs acc = acc + fold_right Z.add 0 xs.
Proof.
  revert acc. induction xs as [|x xs IH]; intros acc; simpl; [lia|].
  rewrite IH. lia.
Qed.

Lemma py_sum_fold_right xs : py_sum xs = fold_right Z.add 0 xs.
Proof. unfold py_sum. rewrite fold_left_add_acc. lia. Qed.

Lemma map_ord text : map ord text = text.
Proof. induction text as [|c t IH]; simpl; [|rewrite IH]; reflexivity. Qed.

(** C9: for [num_buckets >= 1], [toy_hash] returns the sum of the code
    points of the text modulo [num_buckets], a value in
    [0 <= r < num_buckets]; being a function of its two arguments, it gives
    the same output on the same input. *)
Theorem toy_hash_sum_mod (text : pystr) (num_buckets : Z) :
  1 <= num_buckets ->
  toy_hash text num_buckets = Ok (sum_code_points text mod num_buckets)
  /\ 0 <= sum_code_points text mod num_buckets < num_buckets.
Proof.
  intros H. split.
  - unfold toy_hash. replace (num_buckets =? 0) with false by lia.
    rewrite py_sum_fold_right, map_ord. reflexivity.
  - apply Z.mod_pos_bound. lia.
Qed.

(** The docstring's example: "Cat" with 8 buckets is 280 mod 8 = 0. *)
Lemma toy_hash_sum_mod_witness :
  1 <= 8
  /\ sum_code_points (lit "Cat") = 280
  /\ toy_hash (lit "Cat") 8 = Ok 0.
Proof.
  assert (H : 1 <= 8) by lia.
  split; [exact H|]. split; [reflexivity|].
  destruct (toy_hash_sum_mod (lit "Cat") 8 H) as [E _]. exact E.
Defined.

(* ===================================================================== *)
(** ** The diff views of avalanche.py *)
(* ===================================================================== *)

Lemma py_sum_ones {A : Type} (l : list A) : py_sum (map (fun _ => 1) l) = len l.
Proof.
  rewrite py_sum_fold_right. unfold len.
  induction l as [|x l IH]; cbn [map fold_right length]; [reflexivity|].
  rewrite IH. lia.
Qed.

Lemma count_diffs_length xs ys :
  count_diffs xs ys
  = len (filter (fun p => negb (fst p =? snd p)) (combine xs ys)).
Proof. unfold count_diffs. apply py_sum_ones. Qed.

Lemma length_filter_map_S (p : nat -> bool) l :
  length (filter p (map S l)) = length (filter (fun i => p (S i)) l).
Proof.
  induction l as [|x l IH]; simpl; [reflexivity|].
  destruct (p (S x)); simpl; rewrite IH; reflexivity.
Qed.

(** For sequences of one length, counting over [zip] is counting
    positions. *)
Lemma count_diffs_positions a b :
  length a = length b -> count_diffs a b = len (mismatch_positions a b).
Proof.
  rewrite count_diffs_length. unfold len, mismatch_positions. intros Hlen. f_equal.
  revert b Hlen. induction a as [|x a IH]; intros [|y b] Hlen;
    try discriminate; [reflexivity|].
  injection Hlen as Hlen.
  cbn [length seq]. rewrite <- seq_shift.
  cbn [combine filter fst snd nth].
  destruct (negb (x =? y)); cbn [length];
    rewrite length_filter_map_S; cbn [nth]; rewrite (IH b Hlen); reflexivity.
Qed.

Lemma count_diffs_same a : count_diffs a a = 0.
Proof.
  rewrite count_diffs_length. unfold len.
  induction a as [|x a IH]; simpl; [reflexivity|].
  rewrite Z.eqb_refl. simpl. exact IH.
Qed.

Lemma hex_loop_from l hex_diff0 hex_diffs0 :
  fold_left
    (fun st p =>
       let '(hex_diff, hex_diffs) := st in
       if fst p =? snd p
       then (hex_diff ++ C_DIM ++ MIDDLE_DOT ++ C_RESET, hex_diffs)
       else (hex_diff ++ C_RED ++ lit "^" ++ C_RESET, hex_diffs + 1))
    l (hex_diff0, hex_diffs0)
  = (hex_diff0 ++ concat (map hex_marker l),
     hex_diffs0 + len (filter (fun p => negb (fst p =? snd p)) l)).
Proof.
  revert hex_diff0 hex_diffs0.
  induction l as [|p l IH]; intros d n; cbn [fold_left map concat filter].
  - rewrite app_nil_r. f_equal. unfold len. simpl. lia.
  - unfold hex_marker at 1. destruct (fst p =? snd p); cbn [negb];
      rewrite IH; rewrite <- app_assoc; f_equal.
    unfold len. cbn [length]. lia.
Qed.

Lemma hex_loop_spec h_a h_b :
  hex_loop h_a h_b
  = (concat (map hex_marker (combine h_a h_b)), count_diffs h_a h_b).
Proof.
  unfold hex_loop. rewrite hex_loop_from, count_diffs_length. reflexivity.
Qed.

Lemma hex_markers_same a :
  concat (map hex_marker (combine a a))
  = concat (repeat (C_DIM ++ MIDDLE_DOT ++ C_RESET) (length a)).
Proof.
  induction a as [|x a IH]; [reflexivity|].
  cbn [combine map concat length repeat]. rewrite IH.
  unfold hex_marker. cbn [fst snd]. rewrite Z.eqb_refl. reflexivity.
Qed.

Lemma dots_no_caret k :
  ~ In 94 (concat (repeat (C_DIM ++ MIDDLE_DOT ++ C_RESET) k)).
Proof.
  induction k as [|k IH]; simpl; [tauto|].
  intros [H|[H|[H|[H|[H|[H|[H|[H|[H|H]]]]]]]]]; try discriminate H.
  exact (IH H).
Qed.

(** C5: for two sequences of one length, the hex view's [hex_diffs] and
    the bit view's [bit_diffs_total] are the number of positions at which
    they differ.  For two identical sequences both counts are 0 and the hex
    marker line is one dim dot per position, with no caret. *)
Theorem diff_counts_mismatch_positions (a b : pystr) :
  length a = length b ->
  hex_diffs a b = len (mismatch_positions a b)
  /\ bit_diffs_total a b = len (mismatch_positions a b)
  /\ hex_diffs a a = 0
  /\ bit_diffs_total a a = 0
  /\ hex_diff a a = concat (repeat (C_DIM ++ MIDDLE_DOT ++ C_RESET) (length a))
  /\ ~ In 94 (hex_diff a a).
Proof.
  intros Hlen. unfold hex_diffs, hex_diff, bit_diffs_total.
  rewrite !hex_loop_spec. cbn [fst snd].
  rewrite count_diffs_same, hex_markers_same.
  repeat split; try (apply count_diffs_positions, Hlen).
  apply dots_no_caret.
Qed.

(** Two 64-digit digests: equal ones, and ones that differ in two digits. *)
Lemma diff_counts_mismatch_positions_witness :
  let h_a := repeat 97 64 in
  let h_b := repeat 97 10 ++ [98] ++ repeat 97 52 ++ [48] in
  length h_a = length h_b
  /\ hex_diffs h_a h_b = 2
  /\ mismatch_positions h_a h_b = [10; 63]%nat
  /\ hex_diffs h_a h_a = 0.
Proof.
  intros h_a h_b.
  assert (Hlen : length h_a = length h_b) by reflexivity.
  destruct (diff_counts_mismatch_positions h_a h_b Hlen) as (H1 & _ & H3 & _).
  split; [exact Hlen|]. split; [rewrite H1; reflexivity|].
  split; [reflexivity | exact H3].
Defined.

(** *** The binary view: what is drawn and what is counted *)

Lemma index_firstn n s i : (i < n)%nat -> index (firstn n s) i = index s i.
Proof.
  intros H. unfold index. rewrite nth_error_firstn.
  replace (i <? n)%nat with true by (symmetry; apply Nat.ltb_lt; exact H).
  reflexivity.
Qed.

Lemma index_ok s i : (i < length s)%nat -> exists c, index s i = Ok c.
Proof.
  intros H. unfold index. destruct (nth_error s i) as [c|] eqn:E.
  - exists c. reflexivity.
  - apply nth_error_None in E. lia.
Qed.

Lemma bit_iteration_firstn n show_bits b_a b_b st i :
  (i < n)%nat ->
  bit_iteration show_bits (firstn n b_a) (firstn n b_b) st i
  = bit_iteration show_bits b_a b_b st i.
Proof.
  intros H. unfold bit_iteration. rewrite !index_firstn by exact H. reflexivity.
Qed.

(** The display loop reads only the positions it is asked to draw. *)
Lemma bit_loop_firstn n show_bits b_a b_b indices :
  Forall (fun i => (i < n)%nat) indices ->
  forall st,
    bit_loop show_bits (firstn n b_a) (firstn n b_b) indices st
    = bit_loop show_bits b_a b_b indices st.
Proof.
  induction 1 as [|i indices Hi _ IH]; intros st; simpl; [reflexivity|].
  rewrite bit_iteration_firstn by exact Hi.
  destruct (bit_iteration show_bits b_a b_b st i); simpl; [apply IH | reflexivity].
Qed.

Lemma bit_loop_ok show_bits b_a b_b indices :
  Forall (fun i => (i < length b_a)%nat /\ (i < length b_b)%nat) indices ->
  forall st, exists lines, bit_loop show_bits b_a b_b indices st = Ok lines.
Proof.
  induction 1 as [|i indices [Ha Hb] _ IH]; intros st; simpl.
  - exists st. reflexivity.
  - unfold bit_iteration.
    destruct (index_ok _ _ Ha) as (ca & ->). destruct (index_ok _ _ Hb) as (cb & ->).
    simpl. apply IH.
Qed.

Lemma Forall_seq_lt n m : (n <= m)%nat -> Forall (fun i => (i < m)%nat) (seq 0 n).
Proof.
  intros H. apply Forall_forall. intros i Hi. apply in_seq in Hi. lia.
Qed.

(** C4: for two 256-bit strings, whatever number of leading positions the
    view draws (64 in [run]), the summary line reports the number of
    differing positions among all 256, "of 256 total bits"; the three drawn
    lines depend on the drawn prefix only.  The count is taken over the
    whole strings before the display loop and the loop never touches it. *)
Theorem bit_summary_over_full_sequence (b_a b_b : pystr) (show_bits : nat) :
  length b_a = 256%nat -> length b_b = 256%nat -> (show_bits <= 256)%nat ->
  bit_diffs_total b_a b_b = len (mismatch_positions b_a b_b)
  /\ (exists lines,
        bit_loop show_bits b_a b_b (seq 0 show_bits) no_lines = Ok lines
        /\ binary_view show_bits b_a b_b
           = Ok (lines, bit_summary (len (mismatch_positions b_a b_b))))
  /\ bit_summary (len (mismatch_positions b_a b_b))
     = info (str_of_nat (length (mismatch_positions b_a b_b))
               ++ lit " of 256 total bits flipped ("
               ++ fmt_0f (inject_Z (len (mismatch_positions b_a b_b)) / 256 * 100)%Q
               ++ lit "%).")
  /\ (forall b_a' b_b',
        firstn show_bits b_a' = firstn show_bits b_a ->
        firstn show_bits b_b' = firstn show_bits b_b ->
        bit_loop show_bits b_a' b_b' (seq 0 show_bits) no_lines
        = bit_loop show_bits b_a b_b (seq 0 show_bits) no_lines).
Proof.
  intros Ha Hb Hshow.
  assert (Hcount : bit_diffs_total b_a b_b = len (mismatch_positions b_a b_b)).
  { unfold bit_diffs_total. apply count_diffs_positions. congruence. }
  split; [exact Hcount|]. split; [|split].
  - unfold binary_view. rewrite Hcount.
    destruct (bit_loop_ok show_bits b_a b_b (seq 0 show_bits)) with (st := no_lines)
      as (lines & Hl).
    { apply Forall_forall. intros i Hi. apply in_seq in Hi. lia. }
    exists lines. split; [exact Hl|].
    unfold no_lines in Hl. rewrite Hl. reflexivity.
  - unfold bit_summary, pct, len. rewrite Nat2Z.id. reflexivity.
  - intros b_a' b_b' Ea Eb.
    rewrite <- (bit_loop_firstn show_bits show_bits b_a' b_b')
      by (apply Forall_seq_lt; lia).
    rewrite <- (bit_loop_firstn show_bits show_bits b_a b_b)
      by (apply Forall_seq_lt; lia).
    rewrite Ea, Eb. reflexivity.
Qed.

(** Two 256-bit strings that agree on the first 126 bits and differ on the
    last 130: the summary reads "130 of 256 total bits flipped (51%)." while
    the 64 drawn positions all match. *)
Lemma bit_summary_over_full_sequence_witness :
  let b_a := repeat 48 256 in
  let b_b := repeat 48 126 ++ repeat 49 130 in
  length b_a = 256%nat /\ length b_b = 256%nat /\ (SHOW_BITS <= 256)%nat
  /\ bit_diffs_total b_a b_b = 130
  /\ exists lines,
       binary_view SHOW_BITS b_a b_b
       = Ok (lines, info (lit "130 of 256 total bits flipped (51%)."))
       /\ bit_loop SHOW_BITS b_a b_a (seq 0 SHOW_BITS) no_lines = Ok lines.
Proof.
  intros b_a b_b.
  assert (Ha : length b_a = 256%nat) by reflexivity.
  assert (Hb : length b_b = 256%nat) by reflexivity.
  assert (Hs : (SHOW_BITS <= 256)%nat) by (unfold SHOW_BITS; lia).
  destruct (bit_summary_over_full_sequence b_a b_b SHOW_BITS Ha Hb Hs)
    as (Hcount & (lines & Hloop & Hview) & _ & Hprefix).
  assert (E : len (mismatch_positions b_a b_b) = 130) by (vm_compute; reflexivity).
  split; [exact Ha|]. split; [exact Hb|]. split; [exact Hs|].
  split; [rewrite Hcount; exact E|].
  exists lines. split.
  - rewrite Hview, E. f_equal.
  - rewrite (Hprefix b_a b_a eq_refl eq_refl). exact Hloop.
Defined.

(** *** The character view: what [char_diffs] counts *)

(** C3, on the code: the inputs are first padded with spaces to one
    length, so the loop over [zip] also compares the excess characters of
    the longer input (against spaces), and the length difference is then
    added on top.  For "ab" against "abcd" the reported count is 4, where
    the count by common prefix plus length difference is 2; the marker
    line carries 2 carets.  The first scenario of the specification,
    "password" against "passwore", gives 1 either way. *)
Theorem char_diffs_counts_excess_twice :
  char_diffs (lit "ab") (lit "abcd") = 4
  /\ spec_char_mismatch (lit "ab") (lit "abcd") = 2
  /\ carets (diff_markers (lit "ab") (lit "abcd")) = 2
  /\ char_diffs (lit "password") (lit "passwore") = 1
  /\ spec_char_mismatch (lit "password") (lit "passwore") = 1.
Proof. repeat split. Qed.

Lemma diffs_against_spaces b :
  length (filter (fun p => negb (fst p =? snd p)) (combine (repeat 32 (length b)) b))
  = length (filter (fun c => negb (32 =? c)) b).
Proof.
  induction b as [|y b IH]; [reflexivity|].
  cbn [length repeat combine filter fst snd].
  destruct (negb (32 =? y)); cbn [length]; rewrite IH; reflexivity.
Qed.

Lemma diffs_padded_left a : forall b,
  (length a <= length b)%nat ->
  length (filter (fun p => negb (fst p =? snd p))
            (combine (a ++ repeat 32 (length b - length a)) b))
  = (length (filter (fun i => negb (nth i a 0%Z =? nth i b 0%Z)%Z)
               (seq 0 (Nat.min (length a) (length b))))
     + length (filter (fun c => negb (32 =? c)%Z) (skipn (length a) b)))%nat.
Proof.
  induction a as [|x a IH]; intros b Hlen.
  - cbn [length app Nat.min seq filter skipn Nat.add]. rewrite Nat.sub_0_r.
    apply diffs_against_spaces.
  - destruct b as [|y b]; [simpl in Hlen; lia|].
    cbn [length] in Hlen. cbn [length Nat.sub Nat.min skipn app combine filter fst snd].
    cbn [seq]. rewrite <- seq_shift. cbn [filter nth].
    specialize (IH b ltac:(lia)).
    destruct (negb (x =? y)); cbn [length];
      rewrite length_filter_map_S; cbn [nth]; rewrite IH; reflexivity.
Qed.

(** What [char_diffs] is in general when the first input is not the longer
    one: the mismatches below the shorter length, then every excess
    character of the longer input that is not a space, then the length
    difference.  It agrees with the specification's count exactly when the
    excess consists of spaces. *)
Lemma char_diffs_shorter_left a b :
  (length a <= length b)%nat ->
  char_diffs a b
  = spec_char_mismatch a b
    + len (filter (fun c => negb (32 =? c)) (skipn (length a) b)).
Proof.
  intros Hlen. unfold char_diffs, spec_char_mismatch, prefix_mismatches.
  rewrite count_diffs_length. unfold padded_a, padded_b, ljust, len in *.
  replace (Z.max (Z.of_nat (length a)) (Z.of_nat (length b)))
    with (Z.of_nat (length b)) by lia.
  rewrite (str_mul_nonpos _ (Z.of_nat (length b) - Z.of_nat (length b))) by lia.
  rewrite app_nil_r.
  replace (str_mul [32] (Z.of_nat (length b) - Z.of_nat (length a)))
    with (repeat 32 (length b - length a)).
  - rewrite diffs_padded_left by exact Hlen. lia.
  - change [32] with (lit " "). rewrite <- repeat_space. f_equal. lia.
Qed.

(* ===================================================================== *)
(** ** progress_bar *)
(* ===================================================================== *)

(** *** Rounding to binary64

    What the proofs below need of [SpecFloat]'s rounding: the sign of a
    rounded result is the sign asked for, a rounded non-negative mantissa
    never gives NaN, and the mantissa of a result is below [2^53]. *)

Lemma digits2_pos_bounds (m : positive) :
  2 ^ (Zpos (digits2_pos m) - 1) <= Zpos m < 2 ^ Zpos (digits2_pos m).
Proof.
  induction m as [m IH|m IH|]; cbn [digits2_pos]; [| |simpl; lia];
    rewrite Pos2Z.inj_succ;
    replace (Z.succ (Zpos (digits2_pos m)) - 1)
      with (Z.succ (Zpos (digits2_pos m) - 1)) by lia;
    rewrite !Z.pow_succ_r by lia; lia.
Qed.

Lemma Zdigits2_lt (m : Z) : 0 <= m -> m < 2 ^ Zdigits2 m.
Proof.
  destruct m as [|p|p]; [reflexivity | | lia].
  intros _. apply digits2_pos_bounds.
Qed.

Lemma shr_m_of_loc m l : shr_m (shr_record_of_loc m l) = m.
Proof. destruct l as [|[]]; reflexivity. Qed.

Lemma shr_1_m mrs : 0 <= shr_m mrs -> shr_m (shr_1 mrs) = shr_m mrs / 2.
Proof.
  destruct mrs as [m r s]. cbn [shr_m]. intros Hm.
  destruct m as [|[p|p|]|p]; cbn [shr_1 shr_m]; try lia; try reflexivity;
    first [apply Z.div_unique with 1; lia | apply Z.div_unique with 0; lia].
Qed.

Lemma pow2_xO (p : positive) : 2 ^ Zpos p~0 = 2 ^ Zpos p * 2 ^ Zpos p.
Proof.
  replace (Zpos p~0) with (Zpos p + Zpos p) by lia. apply Z.pow_add_r; lia.
Qed.

Lemma pow2_xI (p : positive) : 2 ^ Zpos p~1 = 2 * (2 ^ Zpos p * 2 ^ Zpos p).
Proof.
  replace (Zpos p~1) with (Z.succ (Zpos p~0)) by lia.
  rewrite Z.pow_succ_r by lia. rewrite pow2_xO. reflexivity.
Qed.

Lemma iter_pos_shr_m (p : positive) : forall mrs,
  0 <= shr_m mrs ->
  shr_m (iter_pos shr_1 p mrs) = shr_m mrs / 2 ^ Zpos p.
Proof.
  assert (Hpow : forall q : positive, 0 < 2 ^ Zpos q)
    by (intros q; apply Z.pow_pos_nonneg; lia).
  induction p as [p IH|p IH|]; intros mrs Hm; cbn [iter_pos].
  - assert (H1 : 0 <= shr_m (shr_1 mrs))
      by (rewrite shr_1_m by exact Hm; apply Z.div_pos; lia).
    assert (H2 : 0 <= shr_m (iter_pos shr_1 p (shr_1 mrs)))
      by (rewrite IH by exact H1; apply Z.div_pos; [exact H1 | apply Hpow]).
    rewrite IH by exact H2. rewrite IH by exact H1. rewrite shr_1_m by exact Hm.
    pose proof (Hpow p).
    rewrite !Z.div_div by lia. rewrite pow2_xI. f_equal; lia.
  - assert (H2 : 0 <= shr_m (iter_pos shr_1 p mrs))
      by (rewrite IH by exact Hm; apply Z.div_pos; [exact Hm | apply Hpow]).
    rewrite IH by exact H2. rewrite IH by exact Hm.
    pose proof (Hpow p).
    rewrite !Z.div_div by lia. rewrite pow2_xO. reflexivity.
  - rewrite shr_1_m by exact Hm. reflexivity.
Qed.

(** One normalising shift: the exponent becomes the larger of [e] and the
    format's exponent for the number, the mantissa is divided accordingly. *)
Lemma shr_fexp_spec m e l mrs' e' :
  0 <= m ->
  shr_fexp prec emax m e l = (mrs', e') ->
  e' = Z.max e (fexp prec emax (Zdigits2 m + e))
  /\ shr_m mrs' = m / 2 ^ (e' - e)
  /\ (e' = e -> mrs' = shr_record_of_loc m l).
Proof.
  intros Hm. unfold shr_fexp, shr.
  destruct (fexp prec emax (Zdigits2 m + e) - e) as [|n|n] eqn:En;
    intros E; injection E as <- <-.
  - split; [lia|]. rewrite Z.sub_diag, Z.pow_0_r, Z.div_1_r, shr_m_of_loc.
    split; reflexivity.
  - split; [lia|]. split; [|lia].
    rewrite iter_pos_shr_m by (rewrite shr_m_of_loc; exact Hm).
    rewrite shr_m_of_loc. f_equal. f_equal. lia.
  - split; [lia|]. rewrite Z.sub_diag, Z.pow_0_r, Z.div_1_r, shr_m_of_loc.
    split; reflexivity.
Qed.

Lemma shr_fexp_bound m e l mrs' e' :
  0 <= m ->
  shr_fexp prec emax m e l = (mrs', e') ->
  0 <= shr_m mrs' < 2 ^ 53.
Proof.
  intros Hm E. destruct (shr_fexp_spec _ _ _ _ _ Hm E) as (He & Hs & _).
  rewrite Hs.
  assert (Hn : 0 <= e' - e) by lia.
  assert (Hp : 0 < 2 ^ (e' - e)) by (apply Z.pow_pos_nonneg; lia).
  split; [apply Z.div_pos; lia|].
  apply Z.div_lt_upper_bound; [exact Hp|].
  rewrite <- Z.pow_add_r by lia.
  eapply Z.lt_le_trans; [apply Zdigits2_lt, Hm|].
  apply Z.pow_le_mono_r; [lia|].
  assert (H0 : 0 <= Zdigits2 m) by (destruct m; simpl; lia).
  unfold fexp, prec in He. lia.
Qed.

Lemma round_nearest_even_range m l :
  m <= round_nearest_even m l <= m + 1.
Proof.
  destruct l as [|[]]; cbn [round_nearest_even]; try lia.
  destruct (Z.even m); lia.
Qed.


Lemma binary_round_aux_class sx mx ex lx :
  0 <= mx ->
  match binary_round_aux prec emax sx mx ex lx with
  | S754_zero s | S754_infinity s => s = sx
  | S754_finite s m _ => s = sx /\ Zpos m < 2 ^ 53
  | S754_nan => False
  end.
Proof.
  intros Hm. unfold binary_round_aux.
  destruct (shr_fexp prec emax mx ex lx) as [mrs' e'] eqn:E1.
  destruct (shr_fexp prec emax _ e' loc_Exact) as [mrs'' e''] eqn:E2.
  pose proof (shr_fexp_bound _ _ _ _ _ Hm E1) as H1.
  pose proof (round_nearest_even_range (shr_m mrs') (loc_of_shr_record mrs')) as Hr.
  assert (Hr0 : 0 <= round_nearest_even (shr_m mrs') (loc_of_shr_record mrs'))
    by lia.
  pose proof (shr_fexp_bound _ _ _ _ _ Hr0 E2) as H2.
  destruct (shr_m mrs'') as [|m|m]; [reflexivity | | lia].
  destruct (e'' <=? emax - prec); [split; [reflexivity | lia] | reflexivity].
Qed.

Lemma float_of_int_nonneg (n : Z) :
  0 <= n -> float_ge (float_of_int n) (float_of_int 0) = true.
Proof.
  intros Hn. destruct n as [|p|p]; [reflexivity | | lia].
  unfold float_of_int, binary_normalize, binary_round.
  destruct (shl_align p 0 _) as [mz ez].
  pose proof (binary_round_aux_class false (Zpos mz) ez loc_Exact ltac:(lia)) as H.
  destruct (binary_round_aux prec emax false (Zpos mz) ez loc_Exact) as [s|s| |s m e];
    [subst s; reflexivity | subst s; reflexivity | contradiction |].
  destruct H as [-> _]. reflexivity.
Qed.

(** *** The fraction of one round *)




(** A quotient that has reached 1.0 is cut to exactly 1.0. *)
Lemma py_min_full (q : float) : float_ge q F_1_0 = true -> py_min q F_1_0 = F_1_0.
Proof.
  unfold py_min, float_lt, float_ge, SFleb, SFltb, F_1_0.
  destruct q as [s|[|]| |[|] m e]; try discriminate; try reflexivity.
  cbn [SFcompare].
  destruct (Z.compare_spec (-52) e) as [<-|_|_]; try discriminate; try reflexivity.
  change (Pos.compare_cont Eq ?a ?b) with (Pos.compare a b).
  destruct (Pos.compare_spec 4503599627370496 m) as [<-|_|_];
    try discriminate; reflexivity.
Qed.


Lemma str_repeat_small (s : pystr) (n : Z) :
  -100 <= n <= 100 -> str_repeat s n = Ok (str_mul s n).
Proof.
  intros H. unfold str_repeat, PY_SSIZE_T_MAX.
  change (2 ^ 63) with 9223372036854775808.
  replace (n <? - (9223372036854775808 - 1) - 1) with false
    by (symmetry; apply Z.ltb_ge; lia).
  replace (9223372036854775808 - 1 <? n) with false
    by (symmetry; apply Z.ltb_ge; lia).
  reflexivity.
Qed.






(* ===================================================================== *)
(** * Further properties of the same code *)
(* ===================================================================== *)

(** ** strip_ansi and the visible width *)

(** X1: stripping never lengthens a text, so the visible width is at most
    the raw length; a text without ESC is returned as it is. *)
Theorem strip_ansi_never_longer (text : pystr) :
  0 <= visible_len text <= len text
  /\ (forallb (fun c => negb (c =? ESC)) text = true -> strip_ansi text = text).
Proof.
  split; [|apply strip_ansi_plain].
  unfold visible_len, len. split; [lia|]. apply inj_le.
  remember (length text) as n eqn:Hn.
  revert text Hn. induction n as [n IH] using lt_wf_ind. intros text Hn.
  destruct text as [|c t]; [rewrite strip_ansi_nil; simpl; lia|].
  destruct (match_sgr (c :: t)) as [rest|] eqn:Hm.
  - rewrite (strip_ansi_skip _ _ Hm).
    pose proof (match_sgr_shorter _ _ Hm) as Hlt.
    specialize (IH (length rest) ltac:(lia) rest eq_refl). lia.
  - rewrite (strip_ansi_keep _ _ Hm). simpl in *.
    specialize (IH (length t) ltac:(lia) t eq_refl). lia.
Qed.

Lemma strip_ansi_never_longer_witness :
  forallb (fun c => negb (c =? ESC)) (lit "FAST (SHA-256)") = true
  /\ strip_ansi (lit "FAST (SHA-256)") = lit "FAST (SHA-256)"
  /\ visible_len (C_RED ++ lit "abcd" ++ C_RESET) <= len (C_RED ++ lit "abcd" ++ C_RESET).
Proof.
  assert (H : forallb (fun c => negb (c =? ESC)) (lit "FAST (SHA-256)") = true)
    by reflexivity.
  split; [exact H|]. split.
  - exact (proj2 (strip_ansi_never_longer (lit "FAST (SHA-256)")) H).
  - exact (proj2 (proj1 (strip_ansi_never_longer (C_RED ++ lit "abcd" ++ C_RESET)))).
Defined.

(** ** toy_hash *)

Lemma sum_code_points_perm text text' :
  Permutation text text' -> sum_code_points text = sum_code_points text'.
Proof.
  unfold sum_code_points.
  induction 1 as [|x l l' _ IH|x y l|l l' l'' _ IH1 _ IH2]; simpl; lia.
Qed.

Lemma sum_code_points_app a b :
  sum_code_points (a ++ b) = sum_code_points a + sum_code_points b.
Proof.
  unfold sum_code_points. induction a as [|x a IH]; simpl; lia.
Qed.

Lemma toy_hash_nonzero text num_buckets :
  num_buckets <> 0 ->
  toy_hash text num_buckets = Ok (sum_code_points text mod num_buckets).
Proof.
  intros H. unfold toy_hash. replace (num_buckets =? 0) with false by lia.
  rewrite py_sum_fold_right, map_ord. reflexivity.
Qed.

(** X2: the order of the characters does not matter to [toy_hash]: two
    texts that are rearrangements of each other (anagrams, as "Cat" and
    "Act" in the docstring of [draw_buckets]) always land in the same
    bucket, whatever the number of buckets. *)
Theorem toy_hash_anagrams_collide (text text' : pystr) (num_buckets : Z) :
  Permutation text text' ->
  toy_hash text num_buckets = toy_hash text' num_buckets.
Proof.
  intros H. unfold toy_hash. rewrite !py_sum_fold_right, !map_ord.
  fold (sum_code_points text). fold (sum_code_points text').
  rewrite (sum_code_points_perm _ _ H). reflexivity.
Qed.

Lemma toy_hash_anagrams_collide_witness :
  Permutation (lit "Cat") (lit "atC")
  /\ toy_hash (lit "Cat") 8 = toy_hash (lit "atC") 8.
Proof.
  assert (H : Permutation (lit "Cat") (lit "atC")).
  { change (Permutation ([67] ++ [97; 116]) ([97; 116] ++ [67])).
    apply Permutation_app_comm. }
  split; [exact H | exact (toy_hash_anagrams_collide _ _ 8 H)].
Defined.

(** X3: the hash of a concatenation is the sum of the two hashes, reduced
    again: a bucket can be computed piece by piece. *)
Theorem toy_hash_concat (a b : pystr) (num_buckets : Z) :
  num_buckets <> 0 ->
  exists ra rb,
    toy_hash a num_buckets = Ok ra
    /\ toy_hash b num_buckets = Ok rb
    /\ toy_hash (a ++ b) num_buckets = Ok ((ra + rb) mod num_buckets).
Proof.
  intros H. rewrite !toy_hash_nonzero by exact H.
  eexists. eexists. split; [reflexivity|]. split; [reflexivity|].
  rewrite sum_code_points_app, Z.add_mod by exact H. reflexivity.
Qed.

Lemma toy_hash_concat_witness :
  8 <> 0
  /\ toy_hash (lit "Cat") 8 = Ok 0 /\ toy_hash (lit "Dog") 8 = Ok 2
  /\ toy_hash (lit "CatDog") 8 = Ok 2.
Proof.
  assert (H : 8 <> 0) by discriminate.
  destruct (toy_hash_concat (lit "Cat") (lit "Dog") 8 H) as (ra & rb & Ha & Hb & Hab).
  split; [exact H|]. split; [reflexivity|]. split; [reflexivity|].
  change (lit "CatDog") with (lit "Cat" ++ lit "Dog"). rewrite Hab.
  assert (Ea : ra = 0) by (assert (E : Ok ra = Ok 0) by (rewrite <- Ha; reflexivity);
                           injection E; auto).
  assert (Eb : rb = 2) by (assert (E : Ok rb = Ok 2) by (rewrite <- Hb; reflexivity);
                           injection E; auto).
  rewrite Ea, Eb. reflexivity.
Defined.

(** X4: the edges of [toy_hash].  With no buckets the call raises
    ZeroDivisionError, even for the empty text.  With a negative number of
    buckets it returns, and the result is negative or zero, above
    [num_buckets]: not a valid list index for a bucket array of that
    size. *)
Theorem toy_hash_edges (text : pystr) (num_buckets : Z) :
  toy_hash text 0 = Raise ZeroDivisionError
  /\ (num_buckets < 0 ->
      exists r, toy_hash text num_buckets = Ok r /\ num_buckets < r <= 0)
  /\ (num_buckets <> 0 -> toy_hash [] num_buckets = Ok 0).
Proof.
  split; [reflexivity|]. split.
  - intros H. rewrite toy_hash_nonzero by lia.
    eexists. split; [reflexivity|]. apply Z.mod_neg_bound. exact H.
  - intros H. rewrite toy_hash_nonzero by exact H. reflexivity.
Qed.

Lemma toy_hash_edges_witness :
  -8 < 0 /\ -8 <> 0
  /\ (exists r, toy_hash (lit "Dog") (-8) = Ok r /\ -8 < r <= 0)
  /\ toy_hash [] (-8) = Ok 0.
Proof.
  assert (H : -8 < 0) by lia. assert (H' : -8 <> 0) by discriminate.
  destruct (toy_hash_edges (lit "Dog") (-8)) as (_ & Hneg & Hnil).
  split; [exact H|]. split; [exact H'|]. split; [exact (Hneg H) | exact (Hnil H')].
Defined.

(** ** The diff counts and their marker lines *)

Lemma diff_filter_sym a : forall b,
  length (filter (fun p => negb (fst p =? snd p)) (combine a b))
  = length (filter (fun p => negb (fst p =? snd p)) (combine b a)).
Proof.
  induction a as [|x a IH]; intros [|y b]; try reflexivity.
  cbn [combine filter fst snd]. rewrite (Z.eqb_sym y x).
  destruct (negb (x =? y)); cbn [length]; rewrite IH; reflexivity.
Qed.

Lemma count_diffs_sym a b : count_diffs a b = count_diffs b a.
Proof. rewrite !count_diffs_length. unfold len. rewrite diff_filter_sym. reflexivity. Qed.

(** X5: the three counts are symmetric in their two inputs, whatever the
    lengths: swapping A and B never changes a reported number. *)
Theorem diff_counts_symmetric (a b : pystr) :
  char_diffs a b = char_diffs b a
  /\ hex_diffs a b = hex_diffs b a
  /\ bit_diffs_total a b = bit_diffs_total b a.
Proof.
  split; [|split].
  - unfold char_diffs, padded_a, padded_b.
    rewrite (Z.max_comm (len b) (len a)), (count_diffs_sym (ljust a _)).
    f_equal. lia.
  - unfold hex_diffs. rewrite !hex_loop_spec. apply count_diffs_sym.
  - apply count_diffs_sym.
Qed.

Lemma diff_filter_bound a : forall b,
  (length (filter (fun p => negb (fst p =? snd p)%Z) (combine a b))
   <= Nat.min (length a) (length b))%nat.
Proof.
  intros b. rewrite <- length_combine. apply filter_length_le.
Qed.

Lemma diff_filter_zero a : forall b,
  length a = length b ->
  length (filter (fun p => negb (fst p =? snd p)) (combine a b)) = 0%nat ->
  a = b.
Proof.
  induction a as [|x a IH]; intros [|y b] Hlen; try discriminate; [reflexivity|].
  injection Hlen as Hlen. cbn [combine filter fst snd].
  destruct (x =? y) eqn:E; cbn [negb length]; [|discriminate].
  intros H. apply Z.eqb_eq in E as ->. f_equal. apply IH; assumption.
Qed.

(** X6: a count of differing positions lies between 0 and the number of
    compared positions (the shorter length), and for inputs of one length
    it is 0 exactly when the two inputs are the same. *)
Theorem diff_count_bounds_and_zero (a b : pystr) :
  0 <= hex_diffs a b <= Z.min (len a) (len b)
  /\ 0 <= bit_diffs_total a b <= Z.min (len a) (len b)
  /\ (length a = length b -> (hex_diffs a b = 0 <-> a = b))
  /\ (length a = length b -> (bit_diffs_total a b = 0 <-> a = b)).
Proof.
  unfold hex_diffs, bit_diffs_total. rewrite hex_loop_spec. cbn [snd].
  rewrite count_diffs_length. unfold len.
  pose proof (diff_filter_bound a b) as Hb.
  assert (Hz : length a = length b ->
               Z.of_nat (length (filter (fun p => negb (fst p =? snd p)) (combine a b))) = 0
               <-> a = b).
  { intros Hlen. split.
    - intros H. apply diff_filter_zero; [exact Hlen | lia].
    - intros ->. pose proof (count_diffs_same b) as E.
      rewrite count_diffs_length in E. exact E. }
  repeat split; try lia; try (apply Hz; assumption).
Qed.

Lemma diff_count_bounds_and_zero_witness :
  let a := lit "3a7f" in
  let b := lit "3a7e" in
  length a = length b
  /\ (hex_diffs a b = 0 <-> a = b)
  /\ hex_diffs a b = 1
  /\ hex_diffs a b <= Z.min (len a) (len b).
Proof.
  intros a b. assert (Hlen : length a = length b) by reflexivity.
  destruct (diff_count_bounds_and_zero a b) as ((_ & Hle) & _ & Hz & _).
  split; [exact Hlen|]. split; [exact (Hz Hlen)|]. split; [reflexivity | exact Hle].
Defined.

(** The marker of one compared pair in the character view. *)
Definition char_marker (p : Z * Z) : pystr :=
  if fst p =? snd p then C_DIM ++ MIDDLE_DOT ++ C_RESET
  else C_RED ++ C_BOLD ++ lit "^" ++ C_RESET.

(** The glyph a marker shows. *)
Definition marker_glyph (p : Z * Z) : Z := if fst p =? snd p then 183 else 94.

Lemma diff_markers_from l diff_markers0 :
  fold_left
    (fun diff_markers p =>
       if fst p =? snd p
       then diff_markers ++ C_DIM ++ MIDDLE_DOT ++ C_RESET
       else diff_markers ++ C_RED ++ C_BOLD ++ lit "^" ++ C_RESET)
    l diff_markers0
  = diff_markers0 ++ concat (map char_marker l).
Proof.
  revert diff_markers0. induction l as [|p l IH]; intros d; cbn [fold_left map concat].
  - rewrite app_nil_r. reflexivity.
  - rewrite IH. unfold char_marker at 2.
    destruct (fst p =? snd p); rewrite <- app_assoc; reflexivity.
Qed.

Lemma carets_app l1 l2 : carets (l1 ++ l2) = carets l1 + carets l2.
Proof. unfold carets. rewrite filter_app, len_app. reflexivity. Qed.

Lemma carets_markers (mk : Z * Z -> pystr) l :
  (forall p, carets (mk p) = if fst p =? snd p then 0 else 1) ->
  carets (concat (map mk l)) = len (filter (fun p => negb (fst p =? snd p)) l).
Proof.
  intros Hmk. induction l as [|p l IH]; [reflexivity|].
  cbn [map concat filter]. rewrite carets_app, IH, Hmk.
  destruct (fst p =? snd p); cbn [negb]; unfold len; cbn [length]; lia.
Qed.

Lemma strip_ansi_markers (mk : Z * Z -> pystr) l :
  (forall p rest, strip_ansi (mk p ++ rest) = marker_glyph p :: strip_ansi rest) ->
  strip_ansi (concat (map mk l)) = map marker_glyph l.
Proof.
  intros Hmk. induction l as [|p l IH]; [reflexivity|].
  cbn [map concat]. rewrite Hmk, IH. reflexivity.
Qed.

Lemma carets_hex_marker p : carets (hex_marker p) = if fst p =? snd p then 0 else 1.
Proof. unfold hex_marker. destruct (fst p =? snd p); reflexivity. Qed.

Lemma carets_char_marker p : carets (char_marker p) = if fst p =? snd p then 0 else 1.
Proof. unfold char_marker. destruct (fst p =? snd p); reflexivity. Qed.

Lemma strip_ansi_hex_marker p rest :
  strip_ansi (hex_marker p ++ rest) = marker_glyph p :: strip_ansi rest.
Proof.
  unfold hex_marker, marker_glyph. destruct (fst p =? snd p).
  - change ((C_DIM ++ MIDDLE_DOT ++ C_RESET) ++ rest)
      with (ESC :: 91 :: lit "2" ++ 109 :: 183 :: ESC :: 91 :: lit "0" ++ 109 :: rest).
    rewrite strip_ansi_marker by reflexivity.
    rewrite strip_ansi_not_esc by reflexivity.
    rewrite strip_ansi_marker by reflexivity. reflexivity.
  - change ((C_RED ++ lit "^" ++ C_RESET) ++ rest)
      with (ESC :: 91 :: lit "91" ++ 109 :: 94 :: ESC :: 91 :: lit "0" ++ 109 :: rest).
    rewrite strip_ansi_marker by reflexivity.
    rewrite strip_ansi_not_esc by reflexivity.
    rewrite strip_ansi_marker by reflexivity. reflexivity.
Qed.

Lemma strip_ansi_char_marker p rest :
  strip_ansi (char_marker p ++ rest) = marker_glyph p :: strip_ansi rest.
Proof.
  unfold char_marker, marker_glyph. destruct (fst p =? snd p).
  - change ((C_DIM ++ MIDDLE_DOT ++ C_RESET) ++ rest)
      with (ESC :: 91 :: lit "2" ++ 109 :: 183 :: ESC :: 91 :: lit "0" ++ 109 :: rest).
    rewrite strip_ansi_marker by reflexivity.
    rewrite strip_ansi_not_esc by reflexivity.
    rewrite strip_ansi_marker by reflexivity. reflexivity.
  - change ((C_RED ++ C_BOLD ++ lit "^" ++ C_RESET) ++ rest)
      with (ESC :: 91 :: lit "91" ++ 109
              :: ESC :: 91 :: lit "1" ++ 109 :: 94 :: ESC :: 91 :: lit "0" ++ 109 :: rest).
    rewrite !strip_ansi_marker by reflexivity.
    rewrite strip_ansi_not_esc by reflexivity.
    rewrite strip_ansi_marker by reflexivity. reflexivity.
Qed.

Lemma len_ljust s n : len (ljust s n) = Z.max (len s) n.
Proof.
  unfold ljust. rewrite len_app. change [32] with (lit " ").
  rewrite len_spaces. unfold len. lia.
Qed.

(** X7: the marker lines say what the counts say.  In the hex view the
    line holds one marker per compared position and as many carets as
    [hex_diffs].  In the character view the line is as long as the longer
    input, and the reported [char_diffs] is the number of carets drawn plus
    the difference of the two lengths. *)
Theorem marker_lines_agree_with_counts (a b : pystr) :
  carets (hex_diff a b) = hex_diffs a b
  /\ visible_len (hex_diff a b) = Z.min (len a) (len b)
  /\ char_diffs a b = carets (diff_markers a b) + Z.abs (len a - len b)
  /\ visible_len (diff_markers a b) = Z.max (len a) (len b).
Proof.
  unfold hex_diff, hex_diffs, char_diffs, diff_markers, visible_len.
  rewrite hex_loop_spec, diff_markers_from. cbn [fst snd app].
  rewrite !count_diffs_length.
  rewrite (carets_markers _ _ carets_hex_marker).
  rewrite (carets_markers _ _ carets_char_marker).
  rewrite (strip_ansi_markers _ _ strip_ansi_hex_marker).
  rewrite (strip_ansi_markers _ _ strip_ansi_char_marker).
  repeat split.
  - unfold len. rewrite length_map, length_combine. lia.
  - unfold len at 1. rewrite length_map, length_combine.
    pose proof (len_ljust a (Z.max (len a) (len b))) as Ha.
    pose proof (len_ljust b (Z.max (len a) (len b))) as Hb.
    unfold padded_a, padded_b. unfold len in *. lia.
Qed.

(** ** Decimal digits of a row index *)

Lemma digits_no_esc (d : Decimal.uint) :
  forallb (fun c => negb (c =? ESC)) (lit (NilEmpty.string_of_uint d)) = true.
Proof. induction d; simpl; auto. Qed.

Lemma len_digits (d : Decimal.uint) :
  len (lit (NilEmpty.string_of_uint d)) = Z.of_nat (Decimal.nb_digits d).
Proof.
  unfold len, lit.
  induction d; cbn [NilEmpty.string_of_uint list_ascii_of_string map length Decimal.nb_digits];
    [reflexivity | rewrite !Nat2Z.inj_succ, IHd; reflexivity ..].
Qed.

Lemma usize_nb_digits (d : Decimal.uint) :
  DecimalNat.Unsigned.usize d = Decimal.nb_digits d.
Proof. induction d; simpl; auto. Qed.

(** A numeral with a non-zero leading digit is at least the power of ten
    of its remaining length. *)
Lemma of_uint_acc_lower (d : Decimal.uint) (acc : nat) :
  (acc * 10 ^ Decimal.nb_digits d <= Nat.of_uint_acc d acc)%nat.
Proof.
  rewrite DecimalNat.Unsigned.of_uint_acc_spec.
  rewrite <- (usize_nb_digits d). lia.
Qed.

Lemma to_uint_normal (n : nat) : Decimal.unorm (Nat.to_uint n) = Nat.to_uint n.
Proof.
  rewrite <- DecimalNat.Unsigned.to_of, DecimalNat.Unsigned.of_to. reflexivity.
Qed.

Lemma nb_digits_to_uint_pow (n k : nat) :
  (n < 10 ^ k)%nat -> (1 <= k)%nat -> (Decimal.nb_digits (Nat.to_uint n) <= k)%nat.
Proof.
  intros Hn Hk.
  destruct (le_lt_dec (Decimal.nb_digits (Nat.to_uint n)) k) as [H|H]; [exact H|].
  exfalso.
  pose proof (to_uint_normal n) as Hnorm.
  pose proof (DecimalNat.Unsigned.of_to n) as Hval.
  remember (Nat.to_uint n) as d eqn:Hd. clear Hd.
  assert (Hlow : forall d' a, (1 <= a)%nat -> (k <= Decimal.nb_digits d')%nat ->
                   (10 ^ k <= Nat.of_uint_acc d' a)%nat).
  { intros d' a Ha Hk'. pose proof (of_uint_acc_lower d' a) as Hl.
    pose proof (Nat.pow_le_mono_r 10 k (Decimal.nb_digits d') ltac:(lia) Hk') as Hp.
    nia. }
  unfold Nat.of_uint in Hval.
  destruct d as [|d|d|d|d|d|d|d|d|d|d]; cbn [Decimal.nb_digits] in H;
    try (cbn [Nat.of_uint_acc] in Hval;
         match type of Hval with
         | Nat.of_uint_acc ?d' ?a = _ =>
             pose proof (Hlow d' a ltac:(simpl; lia) ltac:(lia))
         end; lia).
  - lia.
  - (* a leading zero cannot survive normalisation *)
    destruct d as [|d|d|d|d|d|d|d|d|d|d]; cbn [Decimal.nb_digits] in H;
      try lia; try discriminate Hnorm.
    change (Decimal.unorm (Decimal.D0 (Decimal.D0 d)))
      with (Decimal.unorm (Decimal.D0 d)) in Hnorm.
    pose proof (DecimalFacts.nb_digits_unorm (Decimal.D0 d) ltac:(discriminate)) as Hu.
    rewrite Hnorm in Hu. cbn [Decimal.nb_digits] in Hu. lia.
Qed.

(** Below 100000 the decimal text of an index has at most 5 characters,
    none of them ESC. *)
Lemma str_of_nat_spec (n : nat) :
  forallb (fun c => negb (c =? ESC)) (str_of_nat n) = true
  /\ (Z.of_nat n < 100000 -> len (str_of_nat n) <= 5).
Proof.
  unfold str_of_nat, NilZero.string_of_uint.
  assert (Hnn : Nat.to_uint n <> Decimal.Nil).
  { intros E. pose proof (to_uint_normal n) as Hn. rewrite E in Hn. discriminate Hn. }
  assert (E : lit match Nat.to_uint n with
                  | Decimal.Nil => "0"
                  | _ => NilEmpty.string_of_uint (Nat.to_uint n)
                  end
              = lit (NilEmpty.string_of_uint (Nat.to_uint n))).
  { destruct (Nat.to_uint n); [congruence | reflexivity ..]. }
  rewrite E. split; [apply digits_no_esc|].
  intros Hn. rewrite len_digits.
  assert (Hp : (n < 10 ^ 5)%nat).
  { apply Nat2Z.inj_lt. rewrite Nat2Z.inj_pow. exact Hn. }
  pose proof (nb_digits_to_uint_pow n 5 Hp ltac:(lia)). lia.
Qed.

(** ** Boxes and tables are rectangular *)

Lemma len_str_mul1 c n : len (str_mul [c] n) = Z.max n 0.
Proof.
  unfold len, str_mul. rewrite length_concat, map_repeat. cbn [length].
  assert (E : forall k, list_sum (repeat 1%nat k) = k)
    by (induction k; simpl; auto).
  rewrite E. lia.
Qed.

Lemma str_mul1_no_esc c n :
  (c =? ESC) = false -> forallb (fun c => negb (c =? ESC)) (str_mul [c] n) = true.
Proof.
  intros H. unfold str_mul. induction (Z.to_nat n) as [|k IH]; simpl; [reflexivity|].
  rewrite H. exact IH.
Qed.

(** A border line: indent, colour, corner, rule, corner, reset. *)
Lemma visible_len_box_border (l r : Z) width color :
  is_sgr color -> (l =? ESC) = false -> (r =? ESC) = false ->
  visible_len (lit "    " ++ color ++ [l] ++ str_mul BOX_H width ++ [r] ++ C_RESET)
  = Z.max width 0 + 6.
Proof.
  intros Hc Hl Hr. unfold visible_len.
  rewrite (strip_ansi_span (lit "    ")) by reflexivity.
  rewrite strip_ansi_sgr by exact Hc.
  rewrite (strip_ansi_span [l]) by (simpl; rewrite Hl; reflexivity).
  rewrite (strip_ansi_span (str_mul BOX_H width)) by (apply str_mul1_no_esc; reflexivity).
  rewrite (strip_ansi_span [r]) by (simpl; rewrite Hr; reflexivity).
  replace (strip_ansi C_RESET) with (@nil Z) by reflexivity.
  rewrite !len_app. unfold BOX_H. rewrite len_str_mul1.
  change (len (lit "    ")) with 4. change (len [l]) with 1.
  change (len [r]) with 1. change (len (@nil Z)) with 0. lia.
Qed.

Lemma visible_len_nonneg text : 0 <= visible_len text.
Proof. unfold visible_len, len. lia. Qed.

(** X8: a box drawn with the width omitted is always rectangular.  For a
    non-empty list of lines and an SGR border colour, [draw_box] prints
    the two borders and one row per line, and every printed line has the
    same visible width; the resolved width is at least 2, so each row ends
    in at least two spaces of padding. *)
Theorem draw_box_auto_rectangular (content_lines : list pystr) (color : pystr) :
  content_lines <> [] -> is_sgr color ->
  exists w out,
    draw_box content_lines None color = Ok out
    /\ 2 <= w
    /\ len out = len content_lines + 2
    /\ Forall (fun printed => visible_len printed = w + 6) out
    /\ Forall (fun line => 2 <= w - visible_len line) content_lines.
Proof.
  intros Hne Hc.
  destruct (py_max_spec (map (fun line => len (strip_ansi line)) content_lines))
    as (m & Hm & Hle & Hin).
  { destruct content_lines; [congruence | discriminate]. }
  assert (Hfit : forall line, In line content_lines -> visible_len line <= m).
  { intros line Hl. apply Hle. unfold visible_len.
    exact (in_map (fun line => len (strip_ansi line)) _ _ Hl). }
  assert (Hm0 : 0 <= m).
  { apply in_map_iff in Hin as (line & <- & _). unfold len. lia. }
  exists (m + 2). eexists. unfold draw_box, resolve_width. rewrite Hm.
  cbn [bind]. split; [reflexivity|]. split; [lia|]. split; [|split].
  - unfold len. rewrite !length_app, length_map. simpl. lia.
  - apply Forall_app. split; [|apply Forall_app; split].
    + constructor; [|constructor]. unfold box_top, BOX_TL, BOX_TR.
      rewrite visible_len_box_border by (exact Hc || reflexivity). lia.
    + apply Forall_forall. intros printed Hp.
      apply in_map_iff in Hp as (line & <- & Hl).
      rewrite visible_len_box_row by exact Hc.
      specialize (Hfit line Hl). pose proof (visible_len_nonneg line). lia.
    + constructor; [|constructor]. unfold box_bottom, BOX_BL, BOX_BR.
      rewrite visible_len_box_border by (exact Hc || reflexivity). lia.
  - apply Forall_forall. intros line Hl. specialize (Hfit line Hl). lia.
Qed.

Lemma draw_box_auto_rectangular_witness :
  let content_lines := [lit "ab"; C_RED ++ lit "abcd" ++ C_RESET] in
  content_lines <> [] /\ is_sgr C_CYAN
  /\ exists out,
       draw_box content_lines None C_CYAN = Ok out
       /\ len out = 4
       /\ Forall (fun printed => visible_len printed = 12) out.
Proof.
  intros content_lines.
  assert (Hne : content_lines <> []) by discriminate.
  assert (Hc : is_sgr C_CYAN) by (exists (lit "96"); split; reflexivity).
  destruct (draw_box_auto_rectangular content_lines C_CYAN Hne Hc)
    as (w & out & Hout & _ & Hlen & Hall & _).
  split; [exact Hne|]. split; [exact Hc|].
  exists out. split; [exact Hout|]. split; [exact Hlen|].
  assert (E : w = 6).
  { assert (Hd : draw_box content_lines None C_CYAN
                 = Ok ([box_top 6 C_CYAN] ++ map (box_row 6 C_CYAN) content_lines
                         ++ [box_bottom 6 C_CYAN])) by reflexivity.
    rewrite Hout in Hd. injection Hd as ->.
    inversion Hall as [|x l Hx _]. subst.
    assert (Hv : visible_len (box_top 6 C_CYAN) = 12) by reflexivity.
    rewrite Hv in Hx. lia. }
  rewrite E in Hall. exact Hall.
Defined.

Lemma len_center s w : len (center s w) = Z.max (len s) w.
Proof.
  unfold center. rewrite !len_app, !len_str_mul1.
  pose proof (Z.div_pos (Z.max (w - len s) 0) 2 ltac:(lia) ltac:(lia)).
  pose proof (Z.div_le_upper_bound (Z.max (w - len s) 0) 2 (Z.max (w - len s) 0)
                ltac:(lia) ltac:(lia)).
  lia.
Qed.

Lemma center_no_esc s w :
  forallb (fun c => negb (c =? ESC)) s = true ->
  forallb (fun c => negb (c =? ESC)) (center s w) = true.
Proof.
  intros H. unfold center. rewrite !forallb_app, H.
  rewrite !str_mul1_no_esc by reflexivity. reflexivity.
Qed.

Lemma is_sgr_idx_color i bucket highlight_idx : is_sgr (idx_color i bucket highlight_idx).
Proof.
  unfold idx_color.
  destruct (is_highlight i highlight_idx && truthy bucket);
    [|destruct (is_highlight i highlight_idx)];
    eexists; (split; [|reflexivity]); reflexivity.
Qed.

Lemma strip_ansi_idx_str i bucket highlight_idx rest :
  strip_ansi (idx_str i bucket highlight_idx ++ rest)
  = center (str_of_nat i) idx_w ++ strip_ansi rest.
Proof.
  unfold idx_str. rewrite <- !app_assoc.
  rewrite strip_ansi_sgr by apply is_sgr_idx_color.
  rewrite (strip_ansi_sgr C_BOLD) by (exists (lit "1"); split; reflexivity).
  rewrite strip_ansi_span by (apply center_no_esc, str_of_nat_spec).
  rewrite strip_ansi_sgr by exact is_sgr_C_RESET. reflexivity.
Qed.

Lemma strip_ansi_content_cell bucket :
  strip_ansi (content_cell bucket)
  = lit " " ++ strip_ansi (items_str bucket)
      ++ str_mul (lit " ") (Z.max (content_w - visible_len (items_str bucket) - 1) 0).
Proof.
  unfold content_cell. fold (visible_len (items_str bucket)).
  rewrite (strip_ansi_span (lit " ")) by reflexivity.
  rewrite strip_ansi_app_safe
    by (rewrite <- (app_nil_r (str_mul _ _)); apply safe_head_spaces; reflexivity).
  rewrite strip_ansi_spaces. reflexivity.
Qed.

Lemma visible_len_content_cell_max bucket :
  visible_len (content_cell bucket)
  = Z.max content_w (visible_len (items_str bucket) + 1).
Proof.
  unfold visible_len at 1. rewrite strip_ansi_content_cell, !len_app, len_spaces.
  fold (visible_len (items_str bucket)). change (len (lit " ")) with 1.
  unfold content_w. lia.
Qed.

Lemma visible_len_bucket_row i bucket highlight_idx :
  visible_len (bucket_row i bucket highlight_idx)
  = Z.max (len (str_of_nat i)) idx_w + visible_len (content_cell bucket) + 7.
Proof.
  unfold visible_len at 1, bucket_row.
  rewrite (strip_ansi_span (lit "    ")) by reflexivity.
  rewrite (strip_ansi_sgr C_CYAN) by (exists (lit "96"); split; reflexivity).
  rewrite (strip_ansi_span BOX_V) by reflexivity.
  rewrite (strip_ansi_sgr C_RESET) by exact is_sgr_C_RESET.
  rewrite strip_ansi_idx_str.
  rewrite (strip_ansi_sgr C_CYAN) by (exists (lit "96"); split; reflexivity).
  rewrite (strip_ansi_span BOX_V) by reflexivity.
  rewrite (strip_ansi_sgr C_RESET) by exact is_sgr_C_RESET.
  rewrite strip_ansi_app_safe by reflexivity.
  replace (strip_ansi (C_CYAN ++ BOX_V ++ C_RESET)) with BOX_V by reflexivity.
  rewrite !len_app, len_center. fold (visible_len (content_cell bucket)).
  change (len (lit "    ")) with 4. change (len BOX_V) with 1. lia.
Qed.

Lemma length_bucket_iterations buckets highlight_idx :
  forall count start,
    (start + count = length buckets)%nat ->
    length (flat_map (bucket_iteration buckets highlight_idx) (seq start count))
    = (2 * count - 1)%nat.
Proof.
  induction count as [|count IH]; intros start Hlen; [reflexivity|].
  cbn [seq flat_map]. rewrite length_app, (IH (S start)) by lia.
  unfold bucket_iteration, len. cbn [length].
  destruct (Z.of_nat start <? Z.of_nat (length buckets) - 1) eqn:E;
    [apply Z.ltb_lt in E | apply Z.ltb_ge in E]; cbn [length]; lia.
Qed.

(** X9: the bucket table is aligned.  [draw_buckets] prints 2n + 1 lines
    for n >= 1 buckets (2 for none).  A content cell always carries the
    whole item text: its visible width is the larger of 44 and the text
    plus its leading space.  With at most 100000 buckets and every
    bucket's text at most 43 columns wide, each printed line (borders,
    separators, rows) measures exactly 56 visible columns, whichever row is
    highlighted. *)
Theorem draw_buckets_aligned (buckets : list (list pystr)) (highlight_idx : option Z) :
  len (draw_buckets buckets highlight_idx)
  = (if len buckets =? 0 then 2 else 2 * len buckets + 1)
  /\ (forall bucket,
        visible_len (content_cell bucket)
        = Z.max content_w (visible_len (items_str bucket) + 1))
  /\ (len buckets <= 100000 ->
      (forall bucket, In bucket buckets ->
                      visible_len (items_str bucket) <= content_w - 1) ->
      Forall (fun printed => visible_len printed = 56)
        (draw_buckets buckets highlight_idx)).
Proof.
  split; [|split].
  - unfold draw_buckets, len. rewrite !length_app.
    rewrite (length_bucket_iterations buckets highlight_idx (length buckets) 0) by lia.
    cbn [length]. destruct (Z.eqb_spec (Z.of_nat (length buckets)) 0); lia.
  - apply visible_len_content_cell_max.
  - intros Hn Hfit. unfold draw_buckets.
    apply Forall_app. split; [constructor; [reflexivity | constructor]|].
    apply Forall_app. split; [|constructor; [reflexivity | constructor]].
    apply Forall_forall. intros printed Hp.
    apply in_flat_map in Hp as (i & Hi & Hp). apply in_seq in Hi.
    destruct Hp as [<-|Hp].
    + rewrite visible_len_bucket_row, visible_len_content_cell_max.
      assert (Hb : In (nth i buckets []) buckets) by (apply nth_In; lia).
      specialize (Hfit _ Hb).
      destruct (str_of_nat_spec i) as [_ Hd].
      unfold len in Hn. specialize (Hd ltac:(lia)).
      assert (0 <= len (str_of_nat i)) by (unfold len; lia).
      unfold idx_w, content_w in *. lia.
    + destruct (Z.of_nat i <? len buckets - 1); [|destruct Hp].
      destruct Hp as [<-|[]]. reflexivity.
Qed.

Lemma draw_buckets_aligned_witness :
  let buckets := [[lit "Cat"; lit "Act"]; []; [C_RED ++ lit "Dog" ++ C_RESET]] in
  len buckets <= 100000
  /\ (forall bucket, In bucket buckets ->
                     visible_len (items_str bucket) <= content_w - 1)
  /\ len (draw_buckets buckets (Some 0)) = 7
  /\ Forall (fun printed => visible_len printed = 56) (draw_buckets buckets (Some 0)).
Proof.
  intros buckets.
  assert (Hn : len buckets <= 100000) by (vm_compute; discriminate).
  assert (Hfit : forall bucket, In bucket buckets ->
                                visible_len (items_str bucket) <= content_w - 1).
  { intros bucket [<-|[<-|[<-|[]]]]; vm_compute; discriminate. }
  destruct (draw_buckets_aligned buckets (Some 0)) as (Hlen & _ & Hall).
  split; [exact Hn|]. split; [exact Hfit|]. split; [exact Hlen | exact (Hall Hn Hfit)].
Defined.

(** ** progress_bar with a positive duration *)

(** The fraction computed in round [j] (counted from 0):
    [(time.time() - start) / seconds]. *)
Definition fraction (clock : nat -> float) (seconds : float) (w : world)
    (j : nat) : float :=
  float_div (float_sub (clock (S (reads w) + j)%nat) (clock (reads w))) seconds.

(** One drawn frame: its bar is 30 cells wide and its fraction lies in
    [0, 1). *)
Definition is_frame (label_text color f : pystr) : Prop :=
  exists (pct : float) (bar : pystr),
    f = frame label_text color bar pct
    /\ len bar = 30
    /\ float_ge pct (float_of_int 0) = true /\ float_lt pct F_1_0 = true.

Lemma Zdigits2_le (m k : Z) : 0 <= m -> 0 <= k -> m < 2 ^ k -> Zdigits2 m <= k.
Proof.
  intros Hm Hk Hlt. destruct m as [|p|p]; [exact Hk | | lia].
  cbn [Zdigits2]. pose proof (digits2_pos_bounds p) as [Hlo _].
  assert (H : 2 ^ (Zpos (digits2_pos p) - 1) < 2 ^ k) by lia.
  apply Z.pow_lt_mono_r_iff in H; lia.
Qed.

(** Rounding an exact value below the integer [b] gives a float whose
    integer part is at most [b]: rounding never crosses a representable
    bound. *)
Lemma round_exact_below (P E b : Z) :
  0 < P -> E < 0 -> 0 < b <= 32 -> P < b * 2 ^ (- E) ->
  exists t,
    py_int (binary_round_aux prec emax false P E loc_Exact) = Ok t /\ 0 <= t <= b.
Proof.
  intros HP HE Hb Hlt. unfold binary_round_aux.
  destruct (shr_fexp prec emax P E loc_Exact) as [mrs1 e1] eqn:E1.
  assert (HP0 : 0 <= P) by lia.
  destruct (shr_fexp_spec _ _ _ _ _ HP0 E1) as (He1 & Hm1 & Hsame).
  assert (HdP : Zdigits2 P <= 5 - E).
  { apply Zdigits2_le; [lia | lia |].
    eapply Z.lt_le_trans; [exact Hlt|].
    replace (5 - E) with (5 + - E) by lia. rewrite Z.pow_add_r by lia.
    apply Z.mul_le_mono_nonneg_r; [apply Z.pow_nonneg; lia|].
    change (2 ^ 5) with 32. lia. }
  assert (He1' : E <= e1 < 0) by (unfold fexp, emin, prec, emax in He1; lia).
  set (r := round_nearest_even (shr_m mrs1) (loc_of_shr_record mrs1)).
  assert (Hp1 : 0 < 2 ^ (- e1)) by (apply Z.pow_pos_nonneg; lia).
  assert (Hr : 0 <= r <= b * 2 ^ (- e1)).
  { pose proof (round_nearest_even_range (shr_m mrs1) (loc_of_shr_record mrs1)) as Hrr.
    fold r in Hrr.
    destruct (Z.eq_dec e1 E) as [Heq|Hne].
    - rewrite (Hsame Heq) in *. unfold r. rewrite (Hsame Heq).
      cbn [shr_record_of_loc loc_of_shr_record round_nearest_even shr_m].
      rewrite Heq. lia.
    - assert (Hp : 0 < 2 ^ (e1 - E)) by (apply Z.pow_pos_nonneg; lia).
      assert (Hdiv : shr_m mrs1 < b * 2 ^ (- e1)).
      { rewrite Hm1. apply Z.div_lt_upper_bound; [exact Hp|].
        replace (2 ^ (e1 - E) * (b * 2 ^ (- e1))) with (b * 2 ^ (- E)); [exact Hlt|].
        replace (- E) with ((e1 - E) + - e1) by lia.
        rewrite Z.pow_add_r by lia. ring. }
      assert (0 <= shr_m mrs1) by (rewrite Hm1; apply Z.div_pos; lia).
      lia. }
  destruct (shr_fexp prec emax r e1 loc_Exact) as [mrs2 e2] eqn:E2.
  destruct (shr_fexp_spec _ _ _ _ _ (proj1 Hr) E2) as (He2 & Hm2 & _).
  assert (Hdr : Zdigits2 r <= 6 - e1).
  { apply Zdigits2_le; [lia | lia |].
    eapply Z.le_lt_trans; [exact (proj2 Hr)|].
    replace (6 - e1) with (6 + - e1) by lia. rewrite Z.pow_add_r by lia.
    apply Z.mul_lt_mono_pos_r; [exact Hp1|].
    change (2 ^ 6) with 64. lia. }
  assert (He2' : e1 <= e2 < 0) by (unfold fexp, emin, prec, emax in He2; lia).
  assert (Hp2 : 0 < 2 ^ (e2 - e1)) by (apply Z.pow_pos_nonneg; lia).
  assert (Hp3 : 0 < 2 ^ (- e2)) by (apply Z.pow_pos_nonneg; lia).
  assert (Hint : 0 <= shr_m mrs2 / 2 ^ (- e2) <= b).
  { rewrite Hm2, Z.div_div by lia.
    rewrite <- Z.pow_add_r by lia.
    replace (e2 - e1 + - e2) with (- e1) by lia.
    split; [apply Z.div_pos; lia|].
    apply Z.div_le_upper_bound; [exact Hp1 | lia]. }
  destruct (shr_m mrs2) as [|m|m] eqn:Em.
  - exists 0. split; [reflexivity | lia].
  - replace (e2 <=? emax - prec) with true
      by (symmetry; apply Z.leb_le; unfold emax, prec; lia).
    cbn [py_int].
    replace (0 <=? e2) with false by (symmetry; apply Z.leb_gt; lia).
    eexists. split; [reflexivity | exact Hint].
  - assert (0 <= r / 2 ^ (e2 - e1)) by (apply Z.div_pos; lia). lia.
Qed.

(** The quotient of a non-negative elapsed time by a positive duration is
    a zero, a positive number with a mantissa below [2^53], [+inf] or
    NaN. *)
Definition quotient_class (q : float) : Prop :=
  match q with
  | S754_zero _ | S754_infinity false | S754_nan => True
  | S754_finite false m _ => Zpos m < 2 ^ 53
  | _ => False
  end.

Lemma float_div_quotient_class (elapsed seconds : float) :
  float_ge elapsed (float_of_int 0) = true ->
  float_lt (float_of_int 0) seconds = true ->
  is_zero seconds = false /\ quotient_class (float_div elapsed seconds).
Proof.
  destruct seconds as [sy|[|]| |[|] my ey]; try discriminate; intros He _;
    (split; [reflexivity|]);
    destruct elapsed as [sx|[|]| |[|] mx ex]; try discriminate;
    try exact I.
  unfold float_div, SFdiv, SFdiv_core_binary.
  match goal with
  | |- context [Z.div_eucl ?a ?b] =>
      assert (Ha : 0 <= a);
      [| pose proof (Z.div_pos a b Ha ltac:(lia)) as Hq;
         unfold Z.div in Hq; destruct (Z.div_eucl a b) as [q r] ]
  end.
  { destruct (ex - ey - _) as [|s|s]; [lia | apply Z.shiftl_nonneg; lia | lia]. }
  cbn [fst] in Hq.
  match goal with
  | |- quotient_class (binary_round_aux ?p ?em ?sx ?mz ?ez ?lz) =>
      pose proof (binary_round_aux_class sx mz ez lz Hq) as H;
      destruct (binary_round_aux p em sx mz ez lz) as [s|s| |s m e]
  end; cbn [xorb] in H.
  - exact I.
  - subst s. exact I.
  - exact I.
  - destruct H as [-> H]. exact H.
Qed.

Lemma SFcompare_positive m1 e1 m2 e2 :
  SFcompare (S754_finite false m1 e1) (S754_finite false m2 e2)
  = Some match e1 ?= e2 with
         | Lt => Lt
         | Gt => Gt
         | Eq => (m1 ?= m2)%positive
         end.
Proof. reflexivity. Qed.

Lemma float_mul_30 (m : positive) (e : Z) :
  float_mul (float_of_int 30) (S754_finite false m e)
  = binary_round_aux prec emax false (Zpos (8444249301319680 * m)) (-48 + e)
      loc_Exact.
Proof.
  replace (float_of_int 30) with (S754_finite false 8444249301319680 (-48))
    by (vm_compute; reflexivity).
  reflexivity.
Qed.

Lemma float_mul_30_zero (s : bool) :
  float_mul (float_of_int 30) (S754_zero s) = S754_zero s.
Proof.
  replace (float_of_int 30) with (S754_finite false 8444249301319680 (-48))
    by (vm_compute; reflexivity).
  destruct s; reflexivity.
Qed.

(** A fraction below 1.0: it is kept by [min], the loop goes on, and the
    bar it gives has between 0 and 30 full cells. *)
Lemma fraction_below_one (q : float) :
  quotient_class q -> float_lt q F_1_0 = true ->
  py_min q F_1_0 = q
  /\ float_ge q F_1_0 = false
  /\ float_ge q (float_of_int 0) = true
  /\ exists filled,
       py_int (float_mul (float_of_int 30) q) = Ok filled /\ 0 <= filled <= 30.
Proof.
  destruct q as [s|[|]| |[|] m e]; cbn [quotient_class]; try contradiction.
  - intros _ _. split; [reflexivity|]. split; [reflexivity|].
    split; [destruct s; reflexivity|].
    exists 0. rewrite float_mul_30_zero. split; [reflexivity | lia].
  - intros _ H. discriminate H.
  - intros _ H. discriminate H.
  - intros Hm Hlt. change (2 ^ 53) with 9007199254740992 in Hm.
    assert (Hval : e < -52 \/ (e = -52 /\ Zpos m < 4503599627370496)).
    { clear Hm. unfold float_lt, SFltb, F_1_0 in Hlt.
      rewrite SFcompare_positive in Hlt.
      destruct (Z.compare_spec e (-52)) as [He|He|He];
        [|left; exact He|discriminate Hlt].
      right. split; [exact He|].
      destruct (m ?= 4503599627370496)%positive eqn:Hc;
        [discriminate Hlt | | discriminate Hlt].
      apply Pos2Z.pos_lt_pos, Pos.compare_lt_iff. exact Hc. }
    assert (Hcmp' : SFcompare F_1_0 (S754_finite false m e) = Some Gt).
    { clear Hm Hlt. unfold F_1_0. rewrite SFcompare_positive.
      destruct Hval as [He|[He Hm52]].
      - replace (-52 ?= e) with Gt by (symmetry; apply Z.compare_gt_iff; exact He).
        reflexivity.
      - rewrite He, Z.compare_refl. apply (f_equal Some).
        apply Pos.compare_gt_iff. unfold Pos.lt. rewrite Pos2Z.inj_compare.
        exact Hm52. }
    clear Hlt.
    split; [unfold py_min, float_lt, SFltb; rewrite Hcmp'; reflexivity|].
    split; [unfold float_ge, SFleb; rewrite Hcmp'; reflexivity|].
    split; [reflexivity|].
    rewrite float_mul_30. clear Hcmp'. apply round_exact_below; try lia.
    replace (- (-48 + e)) with (48 + (- e - 52) + 52) by lia.
    rewrite !Z.pow_add_r by lia.
    change (2 ^ 48) with 281474976710656.
    change (2 ^ 52) with 4503599627370496.
    destruct Hval as [He|[He Hm52]].
    + assert (H2 : 2 <= 2 ^ (- e - 52)).
      { change 2 with (2 ^ 1) at 1. apply Z.pow_le_mono_r; lia. }
      nia.
    + replace (- e - 52) with 0 by lia. change (2 ^ 0) with 1. lia.
Qed.

Lemma len_bar (filled : Z) :
  0 <= filled <= 30 ->
  len (str_mul FULL_BLOCK filled ++ str_mul LIGHT_SHADE (30 - filled)) = 30.
Proof.
  intros H. unfold FULL_BLOCK, LIGHT_SHADE. rewrite len_app, !len_str_mul1. lia.
Qed.

Lemma progress_loop_positive clock label_text seconds color start :
  float_lt (float_of_int 0) seconds = true ->
  (forall j, float_ge (float_sub (clock j) start) (float_of_int 0) = true) ->
  forall k fuel w,
    (k < fuel)%nat ->
    (forall j, (j < k)%nat ->
       float_lt (float_div (float_sub (clock (reads w + j)%nat) start) seconds)
         F_1_0 = true) ->
    float_ge (float_div (float_sub (clock (reads w + k)%nat) start) seconds)
      F_1_0 = true ->
    exists frames,
      progress_loop clock fuel label_text seconds color start w
      = (Returned,
         {| reads := (reads w + k + 1)%nat;
            written := written w ++ frames
                         ++ [frame label_text color (repeat 9608 30) F_1_0];
            sleeps := sleeps w ++ repeat F_0_05 k |})
      /\ length frames = k
      /\ Forall (is_frame label_text color) frames.
Proof.
  intros Hs Hclock.
  induction k as [|k IH]; intros fuel w Hfuel Hbefore Hdone;
    (destruct fuel as [|fuel]; [lia|]).
  - exists []. rewrite Nat.add_0_r in Hdone.
    cbn [progress_loop time_time]. unfold truediv.
    destruct (float_div_quotient_class _ _ (Hclock (reads w)) Hs) as [-> _].
    rewrite (py_min_full _ Hdone).
    split; [|split; [reflexivity | constructor]].
    change (py_int (float_mul (float_of_int 30) F_1_0)) with (@Ok Z 30).
    cbv iota. rewrite !str_repeat_small by lia. cbn [bind].
    change (float_ge F_1_0 F_1_0) with true. cbv iota.
    unfold stdout_write. cbn [reads written sleeps app repeat].
    rewrite !app_nil_r.
    replace (reads w + 0 + 1)%nat with (S (reads w)) by lia. reflexivity.
  - cbn [progress_loop time_time]. unfold truediv.
    destruct (float_div_quotient_class _ _ (Hclock (reads w)) Hs) as [-> Hclass].
    pose proof (Hbefore 0%nat ltac:(lia)) as H0. rewrite Nat.add_0_r in H0.
    destruct (fraction_below_one _ Hclass H0)
      as (-> & -> & Hge & filled & -> & Hfilled).
    rewrite !str_repeat_small by lia. cbn [bind].
    match goal with
    | |- exists frames, progress_loop _ _ _ _ _ _ ?w1 = _ /\ _ =>
        destruct (IH fuel w1) as (frames & Hrun & Hlen & Hall)
    end.
    + lia.
    + intros j Hj. cbn [time_sleep stdout_write reads].
      replace (S (reads w) + j)%nat with (reads w + S j)%nat by lia.
      apply Hbefore. lia.
    + cbn [time_sleep stdout_write reads].
      replace (S (reads w) + k)%nat with (reads w + S k)%nat by lia. exact Hdone.
    + eexists (_ :: frames). rewrite Hrun. split; [|split].
      * cbn [time_sleep stdout_write reads written sleeps].
        rewrite <- !app_assoc. cbn [app repeat].
        replace (S (reads w) + k + 1)%nat with (reads w + S k + 1)%nat by lia.
        reflexivity.
      * cbn [length]. rewrite Hlen. reflexivity.
      * constructor; [|exact Hall].
        eexists. eexists. split; [reflexivity|].
        split; [apply len_bar, Hfilled|]. split; [exact Hge | exact H0].
Qed.

(** X10: with a positive duration, on a clock whose readings are never
    behind the first one, [progress_bar] returns in the first round whose
    fraction [(time.time() - start) / seconds], computed in binary64, has
    reached 1.0.  If that is round [k] (counted from 0), it has drawn [k]
    frames, each with a bar of exactly 30 cells and a fraction in [0, 1),
    then the frame at 100% with a full bar, then the newline; it has slept
    exactly [k] times, 0.05 s each.  Enough fuel is any number above [k]. *)
Theorem progress_bar_completes
    (clock : nat -> float) (label_text color : pystr) (seconds : float)
    (w : world) (k fuel : nat) :
  float_lt (float_of_int 0) seconds = true ->
  (forall j, float_ge (float_sub (clock j) (clock (reads w)))
               (float_of_int 0) = true) ->
  (forall j, (j < k)%nat -> float_lt (fraction clock seconds w j) F_1_0 = true) ->
  float_ge (fraction clock seconds w k) F_1_0 = true ->
  (k < fuel)%nat ->
  exists frames,
    progress_bar clock fuel label_text seconds color w
    = (Returned,
       {| reads := (reads w + k + 2)%nat;
          written := written w ++ frames
                       ++ [frame label_text color (repeat 9608 30) F_1_0; [10]];
          sleeps := sleeps w ++ repeat F_0_05 k |})
    /\ length frames = k
    /\ Forall (is_frame label_text color) frames.
Proof.
  intros Hs Hclock Hbefore Hdone Hfuel. unfold progress_bar. cbn [time_time].
  match goal with
  | |- context [progress_loop _ _ _ _ _ ?start ?w1] =>
      destruct (progress_loop_positive clock label_text seconds color
                  start Hs Hclock k fuel w1 Hfuel Hbefore Hdone)
        as (frames & Hrun & Hlen & Hall)
  end.
  exists frames. rewrite Hrun. split; [|split; assumption].
  unfold stdout_write. cbn [reads written sleeps].
  rewrite <- !app_assoc. cbn [app].
  replace (S (reads w) + k + 1)%nat with (reads w + k + 2)%nat by lia.
  reflexivity.
Qed.

(** A 7-second duration on the clock that advances 3 s per reading: the
    fractions 3/7 and 6/7 give two frames, with 12 and 25 full cells, and
    two sleeps; the third round completes. *)
Lemma progress_bar_completes_witness :
  float_lt (float_of_int 0) (float_of_int 7) = true
  /\ (forall j, float_ge (float_sub (clock_3s j) (clock_3s (reads world0)))
                  (float_of_int 0) = true)
  /\ (forall j, (j < 2)%nat ->
                float_lt (fraction clock_3s (float_of_int 7) world0 j) F_1_0 = true)
  /\ float_ge (fraction clock_3s (float_of_int 7) world0 2) F_1_0 = true
  /\ fst (progress_bar clock_3s 5 (lit "Hashing") (float_of_int 7) C_GREEN world0)
     = Returned
  /\ sleeps (snd (progress_bar clock_3s 5 (lit "Hashing") (float_of_int 7)
                    C_GREEN world0)) = [F_0_05; F_0_05]
  /\ written (snd (progress_bar clock_3s 5 (lit "Hashing") (float_of_int 7)
                     C_GREEN world0))
     = [[13] ++ lit "    " ++ C_GREEN ++ lit "Hashing ["
          ++ repeat 9608 12 ++ repeat 9617 18 ++ lit "]  43%" ++ C_RESET;
        [13] ++ lit "    " ++ C_GREEN ++ lit "Hashing ["
          ++ repeat 9608 25 ++ repeat 9617 5 ++ lit "]  86%" ++ C_RESET;
        [13] ++ lit "    " ++ C_GREEN ++ lit "Hashing ["
          ++ repeat 9608 30 ++ lit "] 100%" ++ C_RESET;
        [10]].
Proof.
  assert (Hs : float_lt (float_of_int 0) (float_of_int 7) = true) by reflexivity.
  assert (Hclock : forall j, float_ge (float_sub (clock_3s j) (clock_3s (reads world0)))
                     (float_of_int 0) = true).
  { intros k. unfold clock_3s.
    pose proof (float_of_int_nonneg (3 * Z.of_nat k) ltac:(lia)) as H.
    change (float_of_int (3 * Z.of_nat (reads world0))) with (S754_zero false).
    destruct (float_of_int (3 * Z.of_nat k)) as [s|s| |s m e];
      [destruct s; reflexivity | exact H | discriminate H | exact H]. }
  assert (Hbefore : forall j, (j < 2)%nat ->
            float_lt (fraction clock_3s (float_of_int 7) world0 j) F_1_0 = true).
  { intros j Hj. destruct j as [|[|j]]; [reflexivity | reflexivity | lia]. }
  assert (Hdone : float_ge (fraction clock_3s (float_of_int 7) world0 2) F_1_0 = true)
    by reflexivity.
  destruct (progress_bar_completes clock_3s (lit "Hashing") C_GREEN (float_of_int 7)
              world0 2 5 Hs Hclock Hbefore Hdone ltac:(lia))
    as (frames & Hrun & Hlen & _).
  split; [exact Hs|]. split; [exact Hclock|]. split; [exact Hbefore|].
  split; [exact Hdone|].
  split; [rewrite Hrun; reflexivity|]. split; reflexivity.
Defined.

(** ** The binary view, position by position *)

(** The space the loop adds after position [i]: after every 8th position
    but the last one drawn. *)
Definition bit_separator (show_bits i : nat) : pystr :=
  if ((Z.of_nat i + 1) mod 8 =? 0) && (Z.of_nat i <? Z.of_nat show_bits - 1)
  then lit " " else [].

(** What one position adds to each of the three lines. *)
Definition bit_cell_a (show_bits : nat) (b_a b_b : pystr) (i : nat) : pystr :=
  (if nth i b_a 0 =? nth i b_b 0
   then C_DIM ++ [nth i b_a 0] ++ C_RESET
   else C_CYAN ++ C_BOLD ++ [nth i b_a 0] ++ C_RESET)
    ++ bit_separator show_bits i.

Definition bit_cell_b (show_bits : nat) (b_a b_b : pystr) (i : nat) : pystr :=
  (if nth i b_a 0 =? nth i b_b 0
   then C_DIM ++ [nth i b_b 0] ++ C_RESET
   else C_RED ++ C_BOLD ++ [nth i b_b 0] ++ C_RESET)
    ++ bit_separator show_bits i.

Definition bit_cell_m (show_bits : nat) (b_a b_b : pystr) (i : nat) : pystr :=
  hex_marker (nth i b_a 0, nth i b_b 0) ++ bit_separator show_bits i.

(** Groups of 8, as the view writes them. *)
Fixpoint group_bytes_fuel (fuel : nat) (bits : pystr) : list pystr :=
  match fuel, bits with
  | O, _ => []
  | _, [] => []
  | S fuel', _ => firstn 8 bits :: group_bytes_fuel fuel' (skipn 8 bits)
  end.

Definition group_bytes (bits : pystr) : list pystr :=
  group_bytes_fuel (length bits) bits.

Lemma index_nth s i : (i < length s)%nat -> index s i = Ok (nth i s 0).
Proof.
  intros H. unfold index. rewrite (nth_error_nth' s 0 H). reflexivity.
Qed.

Lemma bit_iteration_cells show_bits b_a b_b st i :
  (i < length b_a)%nat -> (i < length b_b)%nat ->
  bit_iteration show_bits b_a b_b st i
  = Ok {| colored_a := colored_a st ++ bit_cell_a show_bits b_a b_b i;
          colored_b := colored_b st ++ bit_cell_b show_bits b_a b_b i;
          bit_diff_line := bit_diff_line st ++ bit_cell_m show_bits b_a b_b i |}.
Proof.
  intros Ha Hb. unfold bit_iteration. rewrite (index_nth _ _ Ha), (index_nth _ _ Hb).
  cbn [bind]. unfold bit_cell_a, bit_cell_b, bit_cell_m, bit_separator, hex_marker.
  cbn [fst snd].
  destruct (nth i b_a 0 =? nth i b_b 0);
    destruct (((Z.of_nat i + 1) mod 8 =? 0) && (Z.of_nat i <? Z.of_nat show_bits - 1));
    cbn [colored_a colored_b bit_diff_line]; rewrite <- ?app_assoc, ?app_nil_r;
    reflexivity.
Qed.

(** The display loop in closed form. *)
Lemma bit_loop_cells show_bits b_a b_b indices :
  Forall (fun i => (i < length b_a)%nat /\ (i < length b_b)%nat) indices ->
  forall st,
    bit_loop show_bits b_a b_b indices st
    = Ok {| colored_a := colored_a st ++ concat (map (bit_cell_a show_bits b_a b_b) indices);
            colored_b := colored_b st ++ concat (map (bit_cell_b show_bits b_a b_b) indices);
            bit_diff_line :=
              bit_diff_line st ++ concat (map (bit_cell_m show_bits b_a b_b) indices) |}.
Proof.
  induction 1 as [|i indices [Ha Hb] _ IH]; intros st; cbn [bit_loop map concat].
  - rewrite !app_nil_r. destruct st; reflexivity.
  - rewrite (bit_iteration_cells _ _ _ _ _ Ha Hb). cbn [bind]. rewrite IH.
    cbn [colored_a colored_b bit_diff_line]. rewrite <- !app_assoc. reflexivity.
Qed.

Lemma carets_separator show_bits i : carets (bit_separator show_bits i) = 0.
Proof. unfold bit_separator. destruct (_ && _); reflexivity. Qed.

Lemma carets_bit_cells show_bits b_a b_b indices :
  carets (concat (map (bit_cell_m show_bits b_a b_b) indices))
  = len (filter (fun i => negb (nth i b_a 0 =? nth i b_b 0)) indices).
Proof.
  induction indices as [|i indices IH]; [reflexivity|].
  cbn [map concat filter]. rewrite carets_app, IH. unfold bit_cell_m.
  rewrite carets_app, carets_hex_marker, carets_separator. cbn [fst snd].
  destruct (nth i b_a 0 =? nth i b_b 0); cbn [negb]; unfold len; cbn [length]; lia.
Qed.

Lemma strip_ansi_separator show_bits i rest :
  strip_ansi (bit_separator show_bits i ++ rest)
  = bit_separator show_bits i ++ strip_ansi rest.
Proof.
  apply strip_ansi_span. unfold bit_separator. destruct (_ && _); reflexivity.
Qed.

Lemma strip_ansi_bit_cell_m show_bits b_a b_b i rest :
  strip_ansi (bit_cell_m show_bits b_a b_b i ++ rest)
  = marker_glyph (nth i b_a 0, nth i b_b 0)
      :: bit_separator show_bits i ++ strip_ansi rest.
Proof.
  unfold bit_cell_m. rewrite <- app_assoc.
  rewrite strip_ansi_hex_marker, strip_ansi_separator. reflexivity.
Qed.

Lemma strip_ansi_styled_char (pre : pystr) (c : Z) rest :
  is_sgr pre -> (c =? ESC) = false ->
  strip_ansi ((pre ++ [c] ++ C_RESET) ++ rest) = c :: strip_ansi rest.
Proof.
  intros Hpre Hc. rewrite <- !app_assoc.
  rewrite strip_ansi_sgr by exact Hpre.
  cbn [app]. rewrite strip_ansi_not_esc by exact Hc.
  rewrite (strip_ansi_sgr C_RESET) by exact is_sgr_C_RESET. reflexivity.
Qed.

Lemma strip_ansi_styled_char2 (pre1 pre2 : pystr) (c : Z) rest :
  is_sgr pre1 -> is_sgr pre2 -> (c =? ESC) = false ->
  strip_ansi ((pre1 ++ pre2 ++ [c] ++ C_RESET) ++ rest) = c :: strip_ansi rest.
Proof.
  intros H1 H2 Hc. rewrite <- !app_assoc.
  rewrite strip_ansi_sgr by exact H1.
  rewrite (app_assoc pre2), (app_assoc (pre2 ++ [c])).
  rewrite <- (app_assoc pre2 [c] C_RESET).
  apply strip_ansi_styled_char; assumption.
Qed.

Lemma is_sgr_colors :
  is_sgr C_DIM /\ is_sgr C_CYAN /\ is_sgr C_RED /\ is_sgr C_BOLD /\ is_sgr C_GREEN.
Proof. repeat split; eexists; (split; [|reflexivity]); reflexivity. Qed.

Lemma strip_ansi_bit_cells_m show_bits b_a b_b indices :
  strip_ansi (concat (map (bit_cell_m show_bits b_a b_b) indices))
  = concat (map (fun i => marker_glyph (nth i b_a 0, nth i b_b 0)
                            :: bit_separator show_bits i) indices).
Proof.
  induction indices as [|i indices IH]; [reflexivity|].
  cbn [map concat]. rewrite strip_ansi_bit_cell_m, IH. reflexivity.
Qed.

Lemma strip_ansi_bit_cells_a show_bits b_a b_b indices :
  Forall (fun i => (nth i b_a 0 =? ESC) = false) indices ->
  strip_ansi (concat (map (bit_cell_a show_bits b_a b_b) indices))
  = concat (map (fun i => nth i b_a 0 :: bit_separator show_bits i) indices).
Proof.
  induction 1 as [|i indices Hi _ IH]; [reflexivity|].
  cbn [map concat]. unfold bit_cell_a at 1. rewrite <- app_assoc.
  destruct (nth i b_a 0 =? nth i b_b 0);
    [rewrite strip_ansi_styled_char by (apply is_sgr_colors || exact Hi)
    |rewrite strip_ansi_styled_char2 by (apply is_sgr_colors || exact Hi)];
    rewrite strip_ansi_separator, IH; reflexivity.
Qed.

Lemma strip_ansi_bit_cells_b show_bits b_a b_b indices :
  Forall (fun i => (nth i b_b 0 =? ESC) = false) indices ->
  strip_ansi (concat (map (bit_cell_b show_bits b_a b_b) indices))
  = concat (map (fun i => nth i b_b 0 :: bit_separator show_bits i) indices).
Proof.
  induction 1 as [|i indices Hi _ IH]; [reflexivity|].
  cbn [map concat]. unfold bit_cell_b at 1. rewrite <- app_assoc.
  destruct (nth i b_a 0 =? nth i b_b 0);
    [rewrite strip_ansi_styled_char by (apply is_sgr_colors || exact Hi)
    |rewrite strip_ansi_styled_char2 by (apply is_sgr_colors || exact Hi)];
    rewrite strip_ansi_separator, IH; reflexivity.
Qed.

Lemma firstn_as_map (s : pystr) : forall n,
  (n <= length s)%nat -> firstn n s = map (fun i => nth i s 0) (seq 0 n).
Proof.
  induction s as [|x s IH]; intros [|n] Hn; try reflexivity; [simpl in Hn; lia|].
  cbn [firstn seq map nth]. rewrite <- seq_shift, map_map.
  f_equal. apply IH. simpl in Hn. lia.
Qed.

Lemma combine_map_same {A B C : Type} (f : A -> B) (h : A -> C) l :
  combine (map f l) (map h l) = map (fun i => (f i, h i)) l.
Proof. induction l as [|x l IH]; simpl; [|rewrite IH]; reflexivity. Qed.

(** 64 positions with a space after every 8th but the last are 8 groups
    of 8 joined by single spaces. *)
Lemma grouped_64 (g : nat -> Z) :
  concat (map (fun i => g i :: bit_separator 64 i) (seq 0 64))
  = join (lit " ") (group_bytes (map g (seq 0 64))).
Proof. reflexivity. Qed.

Lemma forallb_seq_nth (p : Z -> bool) (s : pystr) n :
  (n <= length s)%nat ->
  forallb p (firstn n s) = true ->
  Forall (fun i => p (nth i s 0) = true) (seq 0 n).
Proof.
  intros Hn H. rewrite (firstn_as_map s n Hn) in H.
  apply Forall_forall. intros i Hi.
  rewrite forallb_forall in H. apply H. apply in_map_iff. exists i. auto.
Qed.

(** X11: what the binary view draws.  For two bit strings of at least 64
    characters the display loop succeeds; its marker line carries exactly
    as many carets as there are differing positions among the first 64;
    with the colour codes removed, each of the three lines is the first 64
    symbols in 8 groups of 8 separated by single spaces (71 columns), with
    no space after the last group. *)
Theorem bit_view_lines (b_a b_b : pystr) :
  (SHOW_BITS <= length b_a)%nat -> (SHOW_BITS <= length b_b)%nat ->
  exists lines,
    bit_loop SHOW_BITS b_a b_b (seq 0 SHOW_BITS) no_lines = Ok lines
    /\ carets (bit_diff_line lines)
       = len (filter (fun i => negb (nth i b_a 0 =? nth i b_b 0)) (seq 0 SHOW_BITS))
    /\ strip_ansi (bit_diff_line lines)
       = join (lit " ")
           (group_bytes (map marker_glyph
                           (combine (firstn SHOW_BITS b_a) (firstn SHOW_BITS b_b))))
    /\ visible_len (bit_diff_line lines) = 71
    /\ (forallb (fun c => negb (c =? ESC)) (firstn SHOW_BITS b_a) = true ->
        strip_ansi (colored_a lines)
        = join (lit " ") (group_bytes (firstn SHOW_BITS b_a)))
    /\ (forallb (fun c => negb (c =? ESC)) (firstn SHOW_BITS b_b) = true ->
        strip_ansi (colored_b lines)
        = join (lit " ") (group_bytes (firstn SHOW_BITS b_b))).
Proof.
  intros Ha Hb.
  assert (Hidx : Forall (fun i => (i < length b_a)%nat /\ (i < length b_b)%nat)
                   (seq 0 SHOW_BITS)).
  { apply Forall_forall. intros i Hi. apply in_seq in Hi. lia. }
  eexists. split; [apply (bit_loop_cells _ _ _ _ Hidx)|].
  cbn [colored_a colored_b bit_diff_line no_lines app].
  assert (Hm : strip_ansi (concat (map (bit_cell_m SHOW_BITS b_a b_b) (seq 0 SHOW_BITS)))
               = join (lit " ")
                   (group_bytes (map (fun i => marker_glyph (nth i b_a 0, nth i b_b 0))
                                   (seq 0 SHOW_BITS)))).
  { rewrite strip_ansi_bit_cells_m. apply grouped_64. }
  split; [apply carets_bit_cells|]. split; [|split; [|split]].
  - rewrite Hm, (firstn_as_map b_a _ Ha), (firstn_as_map b_b _ Hb).
    rewrite combine_map_same, map_map. reflexivity.
  - unfold visible_len. rewrite Hm. reflexivity.
  - intros Hesc. rewrite strip_ansi_bit_cells_a.
    + rewrite (firstn_as_map b_a _ Ha). apply grouped_64.
    + pose proof (forallb_seq_nth _ _ _ Ha Hesc) as HF.
      eapply Forall_impl; [|exact HF]. intros i Hi. apply negb_true_iff, Hi.
  - intros Hesc. rewrite strip_ansi_bit_cells_b.
    + rewrite (firstn_as_map b_b _ Hb). apply grouped_64.
    + pose proof (forallb_seq_nth _ _ _ Hb Hesc) as HF.
      eapply Forall_impl; [|exact HF]. intros i Hi. apply negb_true_iff, Hi.
Qed.

Lemma bit_view_lines_witness :
  let b_a := repeat 48 256 in
  let b_b := 49 :: repeat 48 255 in
  (SHOW_BITS <= length b_a)%nat /\ (SHOW_BITS <= length b_b)%nat
  /\ forallb (fun c => negb (c =? ESC)) (firstn SHOW_BITS b_a) = true
  /\ exists lines,
       bit_loop SHOW_BITS b_a b_b (seq 0 SHOW_BITS) no_lines = Ok lines
       /\ carets (bit_diff_line lines) = 1
       /\ strip_ansi (colored_a lines) = join (lit " ") (repeat (lit "00000000") 8).
Proof.
  intros b_a b_b.
  assert (Ha : (SHOW_BITS <= length b_a)%nat) by (vm_compute; lia).
  assert (Hb : (SHOW_BITS <= length b_b)%nat) by (vm_compute; lia).
  assert (He : forallb (fun c => negb (c =? ESC)) (firstn SHOW_BITS b_a) = true)
    by reflexivity.
  destruct (bit_view_lines b_a b_b Ha Hb) as (lines & Hl & Hc & _ & _ & Hca & _).
  split; [exact Ha|]. split; [exact Hb|]. split; [exact He|].
  exists lines. split; [exact Hl|]. split.
  - rewrite Hc. reflexivity.
  - rewrite (Hca He). reflexivity.
Defined.

Lemma bit_iteration_raises show_bits b_a b_b st i :
  (length b_a <= i)%nat \/ (length b_b <= i)%nat ->
  bit_iteration show_bits b_a b_b st i = Raise IndexError.
Proof.
  intros H. unfold bit_iteration, index.
  destruct (nth_error b_a i) eqn:Ea; [|reflexivity].
  destruct (nth_error b_b i) eqn:Eb; [|reflexivity].
  exfalso. destruct H as [H|H].
  - apply nth_error_None in H. congruence.
  - apply nth_error_None in H. congruence.
Qed.

Lemma bit_loop_raises show_bits b_a b_b :
  forall count start st,
    (start <= Nat.min (length b_a) (length b_b))%nat ->
    (Nat.min (length b_a) (length b_b) < start + count)%nat ->
    bit_loop show_bits b_a b_b (seq start count) st = Raise IndexError.
Proof.
  induction count as [|count IH]; intros start st Hlo Hhi; [lia|].
  cbn [seq bit_loop].
  destruct (Nat.eq_dec start (Nat.min (length b_a) (length b_b))) as [E|E].
  - rewrite bit_iteration_raises by lia. reflexivity.
  - rewrite bit_iteration_cells by lia. cbn [bind]. apply IH; lia.
Qed.

(** X12: the binary view needs both strings to reach the drawn prefix.  If
    either bit string is shorter than [show_bits], the display loop raises
    IndexError at the first missing position and no summary line is
    produced; otherwise the view succeeds and its summary reports the count
    over the whole zip of the two strings. *)
Theorem binary_view_index_error (show_bits : nat) (b_a b_b : pystr) :
  ((length b_a < show_bits)%nat \/ (length b_b < show_bits)%nat ->
   binary_view show_bits b_a b_b = Raise IndexError)
  /\ ((show_bits <= length b_a)%nat -> (show_bits <= length b_b)%nat ->
      exists lines,
        binary_view show_bits b_a b_b
        = Ok (lines, bit_summary (bit_diffs_total b_a b_b))).
Proof.
  split.
  - intros H. unfold binary_view.
    rewrite (bit_loop_raises show_bits b_a b_b show_bits 0) by lia. reflexivity.
  - intros Ha Hb. unfold binary_view.
    rewrite bit_loop_cells
      by (apply Forall_forall; intros i Hi; apply in_seq in Hi; lia).
    eexists. reflexivity.
Qed.

Lemma binary_view_index_error_witness :
  ((length (repeat 48 63) < SHOW_BITS)%nat
   \/ (length (repeat 49 256) < SHOW_BITS)%nat)
  /\ binary_view SHOW_BITS (repeat 48 63) (repeat 49 256) = Raise IndexError
  /\ (SHOW_BITS <= length (repeat 48 64))%nat
  /\ exists lines,
       binary_view SHOW_BITS (repeat 48 64) (repeat 48 64)
       = Ok (lines, bit_summary 0).
Proof.
  assert (H : (length (repeat 48 63) < SHOW_BITS)%nat
              \/ (length (repeat 49 256) < SHOW_BITS)%nat)
    by (left; vm_compute; lia).
  assert (H64 : (SHOW_BITS <= length (repeat 48 64))%nat) by (vm_compute; lia).
  destruct (binary_view_index_error SHOW_BITS (repeat 48 63) (repeat 49 256))
    as [Hraise _].
  destruct (binary_view_index_error SHOW_BITS (repeat 48 64) (repeat 48 64))
    as [_ Hok].
  split; [exact H|]. split; [exact (Hraise H)|]. split; [exact H64|].
  destruct (Hok H64 H64) as (lines & Hv). exists lines. rewrite Hv. reflexivity.
Defined.

(* ===================================================================== *)
(** ** demos/avalanche.py: _hex_to_bin *)
(* ===================================================================== *)

Module HexToBin.

(** The value of one base-16 digit character. *)
Definition hex_digit_value (c : Z) : option Z :=
  if (48 <=? c) && (c <=? 57) then Some (c - 48)
  else if (97 <=? c) && (c <=? 102) then Some (c - 87)
  else if (65 <=? c) && (c <=? 70) then Some (c - 55)
  else None.

(** The digits of a text, most significant first, read into an
    accumulator; [None] as soon as a character is not a base-16 digit. *)
Fixpoint hex_value_from (acc : Z) (s : pystr) : option Z :=
  match s with
  | [] => Some acc
  | c :: t =>
      match hex_digit_value c with
      | Some d => hex_value_from (16 * acc + d) t
      | None => None
      end
  end.

(** [int(s, 16)] on the texts the lab passes to it.  The empty text raises
    ValueError.  A non-empty run of base-16 digits has its value.  For any
    other text the model answers [None]: there [int] either raises
    ValueError or accepts a spelling (sign, 0x prefix, underscores,
    surrounding blanks) that a digest never has. *)
Definition int16 (s : pystr) : option (result Z) :=
  match s with
  | [] => Some (Raise ValueError)
  | _ => match hex_value_from 0 s with
         | Some v => Some (Ok v)
         | None => None
         end
  end.

Fixpoint bits_of_pos (p : positive) : pystr :=
  match p with
  | xH => [49]
  | xO p' => bits_of_pos p' ++ [48]
  | xI p' => bits_of_pos p' ++ [49]
  end.

(** [bin(n)]. *)
Definition bin (n : Z) : pystr :=
  match n with
  | Z0 => lit "0b0"
  | Zpos p => lit "0b" ++ bits_of_pos p
  | Zneg p => lit "-0b" ++ bits_of_pos p
  end.

(** [s.zfill(width)]: zeros on the left, after a leading sign if any. *)
Definition zfill (s : pystr) (width : Z) : pystr :=
  let fill := str_mul [48] (width - len s) in
  match s with
  | c :: t => if (c =? 43) || (c =? 45) then c :: fill ++ t else fill ++ s
  | [] => fill
  end.

(** [bin(int(hex_str, 16))[2:].zfill(len(hex_str) * 4)]. *)
Definition _hex_to_bin (hex_str : pystr) : option (result pystr) :=
  match int16 hex_str with
  | Some (Ok n) => Some (Ok (zfill (skipn 2 (bin n)) (len hex_str * 4)))
  | Some (Raise e) => Some (Raise e)
  | None => None
  end.

End HexToBin.

Import HexToBin.

(** The four bits of a digit value, most significant first. *)
Definition nibble_bits (d : Z) : pystr :=
  [48 + (d / 8) mod 2; 48 + (d / 4) mod 2; 48 + (d / 2) mod 2; 48 + d mod 2].

(** The four bits of a digit character ([] if it is not a digit). *)
Definition char_bits (c : Z) : pystr :=
  match hex_digit_value c with
  | Some d => nibble_bits d
  | None => []
  end.

Definition is_hex_digit (c : Z) : bool :=
  match hex_digit_value c with Some _ => true | None => false end.

(** The binary numeral of [v] on exactly [w] digits. *)
Fixpoint bits_width (w : nat) (v : Z) : pystr :=
  match w with
  | O => []
  | S w' => bits_width w' (v / 2) ++ [48 + v mod 2]
  end.

Example hex_to_bin_ex : _hex_to_bin (lit "0a3f") = Some (Ok (lit "0000101000111111")).
Proof. reflexivity. Qed.

Lemma str_mul1_repeat c n : str_mul [c] n = repeat c (Z.to_nat n).
Proof.
  unfold str_mul. induction (Z.to_nat n) as [|k IH]; simpl; [|rewrite IH]; reflexivity.
Qed.

Lemma bits_width_zero w : bits_width w 0 = repeat 48 w.
Proof.
  induction w as [|w IH]; [reflexivity|].
  cbn [bits_width]. change (0 / 2) with 0. rewrite IH.
  change [48 + 0 mod 2] with [48]. symmetry. apply repeat_cons.
Qed.

Lemma bits_of_pos_head p : exists t, bits_of_pos p = 49 :: t.
Proof.
  induction p as [p [t IH]|p [t IH]|]; cbn [bits_of_pos];
    [rewrite IH | rewrite IH |]; eexists; reflexivity.
Qed.

Lemma bits_width_pos p : forall w,
  Z.pos p < 2 ^ Z.of_nat w ->
  (length (bits_of_pos p) <= w)%nat
  /\ bits_width w (Z.pos p) = repeat 48 (w - length (bits_of_pos p)) ++ bits_of_pos p.
Proof.
  induction p as [p IH|p IH|]; intros w Hw;
    (destruct w as [|w]; [simpl in Hw; lia|]);
    rewrite Nat2Z.inj_succ, Z.pow_succ_r in Hw by lia;
    cbn [bits_width bits_of_pos].
  - rewrite (Pos2Z.inj_xI p) in *.
    replace ((2 * Z.pos p + 1) / 2) with (Z.pos p) by (Z.div_mod_to_equations; lia).
    replace ((2 * Z.pos p + 1) mod 2) with 1 by (Z.div_mod_to_equations; lia).
    destruct (IH w ltac:(lia)) as [Hl E]. rewrite E, length_app. cbn [length].
    split; [lia|]. rewrite <- app_assoc. do 2 f_equal. lia.
  - rewrite (Pos2Z.inj_xO p) in *.
    replace ((2 * Z.pos p) / 2) with (Z.pos p) by (Z.div_mod_to_equations; lia).
    replace ((2 * Z.pos p) mod 2) with 0 by (Z.div_mod_to_equations; lia).
    destruct (IH w ltac:(lia)) as [Hl E]. rewrite E, length_app. cbn [length].
    split; [lia|]. rewrite <- app_assoc. do 2 f_equal. lia.
  - change (1 / 2) with 0. rewrite bits_width_zero. cbn [length].
    split; [lia|]. replace (S w - 1)%nat with w by lia. reflexivity.
Qed.

(** [bin(v)[2:].zfill(w)] is the numeral of [v] on [w] binary digits. *)
Lemma zfill_bin v w :
  0 <= v < 2 ^ Z.of_nat w -> (1 <= w)%nat ->
  zfill (skipn 2 (bin v)) (Z.of_nat w) = bits_width w v.
Proof.
  intros Hv Hw. destruct v as [|p|p]; [| |lia].
  - cbn [bin]. change (skipn 2 (lit "0b0")) with [48]. unfold zfill.
    change ((48 =? 43) || (48 =? 45)) with false. cbv iota.
    rewrite str_mul1_repeat, bits_width_zero.
    change (len [48]) with 1.
    replace (Z.to_nat (Z.of_nat w - 1)) with (w - 1)%nat by lia.
    destruct w as [|w]; [lia|]. cbn [Nat.sub]. rewrite Nat.sub_0_r.
    symmetry. apply repeat_cons.
  - cbn [bin]. change (skipn 2 (lit "0b" ++ bits_of_pos p)) with (bits_of_pos p).
    destruct (bits_width_pos p w (proj2 Hv)) as [Hl E]. rewrite E.
    unfold zfill. destruct (bits_of_pos_head p) as (t & Ht). rewrite Ht in *.
    change ((49 =? 43) || (49 =? 45)) with false. cbv iota.
    rewrite str_mul1_repeat. unfold len.
    replace (Z.to_nat (Z.of_nat w - Z.of_nat (length (49 :: t))))
      with (w - length (49%Z :: t))%nat by lia.
    reflexivity.
Qed.

Lemma hex_digit_value_range c d : hex_digit_value c = Some d -> 0 <= d < 16.
Proof.
  unfold hex_digit_value.
  destruct ((48 <=? c) && (c <=? 57)) eqn:E1;
    [|destruct ((97 <=? c) && (c <=? 102)) eqn:E2;
      [|destruct ((65 <=? c) && (c <=? 70)) eqn:E3]];
    intros H; inversion H; subst; lia.
Qed.

Lemma hex_value_from_app s c : forall acc,
  hex_value_from acc (s ++ [c])
  = match hex_value_from acc s with
    | Some v => match hex_digit_value c with
                | Some d => Some (16 * v + d)
                | None => None
                end
    | None => None
    end.
Proof.
  induction s as [|x s IH]; intros acc; cbn [app hex_value_from].
  - destruct (hex_digit_value c); reflexivity.
  - destruct (hex_digit_value x); [apply IH | reflexivity].
Qed.

Lemma bits_width_nibble w v d :
  0 <= d < 16 ->
  bits_width (S (S (S (S w)))) (16 * v + d) = bits_width w v ++ nibble_bits d.
Proof.
  intros Hd. cbn [bits_width].
  assert (E4 : (16 * v + d) / 2 / 2 / 2 / 2 = v) by (Z.div_mod_to_equations; lia).
  assert (E3 : ((16 * v + d) / 2 / 2 / 2) mod 2 = (d / 8) mod 2)
    by (Z.div_mod_to_equations; lia).
  assert (E2 : ((16 * v + d) / 2 / 2) mod 2 = (d / 4) mod 2)
    by (Z.div_mod_to_equations; lia).
  assert (E1 : ((16 * v + d) / 2) mod 2 = (d / 2) mod 2)
    by (Z.div_mod_to_equations; lia).
  assert (E0 : (16 * v + d) mod 2 = d mod 2) by (Z.div_mod_to_equations; lia).
  rewrite E4, E3, E2, E1, E0.
  unfold nibble_bits. rewrite <- !app_assoc. reflexivity.
Qed.

(** The value of a run of digits, its size, and its numeral digit by
    digit. *)
Lemma hex_value_spec s :
  forallb is_hex_digit s = true ->
  exists v,
    hex_value_from 0 s = Some v
    /\ 0 <= v < 2 ^ Z.of_nat (4 * length s)
    /\ bits_width (4 * length s) v = concat (map char_bits s).
Proof.
  induction s as [|c s IH] using rev_ind; intros H.
  - exists 0. repeat split; simpl; lia.
  - rewrite forallb_app in H. apply andb_true_iff in H as [Hs Hc].
    cbn [forallb] in Hc. rewrite andb_true_r in Hc.
    destruct (IH Hs) as (v & Hv & Hb & Hw).
    unfold is_hex_digit in Hc. destruct (hex_digit_value c) as [d|] eqn:Ed;
      [|discriminate].
    pose proof (hex_digit_value_range _ _ Ed) as Hd.
    exists (16 * v + d). rewrite hex_value_from_app, Hv, Ed.
    rewrite length_app. cbn [length].
    replace (4 * (length s + 1))%nat with (S (S (S (S (4 * length s))))) by lia.
    split; [reflexivity|]. split.
    + rewrite !Nat2Z.inj_succ, !Z.pow_succ_r by lia. lia.
    + rewrite bits_width_nibble by exact Hd. rewrite Hw, map_app, concat_app.
      cbn [map concat]. unfold char_bits. rewrite Ed, app_nil_r. reflexivity.
Qed.

Lemma len_char_bits s :
  forallb is_hex_digit s = true ->
  len (concat (map char_bits s)) = 4 * len s
  /\ forallb (fun c => (c =? 48) || (c =? 49)) (concat (map char_bits s)) = true.
Proof.
  induction s as [|c s IH]; intros H; [split; reflexivity|].
  cbn [forallb] in H. apply andb_true_iff in H as [Hc Hs].
  destruct (IH Hs) as [Hl Hb]. cbn [map concat].
  unfold is_hex_digit in Hc. unfold char_bits at 1 3.
  destruct (hex_digit_value c) as [d|] eqn:Ed; [|discriminate].
  pose proof (hex_digit_value_range _ _ Ed) as Hd.
  split.
  - rewrite len_app, Hl. unfold len. cbn [length nibble_bits]. lia.
  - rewrite forallb_app, Hb, andb_true_r. unfold nibble_bits. cbn [forallb].
    assert (Hbit : forall x, (48 + x mod 2 =? 48) || (48 + x mod 2 =? 49) = true).
    { intros x. pose proof (Z.mod_pos_bound x 2 ltac:(lia)).
      destruct (Z.eq_dec (x mod 2) 0) as [->| ]; [reflexivity|].
      replace (x mod 2) with 1 by lia. reflexivity. }
    rewrite !Hbit. reflexivity.
Qed.

Lemma hex_to_bin_digits (hex_str : pystr) :
  hex_str <> [] -> forallb is_hex_digit hex_str = true ->
  _hex_to_bin hex_str = Some (Ok (concat (map char_bits hex_str))).
Proof.
  intros Hne Hhex.
  destruct (hex_value_spec _ Hhex) as (v & Hv & Hb & Hw).
  unfold _hex_to_bin, int16. destruct hex_str as [|c s]; [congruence|].
  rewrite Hv. do 2 f_equal.
  replace (len (c :: s) * 4) with (Z.of_nat (4 * length (c :: s)))
    by (unfold len; lia).
  rewrite zfill_bin; [exact Hw | exact Hb | simpl; lia].
Qed.

(** X13: [_hex_to_bin] expands a digest digit by digit.  For a non-empty
    text of base-16 digits (either case) the result is the concatenation of
    the four bits of each digit, in order: it has exactly 4 characters per
    digit, all '0' or '1', leading zero digits included.  The empty text
    raises ValueError. *)
Theorem hex_to_bin_expands (hex_str : pystr) :
  (hex_str <> [] -> forallb is_hex_digit hex_str = true ->
   _hex_to_bin hex_str = Some (Ok (concat (map char_bits hex_str)))
   /\ len (concat (map char_bits hex_str)) = 4 * len hex_str
   /\ forallb (fun c => (c =? 48) || (c =? 49)) (concat (map char_bits hex_str)) = true)
  /\ _hex_to_bin [] = Some (Raise ValueError).
Proof.
  split; [|reflexivity]. intros Hne Hhex.
  destruct (len_char_bits _ Hhex) as [Hl Hbits].
  split; [apply hex_to_bin_digits; assumption | split; assumption].
Qed.

Lemma hex_to_bin_expands_witness :
  lit "0a3F" <> [] /\ forallb is_hex_digit (lit "0a3F") = true
  /\ _hex_to_bin (lit "0a3F") = Some (Ok (lit "0000101000111111")).
Proof.
  assert (Hne : lit "0a3F" <> []) by discriminate.
  assert (Hhex : forallb is_hex_digit (lit "0a3F") = true) by reflexivity.
  destruct (hex_to_bin_expands (lit "0a3F")) as [H _].
  destruct (H Hne Hhex) as (E & _).
  split; [exact Hne|]. split; [exact Hhex|]. rewrite E. reflexivity.
Defined.

(** *** Hex digits against their bits *)

(** A digit as [hexdigest()] writes it: 0-9 or a-f. *)
Definition is_lower_hex (c : Z) : bool :=
  ((48 <=? c) && (c <=? 57)) || ((97 <=? c) && (c <=? 102)).

Lemma combine_app_same_length {A B : Type} (x : list A) (y : list B) a b :
  length x = length y -> combine (x ++ a) (y ++ b) = combine x y ++ combine a b.
Proof.
  revert y. induction x as [|u x IH]; intros [|v y] H; try discriminate; [reflexivity|].
  simpl. rewrite IH by (simpl in H; lia). reflexivity.
Qed.

Lemma count_diffs_app x y a b :
  length x = length y ->
  count_diffs (x ++ a) (y ++ b) = count_diffs x y + count_diffs a b.
Proof.
  intros H. rewrite !count_diffs_length, combine_app_same_length by exact H.
  rewrite filter_app, len_app. reflexivity.
Qed.

Lemma count_diffs_nibbles d1 d2 :
  0 <= d1 < 16 -> 0 <= d2 < 16 ->
  0 <= count_diffs (nibble_bits d1) (nibble_bits d2) <= 4
  /\ (d1 <> d2 -> 1 <= count_diffs (nibble_bits d1) (nibble_bits d2)).
Proof.
  intros H1 H2. rewrite count_diffs_length. unfold nibble_bits, len.
  cbn [combine filter fst snd].
  destruct (Z.eqb_spec (48 + (d1 / 8) mod 2) (48 + (d2 / 8) mod 2)) as [E3|E3];
  destruct (Z.eqb_spec (48 + (d1 / 4) mod 2) (48 + (d2 / 4) mod 2)) as [E2|E2];
  destruct (Z.eqb_spec (48 + (d1 / 2) mod 2) (48 + (d2 / 2) mod 2)) as [E1|E1];
  destruct (Z.eqb_spec (48 + d1 mod 2) (48 + d2 mod 2)) as [E0|E0];
    cbn [negb length]; (split; [lia|]); intros Hne; try lia.
  exfalso. apply Hne. clear Hne. Z.div_mod_to_equations. lia.
Qed.

Lemma lower_hex_value_inj c1 c2 d1 d2 :
  is_lower_hex c1 = true -> is_lower_hex c2 = true ->
  hex_digit_value c1 = Some d1 -> hex_digit_value c2 = Some d2 ->
  c1 <> c2 -> d1 <> d2.
Proof.
  unfold is_lower_hex, hex_digit_value. intros L1 L2.
  destruct ((48 <=? c1) && (c1 <=? 57)) eqn:A1;
    destruct ((48 <=? c2) && (c2 <=? 57)) eqn:A2;
    cbn [orb] in L1, L2; try rewrite L1; try rewrite L2;
    intros E1 E2; inversion E1; inversion E2; subst; lia.
Qed.

Lemma hex_vs_bits h_a : forall h_b,
  length h_a = length h_b ->
  forallb is_hex_digit h_a = true -> forallb is_hex_digit h_b = true ->
  count_diffs (concat (map char_bits h_a)) (concat (map char_bits h_b))
  <= 4 * count_diffs h_a h_b
  /\ (forallb is_lower_hex h_a = true -> forallb is_lower_hex h_b = true ->
      count_diffs h_a h_b
      <= count_diffs (concat (map char_bits h_a)) (concat (map char_bits h_b))).
Proof.
  induction h_a as [|c1 h_a IH]; intros [|c2 h_b] Hlen Ha Hb; try discriminate.
  - split; [reflexivity | intros _ _; reflexivity].
  - injection Hlen as Hlen. cbn [forallb] in Ha, Hb.
    apply andb_true_iff in Ha as [Hc1 Ha]. apply andb_true_iff in Hb as [Hc2 Hb].
    destruct (IH h_b Hlen Ha Hb) as [Hup Hlow].
    unfold is_hex_digit in Hc1, Hc2.
    destruct (hex_digit_value c1) as [d1|] eqn:E1; [|discriminate].
    destruct (hex_digit_value c2) as [d2|] eqn:E2; [|discriminate].
    pose proof (hex_digit_value_range _ _ E1) as R1.
    pose proof (hex_digit_value_range _ _ E2) as R2.
    destruct (count_diffs_nibbles d1 d2 R1 R2) as [Hn Hn1].
    cbn [map concat]. unfold char_bits at 1 3 5 7. rewrite E1, E2.
    rewrite !count_diffs_app by reflexivity.
    assert (Hhead : count_diffs (c1 :: h_a) (c2 :: h_b)
                    = (if c1 =? c2 then 0 else 1) + count_diffs h_a h_b).
    { rewrite !count_diffs_length. cbn [combine filter fst snd].
      destruct (c1 =? c2); cbn [negb]; unfold len; cbn [length]; lia. }
    rewrite Hhead. split.
    + destruct (Z.eqb_spec c1 c2) as [->|Hne].
      * rewrite E1 in E2. injection E2 as <-.
        rewrite count_diffs_same. lia.
      * lia.
    + intros La Lb. cbn [forallb] in La, Lb.
      apply andb_true_iff in La as [L1 La]. apply andb_true_iff in Lb as [L2 Lb].
      specialize (Hlow La Lb).
      destruct (Z.eqb_spec c1 c2) as [->|Hne]; [lia|].
      pose proof (lower_hex_value_inj _ _ _ _ L1 L2 E1 E2 Hne) as Hd.
      specialize (Hn1 Hd). lia.
Qed.

(** X14: the hex view and the binary view of two digests agree.  For two
    non-empty digests of one length, [_hex_to_bin] gives two bit strings of
    four times that length; the number of differing bits is at most four
    times the number of differing hex digits, and for lower-case digests
    (as [hexdigest()] writes them) at least that number.  From 16 digits on
    the binary view of the two bit strings never raises. *)
Theorem hex_and_bit_views_agree (h_a h_b : pystr) :
  h_a <> [] -> length h_a = length h_b ->
  forallb is_hex_digit h_a = true -> forallb is_hex_digit h_b = true ->
  exists b_a b_b,
    _hex_to_bin h_a = Some (Ok b_a) /\ _hex_to_bin h_b = Some (Ok b_b)
    /\ len b_a = 4 * len h_a /\ len b_b = 4 * len h_a
    /\ bit_diffs_total b_a b_b <= 4 * hex_diffs h_a h_b
    /\ (forallb is_lower_hex h_a = true -> forallb is_lower_hex h_b = true ->
        hex_diffs h_a h_b <= bit_diffs_total b_a b_b)
    /\ (16 <= len h_a ->
        exists lines,
          binary_view SHOW_BITS b_a b_b
          = Ok (lines, bit_summary (bit_diffs_total b_a b_b))).
Proof.
  intros Hne Hlen Ha Hb.
  assert (Hne' : h_b <> []) by (destruct h_a, h_b; try discriminate; congruence).
  exists (concat (map char_bits h_a)), (concat (map char_bits h_b)).
  destruct (len_char_bits _ Ha) as [La _]. destruct (len_char_bits _ Hb) as [Lb _].
  destruct (hex_vs_bits h_a h_b Hlen Ha Hb) as [Hup Hlow].
  unfold hex_diffs, bit_diffs_total. rewrite hex_loop_spec. cbn [snd].
  split; [apply hex_to_bin_digits; assumption|].
  split; [apply hex_to_bin_digits; assumption|].
  split; [exact La|]. split; [rewrite Lb; unfold len; lia|].
  split; [exact Hup|]. split; [exact Hlow|].
  intros H16. unfold binary_view.
  rewrite bit_loop_cells.
  - eexists. reflexivity.
  - apply Forall_forall. intros i Hi. apply in_seq in Hi.
    unfold len, SHOW_BITS in *. lia.
Qed.

Lemma hex_and_bit_views_agree_witness :
  let h_a := lit "3a7f00000000000e" in
  let h_b := lit "3b7f00000000000f" in
  h_a <> [] /\ length h_a = length h_b
  /\ forallb is_hex_digit h_a = true /\ forallb is_hex_digit h_b = true
  /\ forallb is_lower_hex h_a = true /\ forallb is_lower_hex h_b = true
  /\ 16 <= len h_a
  /\ exists b_a b_b,
       _hex_to_bin h_a = Some (Ok b_a) /\ _hex_to_bin h_b = Some (Ok b_b)
       /\ len b_a = 64
       /\ hex_diffs h_a h_b <= bit_diffs_total b_a b_b <= 4 * hex_diffs h_a h_b
       /\ exists lines,
            binary_view SHOW_BITS b_a b_b
            = Ok (lines, bit_summary (bit_diffs_total b_a b_b)).
Proof.
  intros h_a h_b.
  assert (Hne : h_a <> []) by discriminate.
  assert (Hlen : length h_a = length h_b) by reflexivity.
  assert (Ha : forallb is_hex_digit h_a = true) by reflexivity.
  assert (Hb : forallb is_hex_digit h_b = true) by reflexivity.
  assert (La : forallb is_lower_hex h_a = true) by reflexivity.
  assert (Lb : forallb is_lower_hex h_b = true) by reflexivity.
  assert (H16 : 16 <= len h_a) by (vm_compute; discriminate).
  destruct (hex_and_bit_views_agree h_a h_b Hne Hlen Ha Hb)
    as (b_a & b_b & Ea & Eb & Hla & _ & Hup & Hlow & Hview).
  repeat (split; [assumption|]).
  exists b_a, b_b. split; [exact Ea|]. split; [exact Eb|].
  split; [rewrite Hla; reflexivity|].
  split; [split; [exact (Hlow La Lb) | exact Hup] | exact (Hview H16)].
Defined.

(* ===================================================================== *)
(** ** demos/toy_hash.py and demos/collisions.py: the bucket loops

    Both lessons keep a list of buckets, read words from the prompt and
    append each word to the bucket its hash names.  The loops are modelled
    over the list of answers the prompt returns; what is kept is the state
    (buckets, counters, the collision flags shown) and the tables drawn by
    [draw_buckets].  The narration printed around them is left out. *)
(* ===================================================================== *)

Module Demos.

(** [[[] for _ in range(n)]]: [n] distinct empty buckets. *)
Definition empty_buckets (n : Z) : list (list pystr) := repeat [] (Z.to_nat n).

(** The position [l[idx]] reads: negative indices count from the end,
    anything outside raises IndexError. *)
Definition list_pos {A : Type} (l : list A) (idx : Z) : result nat :=
  if (0 <=? idx) && (idx <? len l) then Ok (Z.to_nat idx)
  else if (- len l <=? idx) && (idx <? 0) then Ok (Z.to_nat (len l + idx))
  else Raise IndexError.

(** [buckets[pos].append(word)] for a valid position. *)
Definition append_to (buckets : list (list pystr)) (pos : nat) (word : pystr)
  : list (list pystr) :=
  firstn pos buckets ++ (nth pos buckets [] ++ [word]) :: skipn (S pos) buckets.

(** [word.lower() == "q" or word == ""]: the only texts whose lower case
    is "q" are "q" and "Q". *)
Definition is_quit (word : pystr) : bool :=
  match word with
  | [] => true
  | [c] => (c =? 113) || (c =? 81)
  | _ => false
  end.

(** How a loop run ends: the answers ran out while the prompt waits, the
    user left, a collision ended the game, or an exception escaped. *)
Inductive ending : Type :=
| Waiting
| Quit
| Collision
| Crash (e : pyexc).

(** *** Demo 1 (toy_hash.py) *)

Definition NUM_BUCKETS_1 : Z := 8.

Record lab1 : Type := {
  buckets1 : list (list pystr);
  collisions1 : list bool;           (* the [collision] flag of each word *)
  drawn1 : list (list pystr)         (* the tables drawn, one per round *)
}.

Definition start1 : lab1 :=
  {| buckets1 := empty_buckets NUM_BUCKETS_1; collisions1 := []; drawn1 := [] |}.

(** [total = 0; for ch in word: total += ord(ch)]. *)
Definition running_total (word : pystr) : Z :=
  fold_left (fun total ch => total + ord ch) word 0.

Fixpoint run1 (answers : list pystr) (s : lab1) : ending * lab1 :=
  let s := {| buckets1 := buckets1 s; collisions1 := collisions1 s;
              drawn1 := drawn1 s ++ [draw_buckets (buckets1 s) None] |} in
  match answers with
  | [] => (Waiting, s)
  | word :: rest =>
      if is_quit word then (Quit, s)
      else
        let total := running_total word in
        let idx := total mod NUM_BUCKETS_1 in
        match list_pos (buckets1 s) idx with
        | Raise e => (Crash e, s)
        | Ok pos =>
            let collision := 0 <? len (nth pos (buckets1 s) []) in
            run1 rest
              {| buckets1 := append_to (buckets1 s) pos word;
                 collisions1 := collisions1 s ++ [collision];
                 drawn1 := drawn1 s |}
        end
  end.

(** *** Demo 2 (collisions.py) *)

Definition NUM_BUCKETS_2 : Z := 5.

Record game : Type := {
  buckets : list (list pystr);
  attempts : Z;
  found : bool;
  drawn : list (list pystr)
}.

Definition start2 : game :=
  {| buckets := empty_buckets NUM_BUCKETS_2; attempts := 0; found := false;
     drawn := [] |}.

Fixpoint run2 (answers : list pystr) (g : game) : ending * game :=
  let g := {| buckets := buckets g; attempts := attempts g; found := found g;
              drawn := drawn g ++ [draw_buckets (buckets g) None] |} in
  match answers with
  | [] => (Waiting, g)
  | word :: rest =>
      if is_quit word then (Quit, g)
      else
        match toy_hash word NUM_BUCKETS_2 with
        | Raise e => (Crash e, g)
        | Ok idx =>
            let attempts' := attempts g + 1 in
            match list_pos (buckets g) idx with
            | Raise e =>
                (Crash e, {| buckets := buckets g; attempts := attempts';
                             found := found g; drawn := drawn g |})
            | Ok pos =>
                let buckets' := append_to (buckets g) pos word in
                if truthy (nth pos (buckets g) [])
                then
                  (Collision,
                   {| buckets := buckets'; attempts := attempts'; found := true;
                      drawn := drawn g ++ [draw_buckets buckets' (Some idx)] |})
                else
                  run2 rest
                    {| buckets := buckets'; attempts := attempts';
                       found := found g; drawn := drawn g |}
            end
        end
  end.

End Demos.

Import Demos.

Example run1_ex :
  buckets1 (snd (run1 [lit "Cat"; lit "Act"; lit "Dog"] start1))
  = [[lit "Cat"; lit "Act"]; []; [lit "Dog"]; []; []; []; []; []]
  /\ collisions1 (snd (run1 [lit "Cat"; lit "Act"; lit "Dog"] start1))
     = [false; true; false].
Proof. split; reflexivity. Qed.

Example run2_ex :
  fst (run2 [lit "Cat"; lit "Dog"; lit "Act"; lit "x"] start2) = Collision
  /\ attempts (snd (run2 [lit "Cat"; lit "Dog"; lit "Act"; lit "x"] start2)) = 3.
Proof. split; reflexivity. Qed.

(** *** Where the words go *)

(** The bucket position of a word among [n] buckets. *)
Definition bucket_of (n : Z) (word : pystr) : nat :=
  Z.to_nat (sum_code_points word mod n).

(** The words of [ws] that belong to each of [n] buckets, in the order of
    [ws]. *)
Definition distribute (n : Z) (ws : list pystr) : list (list pystr) :=
  map (fun i => filter (fun w => Nat.eqb (bucket_of n w) i) ws) (seq 0 (Z.to_nat n)).

(** For each word, whether an earlier word (or one of [seen]) shares its
    bucket. *)
Fixpoint repeats (n : Z) (seen ws : list pystr) : list bool :=
  match ws with
  | [] => []
  | w :: rest =>
      existsb (fun w' => Nat.eqb (bucket_of n w') (bucket_of n w)) seen
        :: repeats n (seen ++ [w]) rest
  end.

(** The answers played before the user leaves. *)
Fixpoint played (answers : list pystr) : list pystr :=
  match answers with
  | [] => []
  | word :: rest => if is_quit word then [] else word :: played rest
  end.

Lemma bucket_of_lt n word : 0 < n -> (bucket_of n word < Z.to_nat n)%nat.
Proof.
  intros H. unfold bucket_of.
  pose proof (Z.mod_pos_bound (sum_code_points word) n H). lia.
Qed.

Lemma toy_hash_bucket_of n word :
  0 < n -> toy_hash word n = Ok (Z.of_nat (bucket_of n word)).
Proof.
  intros H. rewrite toy_hash_nonzero by lia. unfold bucket_of.
  pose proof (Z.mod_pos_bound (sum_code_points word) n H).
  rewrite Z2Nat.id by lia. reflexivity.
Qed.

Lemma running_total_sum word : running_total word = sum_code_points word.
Proof.
  unfold running_total, sum_code_points, ord.
  assert (E : forall acc, fold_left (fun total ch => total + ch) word acc
                          = acc + fold_right Z.add 0 word).
  { induction word as [|c word IH]; intros acc; simpl; [lia|]. rewrite IH. lia. }
  rewrite E. lia.
Qed.

Lemma length_distribute n ws : length (distribute n ws) = Z.to_nat n.
Proof. unfold distribute. rewrite length_map, length_seq. reflexivity. Qed.

Lemma nth_distribute n ws i :
  (i < Z.to_nat n)%nat ->
  nth i (distribute n ws) [] = filter (fun w => Nat.eqb (bucket_of n w) i) ws.
Proof.
  intros H. unfold distribute.
  rewrite (nth_indep _ [] (filter (fun w => Nat.eqb (bucket_of n w) 0%nat) ws))
    by (rewrite length_map, length_seq; exact H).
  rewrite (map_nth (fun i => filter (fun w => Nat.eqb (bucket_of n w) i) ws)).
  rewrite seq_nth by exact H. reflexivity.
Qed.

Lemma list_pos_distribute n ws word :
  0 < n -> list_pos (distribute n ws) (Z.of_nat (bucket_of n word)) = Ok (bucket_of n word).
Proof.
  intros H. unfold list_pos, len. rewrite length_distribute.
  pose proof (bucket_of_lt n word H).
  assert (E : (0 <=? Z.of_nat (bucket_of n word))
              && (Z.of_nat (bucket_of n word) <? Z.of_nat (Z.to_nat n)) = true)
    by (apply andb_true_iff; split; [apply Z.leb_le | apply Z.ltb_lt]; lia).
  rewrite E, Nat2Z.id. reflexivity.
Qed.

(** Appending a word to its bucket is distributing one more word. *)
Lemma append_to_distribute n ws word :
  0 < n ->
  append_to (distribute n ws) (bucket_of n word) word = distribute n (ws ++ [word]).
Proof.
  intros H. pose proof (bucket_of_lt n word H) as Hlt.
  apply (nth_ext _ _ [] []).
  - unfold append_to. rewrite length_app. cbn [length].
    rewrite length_firstn, length_skipn, !length_distribute. lia.
  - intros i Hi.
    assert (Hi' : (i < Z.to_nat n)%nat).
    { unfold append_to in Hi. rewrite length_app in Hi. cbn [length] in Hi.
      rewrite length_firstn, length_skipn, !length_distribute in Hi. lia. }
    rewrite (nth_distribute n (ws ++ [word]) i Hi'), filter_app. cbn [filter].
    unfold append_to.
    destruct (Nat.lt_trichotomy i (bucket_of n word)) as [Hc|[Hc|Hc]].
    + rewrite app_nth1 by (rewrite length_firstn, length_distribute; lia).
      rewrite nth_firstn. replace (i <? bucket_of n word)%nat with true
        by (symmetry; apply Nat.ltb_lt; exact Hc).
      rewrite nth_distribute by exact Hi'.
      replace (Nat.eqb (bucket_of n word) i) with false
        by (symmetry; apply Nat.eqb_neq; lia).
      rewrite app_nil_r. reflexivity.
    + subst i.
      rewrite app_nth2 by (rewrite length_firstn, length_distribute; lia).
      rewrite length_firstn, length_distribute.
      replace (bucket_of n word - Nat.min (bucket_of n word) (Z.to_nat n))%nat
        with 0%nat by lia.
      cbn [nth]. rewrite nth_distribute by exact Hi'.
      rewrite Nat.eqb_refl. reflexivity.
    + rewrite app_nth2 by (rewrite length_firstn, length_distribute; lia).
      rewrite length_firstn, length_distribute.
      replace (i - Nat.min (bucket_of n word) (Z.to_nat n))%nat
        with (S (i - S (bucket_of n word))) by lia.
      cbn [nth]. rewrite nth_skipn.
      replace (S (bucket_of n word) + (i - S (bucket_of n word)))%nat with i by lia.
      rewrite nth_distribute by exact Hi'.
      replace (Nat.eqb (bucket_of n word) i) with false
        by (symmetry; apply Nat.eqb_neq; lia).
      rewrite app_nil_r. reflexivity.
Qed.

Lemma distribute_nil n : distribute n [] = empty_buckets n.
Proof.
  unfold distribute, empty_buckets. cbn [filter].
  generalize 0%nat. induction (Z.to_nat n) as [|k IH]; intros start; [reflexivity|].
  cbn [seq map repeat]. rewrite IH. reflexivity.
Qed.

Lemma occupied_iff_repeat n seen word :
  0 < n ->
  truthy (nth (bucket_of n word) (distribute n seen) [])
  = existsb (fun w' => Nat.eqb (bucket_of n w') (bucket_of n word)) seen.
Proof.
  intros H. rewrite nth_distribute by (apply bucket_of_lt, H).
  induction seen as [|w seen IH]; [reflexivity|].
  cbn [filter existsb]. destruct (Nat.eqb (bucket_of n w) (bucket_of n word));
    [reflexivity | exact IH].
Qed.

Lemma positive_len_truthy {A : Type} (l : list A) : (0 <? len l) = truthy l.
Proof.
  destruct l; [reflexivity|]. unfold len. cbn [length truthy].
  apply Z.ltb_lt. lia.
Qed.

(** Demo 1 from any reachable state. *)
Lemma run1_from answers : forall seen flags tables,
  run1 answers {| buckets1 := distribute NUM_BUCKETS_1 seen;
                  collisions1 := flags; drawn1 := tables |}
  = (if existsb is_quit answers then Quit else Waiting,
     {| buckets1 := distribute NUM_BUCKETS_1 (seen ++ played answers);
        collisions1 := flags ++ repeats NUM_BUCKETS_1 seen (played answers);
        drawn1 :=
          tables
            ++ map (fun k => draw_buckets
                               (distribute NUM_BUCKETS_1
                                  (seen ++ firstn k (played answers))) None)
                 (seq 0 (S (length (played answers)))) |}).
Proof.
  assert (H8 : 0 < NUM_BUCKETS_1) by reflexivity.
  induction answers as [|word rest IH]; intros seen flags tables.
  - cbn [run1 existsb played buckets1 collisions1 drawn1 length seq map firstn repeats].
    rewrite !app_nil_r. reflexivity.
  - cbn [run1 existsb played buckets1 collisions1 drawn1].
    destruct (is_quit word) eqn:Eq; cbn [orb].
    + cbn [length seq map firstn repeats]. rewrite !app_nil_r. reflexivity.
    + rewrite running_total_sum.
      replace (sum_code_points word mod NUM_BUCKETS_1)
        with (Z.of_nat (bucket_of NUM_BUCKETS_1 word))
        by (unfold bucket_of;
            pose proof (Z.mod_pos_bound (sum_code_points word) NUM_BUCKETS_1 H8); lia).
      rewrite list_pos_distribute by exact H8.
      rewrite append_to_distribute by exact H8.
      rewrite IH. rewrite positive_len_truthy, occupied_iff_repeat by exact H8.
      cbn [repeats length]. rewrite <- !app_assoc. cbn [app].
      f_equal. f_equal. f_equal.
      replace (seq 0 (S (S (length (played rest)))))
        with (0%nat :: map S (seq 0 (S (length (played rest)))))
        by (rewrite seq_shift; reflexivity).
      cbn [map firstn]. rewrite app_nil_r, map_map. f_equal.
      apply map_ext. intros k. cbn [firstn]. rewrite <- app_assoc. reflexivity.
Qed.

(** X15: Demo 1 never loses or misplaces a word.  Whatever the user
    types, the loop ends only by the user leaving (or waits for more
    input), never by an exception; every bucket then holds exactly the
    words typed whose [toy_hash] (with 8 buckets) is its index, in the
    order they were typed, so the sum shown step by step agrees with
    [toy_hash]; the "Collision!" result was shown for a word exactly when
    an earlier word had the same hash; and one table was drawn per word
    plus one. *)
Theorem run1_places_every_word (answers : list pystr) :
  let ws := played answers in
  let final := snd (run1 answers start1) in
  fst (run1 answers start1) = (if existsb is_quit answers then Quit else Waiting)
  /\ buckets1 final = distribute NUM_BUCKETS_1 ws
  /\ (forall i w, (i < 8)%nat ->
        In w (nth i (buckets1 final) [])
        <-> In w ws /\ toy_hash w NUM_BUCKETS_1 = Ok (Z.of_nat i))
  /\ collisions1 final = repeats NUM_BUCKETS_1 [] ws
  /\ len (drawn1 final) = len ws + 1.
Proof.
  intros ws final. subst final.
  unfold start1. rewrite <- (distribute_nil NUM_BUCKETS_1), run1_from.
  cbn [fst snd buckets1 collisions1 drawn1 app]. fold ws.
  split; [reflexivity|]. split; [reflexivity|]. split; [|split; [reflexivity|]].
  - intros i w Hi. rewrite nth_distribute by exact Hi. rewrite filter_In.
    rewrite toy_hash_bucket_of by reflexivity. split.
    + intros [Hin E]. apply Nat.eqb_eq in E. subst i. auto.
    + intros [Hin E]. split; [exact Hin|]. injection E as E.
      apply Nat.eqb_eq. lia.
  - unfold len. rewrite length_map, length_seq. lia.
Qed.

Lemma run1_places_every_word_witness :
  let answers := [lit "Cat"; lit "Act"; lit "Dog"; lit "Q"; lit "Bird"] in
  (0 < 8)%nat
  /\ fst (run1 answers start1) = Quit
  /\ (In (lit "Act") (nth 0 (buckets1 (snd (run1 answers start1))) [])
      <-> In (lit "Act") (played answers) /\ toy_hash (lit "Act") NUM_BUCKETS_1 = Ok 0)
  /\ collisions1 (snd (run1 answers start1)) = [false; true; false].
Proof.
  intros answers.
  destruct (run1_places_every_word answers) as (He & _ & Hin & Hc & _).
  split; [lia|]. split; [exact He|]. split; [exact (Hin 0%nat (lit "Act") ltac:(lia))|].
  rewrite Hc. reflexivity.
Defined.

(** *** The collision game *)

(** The position in [ws] of the first word whose bucket was already taken
    by a word of [seen] or an earlier word of [ws]. *)
Fixpoint first_repeat (n : Z) (seen ws : list pystr) : option nat :=
  match ws with
  | [] => None
  | w :: rest =>
      if existsb (fun w' => Nat.eqb (bucket_of n w') (bucket_of n w)) seen
      then Some 0%nat
      else option_map S (first_repeat n (seen ++ [w]) rest)
  end.

(** What the game has reached from a state without collision, in terms of
    the words played. *)
Definition game_after (seen : list pystr) (tables : list (list pystr))
    (answers : list pystr) : ending * game :=
  let ws := played answers in
  match first_repeat NUM_BUCKETS_2 seen ws with
  | Some k =>
      let stored := seen ++ firstn (S k) ws in
      (Collision,
       {| buckets := distribute NUM_BUCKETS_2 stored;
          attempts := len stored;
          found := true;
          drawn :=
            tables
              ++ map (fun j => draw_buckets
                                 (distribute NUM_BUCKETS_2 (seen ++ firstn j ws)) None)
                   (seq 0 (S k))
              ++ [draw_buckets (distribute NUM_BUCKETS_2 stored)
                    (Some (Z.of_nat (bucket_of NUM_BUCKETS_2 (nth k ws []))))] |})
  | None =>
      (if existsb is_quit answers then Quit else Waiting,
       {| buckets := distribute NUM_BUCKETS_2 (seen ++ ws);
          attempts := len (seen ++ ws);
          found := false;
          drawn :=
            tables
              ++ map (fun j => draw_buckets
                                 (distribute NUM_BUCKETS_2 (seen ++ firstn j ws)) None)
                   (seq 0 (S (length ws))) |})
  end.

Lemma map_seq_S {A : Type} (f : nat -> A) n :
  map f (seq 0 (S n)) = f 0%nat :: map (fun j => f (S j)) (seq 0 n).
Proof. cbn [seq map]. rewrite <- seq_shift, map_map. reflexivity. Qed.

Lemma run2_from answers : forall seen tables,
  run2 answers {| buckets := distribute NUM_BUCKETS_2 seen; attempts := len seen;
                  found := false; drawn := tables |}
  = game_after seen tables answers.
Proof.
  assert (H5 : 0 < NUM_BUCKETS_2) by reflexivity.
  induction answers as [|word rest IH]; intros seen tables; unfold game_after.
  - cbn [run2 played first_repeat existsb buckets attempts found drawn length seq map
         firstn].
    rewrite !app_nil_r. reflexivity.
  - cbn [run2 played existsb buckets attempts found drawn].
    destruct (is_quit word) eqn:Eq; cbn [orb first_repeat].
    + cbn [length seq map firstn]. rewrite !app_nil_r. reflexivity.
    + rewrite (toy_hash_bucket_of _ word H5).
      rewrite list_pos_distribute by exact H5.
      rewrite append_to_distribute by exact H5.
      rewrite occupied_iff_repeat by exact H5.
      destruct (existsb _ seen) eqn:Eocc.
      * cbn [firstn seq map nth]. rewrite app_nil_r, <- app_assoc.
        replace (len (seen ++ [word])) with (len seen + 1)
          by (unfold len; rewrite length_app; cbn [length]; lia).
        reflexivity.
      * replace (len seen + 1) with (len (seen ++ [word]))
          by (unfold len; rewrite length_app; cbn [length]; lia).
        rewrite IH. unfold game_after.
        assert (Hmap : forall m,
                  map (fun j => draw_buckets
                                  (distribute NUM_BUCKETS_2
                                     ((seen ++ [word]) ++ firstn j (played rest))) None)
                    (seq 0 m)
                  = map (fun j => draw_buckets
                                    (distribute NUM_BUCKETS_2
                                       (seen ++ firstn (S j) (word :: played rest)))
                                    None)
                      (seq 0 m)).
        { intros m. apply map_ext. intros j. cbn [firstn].
          rewrite <- app_assoc. reflexivity. }
        destruct (first_repeat NUM_BUCKETS_2 (seen ++ [word]) (played rest)) as [k|];
          cbn [option_map].
        -- rewrite (map_seq_S _ (S k)).
           change (firstn 0 (word :: played rest)) with (@nil pystr).
           change (nth (S k) (word :: played rest) []) with (nth k (played rest) []).
           change (firstn (S (S k)) (word :: played rest))
             with (word :: firstn (S k) (played rest)).
           rewrite <- !app_assoc, app_nil_r, Hmap. reflexivity.
        -- change (length (word :: played rest)) with (S (length (played rest))).
           rewrite (map_seq_S _ (S (length (played rest)))).
           change (firstn 0 (word :: played rest)) with (@nil pystr).
           rewrite <- !app_assoc, app_nil_r, Hmap. reflexivity.
Qed.

Lemma existsb_bucket_In n seen w :
  existsb (fun w' => Nat.eqb (bucket_of n w') (bucket_of n w)) seen = false ->
  ~ In (bucket_of n w) (map (bucket_of n) seen).
Proof.
  intros H Hin. apply in_map_iff in Hin as (w' & E & Hw').
  assert (Ht : existsb (fun w' => Nat.eqb (bucket_of n w') (bucket_of n w)) seen = true).
  { apply existsb_exists. exists w'. split; [exact Hw' | apply Nat.eqb_eq, E]. }
  congruence.
Qed.

Lemma first_repeat_none_nodup n ws : forall seen,
  first_repeat n seen ws = None ->
  NoDup (map (bucket_of n) seen) ->
  NoDup (map (bucket_of n) (seen ++ ws)).
Proof.
  induction ws as [|w rest IH]; intros seen Hnone Hnd.
  - rewrite app_nil_r. exact Hnd.
  - cbn [first_repeat] in Hnone.
    destruct (existsb _ seen) eqn:E; [discriminate|].
    destruct (first_repeat n (seen ++ [w]) rest) eqn:Er; [discriminate|].
    replace (seen ++ w :: rest) with ((seen ++ [w]) ++ rest)
      by (rewrite <- app_assoc; reflexivity).
    apply IH; [exact Er|].
    rewrite map_app. cbn [map].
    apply (Permutation_NoDup (Permutation_cons_append _ _)).
    constructor; [apply existsb_bucket_In, E | exact Hnd].
Qed.

Lemma nodup_below_length (l : list nat) m :
  NoDup l -> Forall (fun x => (x < m)%nat) l -> (length l <= m)%nat.
Proof.
  intros Hnd Hall. rewrite <- (length_seq m 0).
  apply NoDup_incl_length; [exact Hnd|].
  intros x Hx. apply in_seq. rewrite Forall_forall in Hall.
  specialize (Hall x Hx). lia.
Qed.

(** The pigeonhole step: words in pairwise different buckets are at most
    as many as the buckets. *)
Lemma first_repeat_none_length n ws :
  0 < n -> first_repeat n [] ws = None -> (length ws <= Z.to_nat n)%nat.
Proof.
  intros Hn Hnone.
  pose proof (first_repeat_none_nodup n ws [] Hnone (NoDup_nil _)) as Hnd.
  cbn [app] in Hnd. rewrite <- (length_map (bucket_of n) ws).
  apply nodup_below_length; [exact Hnd|].
  apply Forall_forall. intros x Hx. apply in_map_iff in Hx as (w & <- & _).
  apply bucket_of_lt, Hn.
Qed.

Lemma first_repeat_some n ws : forall seen k,
  first_repeat n seen ws = Some k ->
  (k < length ws)%nat
  /\ first_repeat n seen (firstn k ws) = None
  /\ (seen = [] -> (1 <= k)%nat).
Proof.
  induction ws as [|w rest IH]; intros seen k H; [discriminate|].
  cbn [first_repeat] in H.
  destruct (existsb _ seen) eqn:E.
  - injection H as <-. cbn [length firstn first_repeat].
    split; [lia|]. split; [reflexivity|]. intros ->. discriminate E.
  - destruct (first_repeat n (seen ++ [w]) rest) as [k'|] eqn:Er; [|discriminate].
    injection H as <-. destruct (IH _ _ Er) as (Hlt & Hnone & _).
    cbn [length firstn first_repeat]. rewrite E, Hnone.
    split; [lia|]. split; [reflexivity | intros _; lia].
Qed.

Lemma firstn_S_nth_In {A : Type} (l : list A) k d :
  (k < length l)%nat -> In (nth k l d) (firstn (S k) l).
Proof.
  revert k. induction l as [|x l IH]; intros k H; [simpl in H; lia|].
  destruct k as [|k]; [left; reflexivity|].
  cbn [nth firstn]. right. apply IH. simpl in H. lia.
Qed.

Lemma last_app_single {A : Type} (l : list A) x d : last (l ++ [x]) d = x.
Proof. apply last_last. Qed.

Lemma run2_start answers : run2 answers start2 = game_after [] [] answers.
Proof.
  unfold start2. rewrite <- (distribute_nil NUM_BUCKETS_2).
  exact (run2_from answers [] []).
Qed.

(** X16: the collision game in terms of the words played.  It never
    raises.  If some word played lands in a bucket an earlier word already
    occupies, the game ends at the first such word: [found] is set, the
    number of attempts is its position (between 2 and 6), the buckets hold
    exactly the words up to it, and the last table drawn highlights its
    bucket with a red index (the green "clean placement" colour is never
    used here, since the word is appended before the table is drawn).
    Otherwise the game ends only by the user leaving or waits for input,
    with at most 5 words stored, one per bucket at most.  In both cases
    one more table than attempts was drawn. *)
Theorem collision_game (answers : list pystr) :
  let ws := played answers in
  let final := snd (run2 answers start2) in
  match first_repeat NUM_BUCKETS_2 [] ws with
  | Some k =>
      let pos := bucket_of NUM_BUCKETS_2 (nth k ws []) in
      fst (run2 answers start2) = Collision
      /\ found final = true
      /\ attempts final = Z.of_nat k + 1
      /\ 2 <= attempts final <= 6
      /\ buckets final = distribute NUM_BUCKETS_2 (firstn (S k) ws)
      /\ len (drawn final) = attempts final + 1
      /\ last (drawn final) [] = draw_buckets (buckets final) (Some (Z.of_nat pos))
      /\ idx_color pos (nth pos (buckets final) []) (Some (Z.of_nat pos)) = C_RED
  | None =>
      fst (run2 answers start2) = (if existsb is_quit answers then Quit else Waiting)
      /\ found final = false
      /\ attempts final = len ws
      /\ attempts final <= 5
      /\ buckets final = distribute NUM_BUCKETS_2 ws
      /\ len (drawn final) = attempts final + 1
  end.
Proof.
  intros ws final. subst final.
  assert (H5 : 0 < NUM_BUCKETS_2) by reflexivity.
  rewrite run2_start. unfold game_after. fold ws.
  destruct (first_repeat NUM_BUCKETS_2 [] ws) as [k|] eqn:Ek;
    cbn [fst snd buckets attempts found drawn app].
  - destruct (first_repeat_some _ _ _ _ Ek) as (Hlt & Hnone & Hk1).
    specialize (Hk1 eq_refl).
    pose proof (first_repeat_none_length _ _ H5 Hnone) as Hle.
    rewrite length_firstn in Hle.
    assert (Hlen : len (firstn (S k) ws) = Z.of_nat k + 1).
    { unfold len. rewrite length_firstn. lia. }
    split; [reflexivity|]. split; [reflexivity|]. split; [exact Hlen|].
    split; [rewrite Hlen; change (Z.to_nat NUM_BUCKETS_2) with 5%nat in Hle; lia|].
    split; [reflexivity|]. split; [|split].
    + unfold len at 1. rewrite length_app, length_map, length_seq. cbn [length].
      rewrite Hlen. lia.
    + apply last_app_single.
    + unfold idx_color, is_highlight. rewrite Z.eqb_refl. cbn [andb].
      rewrite nth_distribute by (apply bucket_of_lt, H5).
      assert (Hin : In (nth k ws [])
                      (filter (fun w => Nat.eqb (bucket_of NUM_BUCKETS_2 w)
                                          (bucket_of NUM_BUCKETS_2 (nth k ws [])))
                         (firstn (S k) ws))).
      { apply filter_In. split; [apply firstn_S_nth_In, Hlt | apply Nat.eqb_refl]. }
      destruct (filter _ (firstn (S k) ws)); [destruct Hin | reflexivity].
  - pose proof (first_repeat_none_length _ _ H5 Ek) as Hle.
    change (Z.to_nat NUM_BUCKETS_2) with 5%nat in Hle.
    split; [reflexivity|]. split; [reflexivity|]. split; [reflexivity|].
    split; [unfold len; lia|]. split; [reflexivity|].
    unfold len. rewrite length_map, length_seq. lia.
Qed.

(** X17: the pigeonhole guarantee of the lesson.  Once six words have
    been played, the game has ended with a collision, after at most six
    attempts. *)
Theorem collision_by_sixth_word (answers : list pystr) :
  (6 <= length (played answers))%nat ->
  fst (run2 answers start2) = Collision
  /\ found (snd (run2 answers start2)) = true
  /\ 2 <= attempts (snd (run2 answers start2)) <= 6.
Proof.
  intros H6.
  assert (H5 : 0 < NUM_BUCKETS_2) by reflexivity.
  rewrite run2_start. unfold game_after.
  destruct (first_repeat NUM_BUCKETS_2 [] (played answers)) as [k|] eqn:Ek.
  - destruct (first_repeat_some _ _ _ _ Ek) as (Hlt & Hnone & Hk1).
    specialize (Hk1 eq_refl).
    pose proof (first_repeat_none_length _ _ H5 Hnone) as Hle.
    rewrite length_firstn in Hle. change (Z.to_nat NUM_BUCKETS_2) with 5%nat in Hle.
    cbn [fst snd found attempts app]. unfold len. rewrite length_firstn.
    split; [reflexivity|]. split; [reflexivity | lia].
  - pose proof (first_repeat_none_length _ _ H5 Ek) as Hle.
    change (Z.to_nat NUM_BUCKETS_2) with 5%nat in Hle. lia.
Qed.

Lemma collision_by_sixth_word_witness :
  let answers := [lit "a"; lit "b"; lit "c"; lit "d"; lit "e"; lit "f"; lit "q"] in
  (6 <= length (played answers))%nat
  /\ fst (run2 answers start2) = Collision
  /\ attempts (snd (run2 answers start2)) = 6.
Proof.
  intros answers.
  assert (H6 : (6 <= length (played answers))%nat) by (vm_compute; lia).
  destruct (collision_by_sixth_word answers H6) as (He & _ & _).
  split; [exact H6|]. split; [exact He | reflexivity].
Defined.

(* ===================================================================== *)
(** ** demos/rainbow.py: the rainbow table

    [hashlib.sha256(pw.encode()).hexdigest()] is a parameter: the table
    logic does not depend on which function it is.  The module-level
    dictionary is an association list in insertion order, passed in and
    out of [_build_rainbow_table]. *)
(* ===================================================================== *)

Module Rainbow.

Definition ARROW : pystr := [8594].      (* U+2192 *)
Definition ELLIPSIS : pystr := [8230].   (* U+2026, written inline in the source *)

Definition COMMON_PASSWORDS : list pystr :=
  [lit "123456";   lit "password"; lit "12345678"; lit "qwerty";   lit "abc123";
   lit "monkey";   lit "letmein";  lit "dragon";   lit "111111";   lit "baseball";
   lit "iloveyou"; lit "trustno1"; lit "sunshine"; lit "master";   lit "welcome";
   lit "shadow";   lit "ashley";   lit "football"; lit "jesus";    lit "michael";
   lit "ninja";    lit "mustang";  lit "password1"; lit "hunter2"; lit "batman"].

Definition pystr_eqb (a b : pystr) : bool :=
  if list_eq_dec Z.eq_dec a b then true else false.

(** A [dict] from text to text. *)
Definition dict : Type := list (pystr * pystr).

(** [d[k] = v]: replace the value of an existing key in place, or add the
    key at the end. *)
Fixpoint dict_set (d : dict) (k v : pystr) : dict :=
  match d with
  | [] => [(k, v)]
  | (k', v') :: rest =>
      if pystr_eqb k' k then (k', v) :: rest else (k', v') :: dict_set rest k v
  end.

(** [d.get(k)]. *)
Fixpoint dict_get (d : dict) (k : pystr) : option pystr :=
  match d with
  | [] => None
  | (k', v') :: rest => if pystr_eqb k' k then Some v' else dict_get rest k
  end.

Inductive attack : Type :=
| Cracked (result : pystr)
| NotFound.

Section WithHash.

Variable sha256_hex : pystr -> pystr.

Definition _build_rainbow_table (RAINBOW_TABLE : dict) : dict :=
  fold_left (fun table pw => dict_set table (sha256_hex pw) pw)
    COMMON_PASSWORDS RAINBOW_TABLE.

(** Act 2: [result = RAINBOW_TABLE.get(victim_hash)], then [if result:]. *)
Definition attack_phase (RAINBOW_TABLE : dict) (victim_pw : pystr) : attack :=
  let victim_hash := sha256_hex victim_pw in
  match dict_get RAINBOW_TABLE victim_hash with
  | Some result => if truthy result then Cracked result else NotFound
  | None => NotFound
  end.

(** Act 1: one row of the table shown, [pw] left-aligned in 14 columns. *)
Definition table_row (pw : pystr) : pystr :=
  let h := sha256_hex pw in
  lit "  " ++ ljust pw 14 ++ lit " " ++ ARROW ++ lit "  "
    ++ C_DIM ++ firstn 32 h ++ ELLIPSIS ++ C_RESET.

Definition shown_table : result (list pystr) :=
  draw_box (map table_row (firstn 10 COMMON_PASSWORDS)) None C_RED.

End WithHash.

End Rainbow.

Import Rainbow.

(** The table after [run] has been entered [k + 1] times: the dictionary
    is module-level, so every entry builds on the previous one. *)
Definition table_after (sha256_hex : pystr -> pystr) (k : nat) : dict :=
  Nat.iter (S k) (_build_rainbow_table sha256_hex) [].

(** The last password of [pws] whose hash is [h]. *)
Fixpoint last_with_hash (sha256_hex : pystr -> pystr) (h : pystr) (pws : list pystr)
  : option pystr :=
  match pws with
  | [] => None
  | pw :: rest =>
      match last_with_hash sha256_hex h rest with
      | Some later => Some later
      | None => if pystr_eqb (sha256_hex pw) h then Some pw else None
      end
  end.

Example attack_ex :
  attack_phase (fun pw => pw ++ lit "#") (table_after (fun pw => pw ++ lit "#") 0)
    (lit "dragon") = Cracked (lit "dragon").
Proof. reflexivity. Qed.

Lemma pystr_eqb_eq a b : pystr_eqb a b = true <-> a = b.
Proof.
  unfold pystr_eqb. destruct (list_eq_dec Z.eq_dec a b); split; congruence.
Qed.

Lemma pystr_eqb_refl a : pystr_eqb a a = true.
Proof. apply pystr_eqb_eq. reflexivity. Qed.

Lemma pystr_eqb_neq a b : pystr_eqb a b = false <-> a <> b.
Proof.
  unfold pystr_eqb. destruct (list_eq_dec Z.eq_dec a b); split; congruence.
Qed.

(** Reading a dictionary after one assignment. *)
Lemma dict_get_set d k v k' :
  dict_get (dict_set d k v) k' = if pystr_eqb k k' then Some v else dict_get d k'.
Proof.
  induction d as [|[k0 v0] rest IH]; cbn [dict_set dict_get]; [reflexivity|].
  destruct (pystr_eqb k0 k) eqn:E0.
  - apply pystr_eqb_eq in E0 as ->. cbn [dict_get].
    destruct (pystr_eqb k k'); reflexivity.
  - cbn [dict_get]. rewrite IH.
    destruct (pystr_eqb k0 k') eqn:E1; [|reflexivity].
    apply pystr_eqb_eq in E1 as ->.
    destruct (pystr_eqb k k') eqn:E2; [|reflexivity].
    apply pystr_eqb_eq in E2 as ->. rewrite pystr_eqb_refl in E0. discriminate.
Qed.

Lemma dict_get_build sha256_hex h pws : forall table,
  dict_get (fold_left (fun table pw => dict_set table (sha256_hex pw) pw) pws table) h
  = match last_with_hash sha256_hex h pws with
    | Some pw => Some pw
    | None => dict_get table h
    end.
Proof.
  induction pws as [|pw rest IH]; intros table; cbn [fold_left last_with_hash];
    [reflexivity|].
  rewrite IH. destruct (last_with_hash sha256_hex h rest); [reflexivity|].
  rewrite dict_get_set. destruct (pystr_eqb (sha256_hex pw) h); reflexivity.
Qed.

Lemma last_with_hash_some sha256_hex h pws pw :
  last_with_hash sha256_hex h pws = Some pw -> In pw pws /\ sha256_hex pw = h.
Proof.
  induction pws as [|p rest IH]; cbn [last_with_hash]; [discriminate|].
  destruct (last_with_hash sha256_hex h rest) as [later|].
  - intros E. injection E as ->. destruct (IH eq_refl). split; [right|]; assumption.
  - destruct (pystr_eqb (sha256_hex p) h) eqn:E; [|discriminate].
    intros E'. injection E' as ->. apply pystr_eqb_eq in E.
    split; [left; reflexivity | exact E].
Qed.

Lemma last_with_hash_none sha256_hex h pws :
  last_with_hash sha256_hex h pws = None
  <-> forall pw, In pw pws -> sha256_hex pw <> h.
Proof.
  induction pws as [|p rest IH]; cbn [last_with_hash].
  - split; [intros _ pw [] | reflexivity].
  - destruct (last_with_hash sha256_hex h rest) as [later|] eqn:El.
    + split; [discriminate|]. intros H.
      destruct (last_with_hash_some _ _ _ _ El) as [Hin E].
      exfalso. exact (H later (or_intror Hin) E).
    + destruct (pystr_eqb (sha256_hex p) h) eqn:E.
      * split; [discriminate|]. intros H. apply pystr_eqb_eq in E.
        exfalso. exact (H p (or_introl eq_refl) E).
      * split; [|reflexivity]. intros _ pw [<-|Hin].
        -- apply pystr_eqb_neq, E.
        -- apply (proj1 IH eq_refl), Hin.
Qed.

Lemma dict_get_table_after sha256_hex k h :
  dict_get (table_after sha256_hex k) h = last_with_hash sha256_hex h COMMON_PASSWORDS.
Proof.
  unfold table_after. induction k as [|k IH].
  - change (Nat.iter 1 (_build_rainbow_table sha256_hex) [])
      with (_build_rainbow_table sha256_hex []).
    unfold _build_rainbow_table. rewrite dict_get_build.
    destruct (last_with_hash _ _ _); reflexivity.
  - change (Nat.iter (S (S k)) (_build_rainbow_table sha256_hex) [])
      with (_build_rainbow_table sha256_hex
              (Nat.iter (S k) (_build_rainbow_table sha256_hex) [])).
    unfold _build_rainbow_table at 1. rewrite dict_get_build, IH.
    destruct (last_with_hash _ _ _); reflexivity.
Qed.

Lemma common_passwords_truthy pw : In pw COMMON_PASSWORDS -> truthy pw = true.
Proof.
  assert (H : forallb truthy COMMON_PASSWORDS = true) by reflexivity.
  rewrite forallb_forall in H. apply H.
Qed.

(** X18: the rainbow lookup, for any hash function and however often the
    lesson has been entered.  A reported password is always one of the 25
    common passwords and always hashes to the stolen hash.  The lookup
    fails exactly when no common password has that hash (no entry is ever
    dropped by the truthiness test, as no common password is empty).  A
    victim password from the list is reported itself whenever no other
    listed password shares its hash.  Entering the lesson again rebuilds
    the table without changing any lookup. *)
Theorem rainbow_attack (sha256_hex : pystr -> pystr) (k : nat) (victim_pw : pystr) :
  let table := table_after sha256_hex k in
  (forall result,
     attack_phase sha256_hex table victim_pw = Cracked result ->
     In result COMMON_PASSWORDS /\ sha256_hex result = sha256_hex victim_pw)
  /\ (attack_phase sha256_hex table victim_pw = NotFound
      <-> forall pw, In pw COMMON_PASSWORDS -> sha256_hex pw <> sha256_hex victim_pw)
  /\ (In victim_pw COMMON_PASSWORDS ->
      (forall pw, In pw COMMON_PASSWORDS ->
                  sha256_hex pw = sha256_hex victim_pw -> pw = victim_pw) ->
      attack_phase sha256_hex table victim_pw = Cracked victim_pw)
  /\ (forall h, dict_get (table_after sha256_hex (S k)) h = dict_get table h).
Proof.
  intros table. subst table. unfold attack_phase.
  rewrite dict_get_table_after.
  destruct (last_with_hash sha256_hex (sha256_hex victim_pw) COMMON_PASSWORDS)
    as [pw|] eqn:El.
  - destruct (last_with_hash_some _ _ _ _ El) as [Hin E].
    rewrite (common_passwords_truthy _ Hin).
    split; [|split; [|split]].
    + intros result H. injection H as <-. split; assumption.
    + split; [discriminate|]. intros H. exfalso. exact (H pw Hin E).
    + intros _ Hinj. rewrite (Hinj pw Hin E). reflexivity.
    + intros h. rewrite !dict_get_table_after. reflexivity.
  - pose proof (proj1 (last_with_hash_none _ _ _) El) as Hnone.
    split; [|split; [|split]].
    + discriminate.
    + split; [intros _; exact Hnone | reflexivity].
    + intros Hin _. exfalso. exact (Hnone victim_pw Hin eq_refl).
    + intros h. rewrite !dict_get_table_after. reflexivity.
Qed.

(** With a stand-in hash (the text followed by '#'), after two entries of
    the lesson: "dragon" is cracked, "zebra" is not found. *)
Lemma rainbow_attack_witness :
  let h := fun pw : pystr => pw ++ lit "#" in
  In (lit "dragon") COMMON_PASSWORDS
  /\ (forall pw, In pw COMMON_PASSWORDS -> h pw = h (lit "dragon") -> pw = lit "dragon")
  /\ attack_phase h (table_after h 1) (lit "dragon") = Cracked (lit "dragon")
  /\ (attack_phase h (table_after h 1) (lit "zebra") = NotFound
      <-> forall pw, In pw COMMON_PASSWORDS -> h pw <> h (lit "zebra")).
Proof.
  intros h.
  assert (Hin : In (lit "dragon") COMMON_PASSWORDS)
    by (unfold COMMON_PASSWORDS; simpl; tauto).
  assert (Hinj : forall pw, In pw COMMON_PASSWORDS ->
                            h pw = h (lit "dragon") -> pw = lit "dragon").
  { intros pw _ E. unfold h in E. apply app_inv_tail in E. exact E. }
  destruct (rainbow_attack h 1 (lit "dragon")) as (_ & _ & Hc & _).
  destruct (rainbow_attack h 1 (lit "zebra")) as (_ & Hn & _).
  split; [exact Hin|]. split; [exact Hinj|]. split; [exact (Hc Hin Hinj) | exact Hn].
Defined.

(** ** The table box of the rainbow lesson *)

Lemma forallb_firstn {A : Type} (p : A -> bool) n : forall l,
  forallb p l = true -> forallb p (firstn n l) = true.
Proof.
  induction n as [|n IH]; intros [|x l]; cbn [firstn forallb]; try reflexivity.
  intros H. apply andb_true_iff in H as [Hx Hl]. rewrite Hx. exact (IH l Hl).
Qed.

Lemma len_firstn {A : Type} n (l : list A) :
  len (firstn n l) = Z.min (Z.of_nat n) (len l).
Proof. unfold len. rewrite length_firstn. lia. Qed.

Lemma map_all_eq {A : Type} (f : A -> Z) c l :
  Forall (fun x => f x = c) l -> map f l = repeat c (length l).
Proof.
  induction 1 as [|x l Hx _ IH]; cbn [map length repeat]; [reflexivity|].
  rewrite Hx, IH. reflexivity.
Qed.

(** What is left of a table row once the colours are removed. *)
Lemma strip_ansi_table_row sha256_hex pw :
  forallb (fun c => negb (c =? ESC)) pw = true ->
  forallb (fun c => negb (c =? ESC)) (sha256_hex pw) = true ->
  strip_ansi (table_row sha256_hex pw)
  = lit "  " ++ ljust pw 14 ++ lit " " ++ ARROW ++ lit "  "
      ++ firstn 32 (sha256_hex pw) ++ ELLIPSIS.
Proof.
  intros Hpw Hh. unfold table_row.
  rewrite (strip_ansi_span (lit "  ")) by reflexivity.
  rewrite (strip_ansi_span (ljust pw 14))
    by (unfold ljust; rewrite forallb_app, Hpw, str_mul1_no_esc; reflexivity).
  rewrite (strip_ansi_span (lit " ")) by reflexivity.
  rewrite (strip_ansi_span ARROW) by reflexivity.
  rewrite (strip_ansi_span (lit "  ")) by reflexivity.
  rewrite (strip_ansi_sgr C_DIM) by (exists (lit "2"); split; reflexivity).
  rewrite (strip_ansi_span (firstn 32 (sha256_hex pw)))
    by (apply forallb_firstn, Hh).
  rewrite (strip_ansi_span ELLIPSIS) by reflexivity.
  replace (strip_ansi C_RESET) with (@nil Z) by reflexivity.
  rewrite app_nil_r. reflexivity.
Qed.

Lemma visible_len_table_row sha256_hex pw :
  forallb (fun c => negb (c =? ESC)) pw = true ->
  forallb (fun c => negb (c =? ESC)) (sha256_hex pw) = true ->
  visible_len (table_row sha256_hex pw)
  = Z.max (len pw) 14 + Z.min 32 (len (sha256_hex pw)) + 7.
Proof.
  intros Hpw Hh. unfold visible_len.
  rewrite strip_ansi_table_row by assumption.
  rewrite !len_app, len_ljust, len_firstn.
  change (len (lit "  ")) with 2. change (len (lit " ")) with 1.
  change (len ARROW) with 1. change (len ELLIPSIS) with 1. lia.
Qed.

(** X19: the table of Act 1.  Whenever the digests shown are at least 32
    characters long and contain no escape character (as hexadecimal digests
    are), the box is drawn without error as twelve lines, every one 61
    columns wide on screen; each of the ten rows shows, after the colours
    are removed, the password padded to 14 columns, the arrow, the first
    32 characters of its digest and an ellipsis, 53 columns in all. *)
Theorem rainbow_table_box (sha256_hex : pystr -> pystr) :
  (forall pw, In pw (firstn 10 COMMON_PASSWORDS) ->
              32 <= len (sha256_hex pw)
              /\ forallb (fun c => negb (c =? ESC)) (sha256_hex pw) = true) ->
  exists out,
    shown_table sha256_hex = Ok out
    /\ len out = 12
    /\ Forall (fun printed => visible_len printed = 61) out
    /\ forall pw, In pw (firstn 10 COMMON_PASSWORDS) ->
         strip_ansi (table_row sha256_hex pw)
         = lit "  " ++ ljust pw 14 ++ lit " " ++ ARROW ++ lit "  "
             ++ firstn 32 (sha256_hex pw) ++ ELLIPSIS
         /\ visible_len (table_row sha256_hex pw) = 53.
Proof.
  intros Hh.
  assert (Hpws : forall pw, In pw (firstn 10 COMMON_PASSWORDS) ->
             forallb (fun c => negb (c =? ESC)) pw = true /\ len pw <= 14).
  { assert (H : forallb (fun pw => forallb (fun c => negb (c =? ESC)) pw
                                   && (len pw <=? 14))
                  (firstn 10 COMMON_PASSWORDS) = true) by reflexivity.
    rewrite forallb_forall in H. intros pw Hin.
    specialize (H pw Hin). apply andb_true_iff in H as [H1 H2].
    split; [exact H1 | apply Z.leb_le, H2]. }
  assert (Hrow : forall pw, In pw (firstn 10 COMMON_PASSWORDS) ->
             visible_len (table_row sha256_hex pw) = 53).
  { intros pw Hin. destruct (Hpws pw Hin) as [Hne Hlen].
    destruct (Hh pw Hin) as [H32 Hhe].
    rewrite visible_len_table_row by assumption. lia. }
  assert (Hc : is_sgr C_RED) by (exists (lit "91"); split; reflexivity).
  unfold shown_table, draw_box, resolve_width.
  rewrite map_map.
  rewrite (map_all_eq (fun pw => len (strip_ansi (table_row sha256_hex pw))) 53)
    by (apply Forall_forall; exact Hrow).
  change (py_max (repeat 53 (length (firstn 10 COMMON_PASSWORDS)))) with (Ok 53).
  cbn [bind]. eexists. split; [reflexivity|]. split; [|split].
  - unfold len. rewrite !length_app, !length_map. reflexivity.
  - apply Forall_app. split; [|apply Forall_app; split].
    + constructor; [|constructor]. unfold box_top, BOX_TL, BOX_TR.
      rewrite visible_len_box_border by (exact Hc || reflexivity). reflexivity.
    + apply Forall_forall. intros printed Hp.
      apply in_map_iff in Hp as (line & <- & Hl).
      apply in_map_iff in Hl as (pw & <- & Hin).
      rewrite visible_len_box_row by exact Hc.
      rewrite (Hrow pw Hin). reflexivity.
    + constructor; [|constructor]. unfold box_bottom, BOX_BL, BOX_BR.
      rewrite visible_len_box_border by (exact Hc || reflexivity). reflexivity.
  - intros pw Hin. destruct (Hpws pw Hin) as [Hne _].
    destruct (Hh pw Hin) as [_ Hhe].
    split; [apply strip_ansi_table_row; assumption | exact (Hrow pw Hin)].
Qed.

(** With the digest of "test" standing in for every digest. *)
Lemma rainbow_table_box_witness :
  let h := fun _ : pystr =>
             lit "9f86d081884c7d659a2feaa0c55ad015a3bf4f1b2b0b822cd15d6c15b0f00a08" in
  (forall pw, In pw (firstn 10 COMMON_PASSWORDS) ->
              32 <= len (h pw)
              /\ forallb (fun c => negb (c =? ESC)) (h pw) = true)
  /\ exists out,
       shown_table h = Ok out
       /\ len out = 12
       /\ Forall (fun printed => visible_len printed = 61) out.
Proof.
  intros h.
  assert (Hh : forall pw, In pw (firstn 10 COMMON_PASSWORDS) ->
                 32 <= len (h pw)
                 /\ forallb (fun c => negb (c =? ESC)) (h pw) = true).
  { intros pw _. split; [unfold h, len; simpl; lia | reflexivity]. }
  destruct (rainbow_table_box h Hh) as (out & Hout & Hlen & Hall & _).
  split; [exact Hh|]. exists out.
  split; [exact Hout|]. split; [exact Hlen | exact Hall].
Defined.
